(** * rs_string: small-buffer, reference-counted, copy-on-write byte strings

    A shallow embedding of [rs_string.h] and the properties its
    specification states about it.

    Modelling conventions.
    - [size_t] values are integers in [Z]; every [size_t] sum or difference
      of the source is reduced modulo [2^64] by [sz].  The sentinel
      [(size_t)-1] is [npos].
    - Bytes are [Byte.byte]; a buffer is the list of its bytes, a view
      ([rs_sv]) is the list of the bytes it designates.
    - The heap maps the address of a block to its header ([cap], [rc]) and
      the buffer that follows it, so [rs__hdr_from_ptr] and
      [rs__ptr_from_hdr] are the identity.  Address [0] is [NULL].
    - The field [p] of an [rs_string] designates the inline buffer of the
      same object ([PSso]), a heap block ([PHeap a]), or the inline buffer of
      an object that is gone ([PStale]): what [p] is in a copy by value of an
      object whose [p] designated its own inline buffer, once that object is
      dead.
    - Addresses are flat: a pointer sum [p + a + b] designates the offset
      [a + b] reduced modulo [2^64], like a [size_t] sum.
    - Functions that take an [rs_string*] and update the object in place take
      the value of the object and return its new value; what they do to the
      heap is threaded through the monad [M].  Undefined behaviour (a [NULL]
      or dangling dereference, an access outside a buffer, signed overflow)
      is the outcome [Fault].
    - The system allocator may refuse any request: the heap carries the
      answers ([grants]) it gives to successive requests. *)

From Stdlib Require Import ZArith Lia List Strings.Byte Strings.String.
From stdpp Require Import base option gmap list.

Open Scope Z_scope.

(** ** Machine integers and constants *)

Definition SIZE_MAX : Z := 2 ^ 64 - 1.
Definition INT_MAX : Z := 2 ^ 31 - 1.
Definition sz (x : Z) : Z := x mod 2 ^ 64.
Definition npos : Z := SIZE_MAX.
Definition RS_SSO_CAP : Z := 22.
Definition sizeof_hdr : Z := 16.
Abbreviation NULL := 0 (only parsing).

Definition zlen (l : list byte) : Z := Z.of_nat (length l).

(** The bytes of a string literal. *)
Definition bs (s : string) : list byte := list_byte_of_string s.

#[global] Instance byte_eq_decision : EqDecision byte := Byte.byte_eq_dec.

(** ** Buffers *)

Definition in_range (off n : Z) (l : list byte) : bool :=
  (0 <=? off) && (0 <=? n) && (off + n <=? zlen l).

Definition bytes_at (l : list byte) (off n : Z) : list byte :=
  take (Z.to_nat n) (drop (Z.to_nat off) l).

(** [memcpy (dst + doff, src + soff, n)]; the result is the new [dst]. *)
Definition memcpy (dst : list byte) (doff : Z) (src : list byte) (soff n : Z)
  : option (list byte) :=
  if in_range doff n dst && in_range soff n src
  then Some (take (Z.to_nat doff) dst ++ bytes_at src soff n
               ++ drop (Z.to_nat (doff + n)) dst)
  else None.

(** [memmove (p + doff, p + soff, n)] inside one buffer: the source bytes are
    read before any is written. *)
Definition memmove (buf : list byte) (doff soff n : Z) : option (list byte) :=
  memcpy buf doff buf soff n.

(** [memcmp (p + off, what, n) == 0] *)
Definition memcmp_eq (buf : list byte) (off : Z) (what : list byte) (n : Z)
  : option bool :=
  if in_range off n buf && in_range 0 n what
  then Some (bool_decide (bytes_at buf off n = bytes_at what 0 n))
  else None.

(** [(unsigned char)p[i]] *)
Definition peek (buf : list byte) (i : Z) : option Z :=
  if in_range i 1 buf
  then option_map (fun b => Z.of_N (Byte.to_N b)) (buf !! Z.to_nat i)
  else None.

(** [p[i] = b] *)
Definition poke (buf : list byte) (i : Z) (b : byte) : option (list byte) :=
  if in_range i 1 buf then Some (<[Z.to_nat i := b]> buf) else None.

(** ** The heap and the allocator *)

Record rs__hdr := Hdr { hcap : Z; hrc : Z; hbuf : list byte }.

Record heap := Heap {
  blocks : gmap Z rs__hdr;
  next : Z;
  tick : nat;
  grants : nat -> bool;
  moves : nat -> bool
}.

Definition set_blocks (bl : gmap Z rs__hdr) (h : heap) : heap :=
  Heap bl (next h) (tick h) (grants h) (moves h).

Definition asked (h : heap) : heap :=
  Heap (blocks h) (next h) (S (tick h)) (grants h) (moves h).

Definition took (h : heap) : heap :=
  Heap (blocks h) (next h + 1) (tick h) (grants h) (moves h).

Inductive result (A : Type) : Type :=
| Ok (a : A)
| Fault.
Arguments Ok {A} a.
Arguments Fault {A}.

Definition M (A : Type) : Type := heap -> result (A * heap).

Definition ret {A} (a : A) : M A := fun h => Ok (a, h).
Definition fault {A} : M A := fun _ => Fault.
Definition bind {A B} (c : M A) (k : A -> M B) : M B :=
  fun h => match c h with
           | Ok (a, h') => k a h'
           | Fault => Fault
           end.
Definition lift {A} (o : option A) : M A :=
  match o with Some a => ret a | None => fault end.

Notation "x <- c ;; k" := (bind c (fun x => k))
  (at level 100, c at next level, right associativity).
Notation "c ;;; k" := (bind c (fun _ => k))
  (at level 100, right associativity).

(** Reading and writing a block through a pointer: [NULL] and pointers to
    no live block fault. *)
Definition load_hdr (a : Z) : M rs__hdr :=
  fun h => if a =? NULL then Fault
           else match blocks h !! a with
                | Some b => Ok (b, h)
                | None => Fault
                end.

Definition store_hdr (a : Z) (b : rs__hdr) : M unit :=
  fun h => if a =? NULL then Fault
           else match blocks h !! a with
                | Some _ => Ok (tt, set_blocks (<[a := b]> (blocks h)) h)
                | None => Fault
                end.

(** [malloc]: a granted request returns a fresh block whose bytes are
    indeterminate (zero here); a refused one returns [NULL]. *)
Definition rs__sys_malloc (n : Z) : M Z :=
  fun h =>
    if grants h (tick h)
    then let a := next h in
         let b := Hdr 0 0 (replicate (Z.to_nat (n - sizeof_hdr)) x00) in
         Ok (a, took (asked (set_blocks (<[a := b]> (blocks h)) h)))
    else Ok (NULL, asked h).

(** [realloc]: a granted request keeps the bytes of the block up to the
    smaller of the two sizes, in place or at a fresh address; a refused one
    returns [NULL] and leaves the block as it is. *)
Definition rs__sys_realloc (p : Z) (n : Z) : M Z :=
  fun h =>
    match blocks h !! p with
    | None => Fault
    | Some b =>
      if grants h (tick h)
      then let b' := Hdr (hcap b) (hrc b)
                         (resize (Z.to_nat (n - sizeof_hdr)) x00 (hbuf b)) in
           if moves h (tick h)
           then let a := next h in
                Ok (a, took (asked (set_blocks (<[a := b']> (delete p (blocks h))) h)))
           else Ok (p, asked (set_blocks (<[p := b']> (blocks h)) h))
      else Ok (NULL, asked h)
    end.

Definition rs__sys_free (p : Z) : M unit :=
  fun h =>
    if p =? NULL then Ok (tt, h)
    else match blocks h !! p with
         | Some _ => Ok (tt, set_blocks (delete p (blocks h)) h)
         | None => Fault
         end.

Record rs_alloc := Alloc {
  m : Z -> M Z;
  r : Z -> Z -> M Z;
  f : Z -> M unit
}.

Definition rs_default_alloc : rs_alloc :=
  Alloc rs__sys_malloc rs__sys_realloc rs__sys_free.

(** ** Reference counts *)

Definition rs__rc_inc (a : Z) : M Z :=
  b <- load_hdr a ;;
  let v := sz (hrc b + 1) in
  store_hdr a (Hdr (hcap b) v (hbuf b)) ;;;
  ret v.

Definition rs__rc_dec (a : Z) : M Z :=
  b <- load_hdr a ;;
  let v := sz (hrc b - 1) in
  store_hdr a (Hdr (hcap b) v (hbuf b)) ;;;
  ret v.

Definition rs__rc_get (a : Z) : M Z :=
  b <- load_hdr a ;; ret (hrc b).

Definition hdr_set_cap (a : Z) (v : Z) : M unit :=
  b <- load_hdr a ;; store_hdr a (Hdr v (hrc b) (hbuf b)).

Definition hdr_set_rc (a : Z) (v : Z) : M unit :=
  b <- load_hdr a ;; store_hdr a (Hdr (hcap b) v (hbuf b)).

Definition hdr_get_cap (a : Z) : M Z :=
  b <- load_hdr a ;; ret (hcap b).

Definition buf_load (a : Z) : M (list byte) :=
  b <- load_hdr a ;; ret (hbuf b).

Definition buf_store (a : Z) (buf : list byte) : M unit :=
  b <- load_hdr a ;; store_hdr a (Hdr (hcap b) (hrc b) buf).

(** ** Views *)

Definition rs_sv : Type := list byte.
Definition sv_len (v : rs_sv) : Z := zlen v.

(** A C string is given by the bytes before its terminator; [None] is the
    null pointer. *)
Definition rs_sv_from_cstr (c : option (list byte)) : rs_sv :=
  match c with Some l => l | None => [] end.

(** ** The string object *)

Inductive ptr : Type :=
| PSso
| PHeap (a : Z)
| PStale.

Record rs_string := Str {
  len : Z;
  off : Z;
  p : ptr;
  cap : Z;
  sso : list byte
}.

Definition set_len (v : Z) (s : rs_string) : rs_string :=
  Str v (off s) (p s) (cap s) (sso s).
Definition set_off (v : Z) (s : rs_string) : rs_string :=
  Str (len s) v (p s) (cap s) (sso s).
Definition set_p (v : ptr) (s : rs_string) : rs_string :=
  Str (len s) (off s) v (cap s) (sso s).
Definition set_cap (v : Z) (s : rs_string) : rs_string :=
  Str (len s) (off s) (p s) v (sso s).
Definition set_sso (v : list byte) (s : rs_string) : rs_string :=
  Str (len s) (off s) (p s) (cap s) v.

(** [s->p != s->sso] *)
Definition rs_string_is_heap (s : rs_string) : bool :=
  match p s with PSso => false | PHeap _ => true | PStale => true end.

Definition rs_string_len (s : rs_string) : Z := len s.

Definition rs_string_cap (s : rs_string) : Z :=
  if rs_string_is_heap s then cap s else RS_SSO_CAP.

(** The address [rs__hdr_from_ptr (s->p)] when [p] is not the inline buffer.
    A stale pointer is the address of no block; [NULL] stands for it, so
    that every access through it faults. *)
Definition heap_addr (s : rs_string) : Z :=
  match p s with PSso => NULL | PHeap a => a | PStale => NULL end.

(** The buffer [rs_string_is_heap(s) ? s->p : s->sso] designates. *)
Definition rs_string_cstr (s : rs_string) : M (list byte) :=
  match p s with
  | PSso => ret (sso s)
  | PHeap a => buf_load a
  | PStale => fault
  end.

(** Writing through that pointer. *)
Definition buf_put (s : rs_string) (buf : list byte) : M rs_string :=
  match p s with
  | PSso => ret (set_sso buf s)
  | PHeap a => buf_store a buf ;;; ret s
  | PStale => fault
  end.

Definition rs_string_avail (s : rs_string) : Z :=
  let cap := rs_string_cap s in sz (cap - len s).

(** ** Init / Free *)

Definition rs_string_init (s : rs_string) : rs_string :=
  Str 0 0 PSso RS_SSO_CAP (<[0%nat := x00]> (sso s)).

(** The value of an object as another object holds it, after [return s] or
    [*dst = *src]: the fields are those of the original, so a [p] that
    designated the inline buffer of the original designates it still, and
    not the inline buffer of the copy. *)
Definition by_value (s : rs_string) : rs_string :=
  match p s with
  | PSso => set_p PStale s
  | _ => s
  end.

(** [s0] is the indeterminate initial value of the local [rs_string s];
    the local is returned by value and is dead when the caller has the
    result.  The result of a refused [malloc] is used unchecked. *)
Definition rs_string_from_val (s0 : rs_string) (c : option (list byte))
  : M rs_string :=
  let s := rs_string_init s0 in
  s <- match c with
       | Some ((_ :: _) as cs) =>
         let n := zlen cs in
         if n <=? RS_SSO_CAP then
           buf <- lift (memcpy (sso s) 0 (cs ++ [x00]) 0 (sz (n + 1))) ;;
           ret (set_len n (set_sso buf s))
         else
           let a := rs_default_alloc in
           let cap := n in
           h <- m a (sz (sizeof_hdr + cap + 1)) ;;
           hdr_set_cap h cap ;;;
           hdr_set_rc h 1 ;;;
           let p := h in
           old <- buf_load p ;;
           buf <- lift (memcpy old 0 (cs ++ [x00]) 0 (sz (n + 1))) ;;
           buf_store p buf ;;;
           ret (set_len n (set_cap cap (set_p (PHeap p) s)))
       | _ => ret s
       end ;;
  ret (by_value s).

(** [*s = rs_string_from_val (c)]: what [*s] held is written over. *)
Definition rs_string_from_cstr (s0 : rs_string) (c : option (list byte))
  : M (Z * rs_string) :=
  s <- rs_string_from_val s0 c ;; ret (0, by_value s).

Definition rs__free_heap (s : rs_string) : M unit :=
  if rs_string_is_heap s then
    let h := heap_addr s in
    c <- rs__rc_dec h ;;
    if c =? 0 then f rs_default_alloc h else ret tt
  else ret tt.

Definition rs_string_free (s : rs_string) : M rs_string :=
  (if rs_string_is_heap s then rs__free_heap s else ret tt) ;;;
  ret (rs_string_init s).

(** ** Copy on write *)

Definition rs__retain (s : rs_string) : M unit :=
  if rs_string_is_heap s then
    rs__rc_inc (heap_addr s) ;;; ret tt
  else ret tt.

(** [rs_string_share] takes two pointers that may be equal, so it is stated
    over the objects [objs] the program holds, [dst] and [src] being
    positions in it. *)
Definition rs_string_share (dst src : nat) (objs : list rs_string)
  : M (list rs_string) :=
  if bool_decide (dst = src) then ret objs else
  d <- lift (objs !! dst) ;;
  d <- rs_string_free d ;;
  let objs := <[dst := d]> objs in
  s <- lift (objs !! src) ;;
  objs <- (if rs_string_is_heap s then
             let objs := <[dst := s]> objs in
             d <- lift (objs !! dst) ;;
             rs__retain d ;;;
             ret objs
           else
             d <- lift (objs !! dst) ;;
             let d := set_len (len s) d in
             let d := set_off 0 d in
             let d := set_cap RS_SSO_CAP d in
             buf <- lift (memcpy (sso d) 0 (sso s) 0 (sz (len s + 1))) ;;
             let d := set_sso buf d in
             let d := set_p PSso d in
             ret (<[dst := d]> objs)) ;;
  d <- lift (objs !! dst) ;;
  (if rs_string_is_heap d then rs__retain d else ret tt) ;;;
  ret objs.

Definition rs__ensure_unique (s : rs_string) (a : rs_alloc) : M (Z * rs_string) :=
  if negb (rs_string_is_heap s) then ret (0, s) else
  let h := heap_addr s in
  c <- rs__rc_get h ;;
  if c =? 1 then ret (0, s) else
  cap <- hdr_get_cap h ;;
  nh <- m a (sz (sizeof_hdr + cap + 1)) ;;
  if nh =? NULL then ret (-1, s) else
  hdr_set_cap nh cap ;;;
  hdr_set_rc nh 1 ;;;
  let np := nh in
  src <- buf_load h ;;
  old <- buf_load np ;;
  buf <- lift (memcpy old 0 src 0 (sz (len s + 1))) ;;
  buf_store np buf ;;;
  rs__rc_dec h ;;;
  ret (0, set_cap cap (set_p (PHeap np) s)).

(** ** Reserve *)

Definition rs_string_reserve_ex (s : rs_string) (need : Z) (a : rs_alloc)
  : M (Z * rs_string) :=
  let cap := rs_string_cap s in
  if need <=? cap then ret (0, s) else
  x <- rs__ensure_unique s a ;;
  let '(e, s) := x in
  if negb (e =? 0) then ret (-1, s) else
  let ncap := sz (cap + cap / 2 + 1) in
  let ncap := if ncap <? need then need else ncap in
  if rs_string_is_heap s then
    let oh := heap_addr s in
    nh <- r a oh (sz (sizeof_hdr + ncap + 1)) ;;
    if nh =? NULL then ret (-1, s) else
    hdr_set_cap nh ncap ;;;
    ret (0, set_cap ncap (set_p (PHeap nh) s))
  else
    nh <- m a (sz (sizeof_hdr + ncap + 1)) ;;
    if nh =? NULL then ret (-1, s) else
    hdr_set_cap nh ncap ;;;
    hdr_set_rc nh 1 ;;;
    let np := nh in
    old <- buf_load np ;;
    buf <- lift (memcpy old 0 (sso s) 0 (sz (len s + 1))) ;;
    buf_store np buf ;;;
    ret (0, set_cap ncap (set_p (PHeap np) s)).

Definition rs_string_reserve (s : rs_string) (need : Z) : M (Z * rs_string) :=
  rs_string_reserve_ex s need rs_default_alloc.

(** ** Assign / Append *)

Definition rs_string_assign (s : rs_string) (v : rs_sv) : M (Z * rs_string) :=
  let a := rs_default_alloc in
  x <- rs_string_reserve_ex s (sv_len v) a ;;
  let '(e, s) := x in
  if negb (e =? 0) then ret (-1, s) else
  x <- rs__ensure_unique s a ;;
  let '(e, s) := x in
  if negb (e =? 0) then ret (-1, s) else
  buf <- rs_string_cstr s ;;
  buf <- lift (memcpy buf 0 v 0 (sv_len v)) ;;
  buf <- lift (poke buf (sv_len v) x00) ;;
  s <- buf_put s buf ;;
  ret (0, set_len (sv_len v) s).

Definition rs_string_clear (s : rs_string) : M (Z * rs_string) :=
  rs_string_assign s [].

Definition rs_string_append (s : rs_string) (v : rs_sv) : M (Z * rs_string) :=
  let a := rs_default_alloc in
  let need := sz (len s + sv_len v) in
  x <- rs_string_reserve_ex s need a ;;
  let '(e, s) := x in
  if negb (e =? 0) then ret (-1, s) else
  x <- rs__ensure_unique s a ;;
  let '(e, s) := x in
  if negb (e =? 0) then ret (-1, s) else
  buf <- rs_string_cstr s ;;
  buf <- lift (memcpy buf (len s) v 0 (sv_len v)) ;;
  let s := set_len (sz (len s + sv_len v)) s in
  buf <- lift (poke buf (len s) x00) ;;
  s <- buf_put s buf ;;
  ret (0, s).

Definition rs_string_push_cstr (s : rs_string) (c : option (list byte))
  : M (Z * rs_string) :=
  rs_string_append s (rs_sv_from_cstr c).

Definition rs_string_push_char (s : rs_string) (ch : byte) : M (Z * rs_string) :=
  rs_string_append s [ch].

(** ** Insert / Erase *)

Definition rs_string_insert (s : rs_string) (pos : Z) (v : rs_sv)
  : M (Z * rs_string) :=
  let pos := if len s <? pos then len s else pos in
  let a := rs_default_alloc in
  x <- rs_string_reserve_ex s (sz (len s + sv_len v)) a ;;
  let '(e, s) := x in
  if negb (e =? 0) then ret (-1, s) else
  x <- rs__ensure_unique s a ;;
  let '(e, s) := x in
  if negb (e =? 0) then ret (-1, s) else
  buf <- rs_string_cstr s ;;
  buf <- lift (memmove buf (sz (pos + sv_len v)) pos (sz (len s - pos))) ;;
  buf <- lift (memcpy buf pos v 0 (sv_len v)) ;;
  let s := set_len (sz (len s + sv_len v)) s in
  buf <- lift (poke buf (len s) x00) ;;
  s <- buf_put s buf ;;
  ret (0, s).

Definition rs_string_erase (s : rs_string) (pos n : Z) : M (Z * rs_string) :=
  if len s <? pos then ret (0, s) else
  let n := if len s <? sz (pos + n) then sz (len s - pos) else n in
  let a := rs_default_alloc in
  x <- rs__ensure_unique s a ;;
  let '(e, s) := x in
  if negb (e =? 0) then ret (-1, s) else
  buf <- rs_string_cstr s ;;
  buf <- lift (memmove buf pos (sz (pos + n))
                 (sz (sz (len s - sz (pos + n)) + 1))) ;;
  s <- buf_put s buf ;;
  ret (0, set_len (sz (len s - n)) s).

(** ** Find *)

(** The loop [for (i = from; i + what.len <= s->len; ++i)]; [None] is a
    fault or the end of the fuel. *)
Fixpoint find_loop (fuel : nat) (p : list byte) (what : rs_sv) (slen i : Z)
  : option Z :=
  match fuel with
  | O => None
  | S k =>
    if sz (i + sv_len what) <=? slen then
      match memcmp_eq p i what (sv_len what) with
      | Some true => Some i
      | Some false => find_loop k p what slen (sz (i + 1))
      | None => None
      end
    else Some npos
  end.

(** The loop tests at most [s->len + 1] positions before its guard fails. *)
Definition rs_string_find (s : rs_string) (what : rs_sv) (from : Z) : M Z :=
  p <- rs_string_cstr s ;;
  if sv_len what =? 0 then
    ret (if from <=? len s then from else npos)
  else
    lift (find_loop (Z.to_nat (len s) + 2) p what (len s) from).

Definition rs_string_starts_with (s : rs_string) (pfx : rs_sv) : M Z :=
  p <- rs_string_cstr s ;;
  if sv_len pfx <=? len s then
    c <- lift (memcmp_eq p 0 pfx (sv_len pfx)) ;;
    ret (if c : bool then 1 else 0)
  else ret 0.

Definition rs_string_ends_with (s : rs_string) (sfx : rs_sv) : M Z :=
  p <- rs_string_cstr s ;;
  if sv_len sfx <=? len s then
    c <- lift (memcmp_eq p (len s - sv_len sfx) sfx (sv_len sfx)) ;;
    ret (if c : bool then 1 else 0)
  else ret 0.

(** ** Trim *)

(** [while (i < s->len && (unsigned char)p[i] <= 0x20) ++i;] *)
Fixpoint trim_left_loop (fuel : nat) (p : list byte) (slen i : Z) : option Z :=
  match fuel with
  | O => None
  | S k =>
    if i <? slen then
      match peek p i with
      | Some c => if c <=? 32 then trim_left_loop k p slen (sz (i + 1))
                  else Some i
      | None => None
      end
    else Some i
  end.

Definition rs_string_trim_left (s : rs_string) : M (Z * rs_string) :=
  p <- rs_string_cstr s ;;
  i <- lift (trim_left_loop (Z.to_nat (len s) + 1) p (len s) 0) ;;
  if i =? 0 then ret (0, s) else rs_string_erase s 0 i.

(** [while (end > start && (unsigned char)*(end - 1) <= 0x20) --end;] with
    [e] the offset of [end] from [start]. *)
Fixpoint trim_right_loop (fuel : nat) (p : list byte) (e : Z) : option Z :=
  match fuel with
  | O => None
  | S k =>
    if 0 <? e then
      match peek p (e - 1) with
      | Some c => if c <=? 32 then trim_right_loop k p (e - 1) else Some e
      | None => None
      end
    else Some e
  end.

Definition rs_string_trim_right (s : rs_string) : M (Z * rs_string) :=
  if len s =? 0 then ret (0, s) else
  start <- rs_string_cstr s ;;
  e <- lift (trim_right_loop (Z.to_nat (len s) + 1) start (len s)) ;;
  let size := e in
  if size =? len s then ret (0, s)
  else rs_string_erase s size (sz (len s - size)).

Definition rs_string_trim (s : rs_string) : M (Z * rs_string) :=
  x <- rs_string_trim_right s ;;
  let '(_, s) := x in
  rs_string_trim_left s.

(** ** Replace *)

Definition rs_string_replace_first (s : rs_string) (from to : rs_sv)
  : M (Z * rs_string) :=
  pos <- rs_string_find s from 0 ;;
  if pos =? npos then ret (0, s) else
  if sv_len to <=? sv_len from then
    x <- rs_string_erase s pos (sv_len from) ;;
    let '(_, s) := x in
    rs_string_insert s pos to
  else
    let a := rs_default_alloc in
    x <- rs_string_reserve_ex s (sz (len s + sz (sv_len to - sv_len from))) a ;;
    let '(e, s) := x in
    if negb (e =? 0) then ret (-1, s) else
    x <- rs_string_erase s pos (sv_len from) ;;
    let '(_, s) := x in
    rs_string_insert s pos to.

(** [++count] on an [int]. *)
Definition int_incr (count : Z) : M Z :=
  if count <? INT_MAX then ret (count + 1) else fault.

(** One iteration of the loop [while (1)] of [rs_string_replace_all]:
    [inl] when it breaks, [inr] with the new [s], [i] and [count] when it
    goes round. *)
Definition replace_all_iter (s : rs_string) (from to : rs_sv) (i count : Z)
  : M (Z * rs_string + rs_string * Z * Z) :=
  pos <- rs_string_find s from i ;;
  if pos =? npos then ret (inl (count, s)) else
  x <- rs_string_erase s pos (sv_len from) ;;
  let '(_, s) := x in
  x <- rs_string_insert s pos to ;;
  let '(_, s) := x in
  let i := sz (pos + sv_len to) in
  count <- int_incr count ;;
  ret (inr (s, i, count)).

(** The loop; [None] when the fuel ends before the loop does. *)
Fixpoint replace_all_loop (fuel : nat) (s : rs_string) (from to : rs_sv)
    (i count : Z) : M (option (Z * rs_string)) :=
  match fuel with
  | O => ret None
  | S k =>
    x <- replace_all_iter s from to i count ;;
    match x with
    | inl res => ret (Some res)
    | inr (s, i, count) => replace_all_loop k s from to i count
    end
  end.

Definition rs_string_replace_all (fuel : nat) (s : rs_string) (from to : rs_sv)
  : M (option (Z * rs_string)) :=
  if sv_len from =? 0 then ret (Some (0, s)) else
  replace_all_loop fuel s from to 0 0.

(** ** Formatted write *)

(** What [vsnprintf] produces for a format and its arguments: the formatted
    bytes, or [None] when it reports an error.  Its return value is an
    [int]. *)
Definition vsnprintf_ret (out : option (list byte)) : Z :=
  match out with
  | Some o => if zlen o <=? INT_MAX then zlen o else -1
  | None => -1
  end.

(** [vsnprintf (p, n, fmt, ap)] writes at most [n - 1] bytes and a
    terminator. *)
Definition vsnprintf_to (buf : list byte) (n : Z) (o : list byte)
  : option (list byte) :=
  let k := Z.min (zlen o) (n - 1) in
  match memcpy buf 0 o 0 k with
  | Some buf => poke buf k x00
  | None => None
  end.

Definition rs_string_vprintf (s : rs_string) (out : option (list byte))
  : M (Z * rs_string) :=
  let need := vsnprintf_ret out in
  if need <? 0 then ret (-1, s) else
  let a := rs_default_alloc in
  x <- rs_string_reserve_ex s need a ;;
  let '(e, s) := x in
  if negb (e =? 0) then ret (-1, s) else
  x <- rs__ensure_unique s a ;;
  let '(e, s) := x in
  if negb (e =? 0) then ret (-1, s) else
  p <- rs_string_cstr s ;;
  buf <- lift (vsnprintf_to p (need + 1) (default [] out)) ;;
  s <- buf_put s buf ;;
  let wrote := vsnprintf_ret out in
  ret (wrote, if 0 <=? wrote then set_len wrote s else s).

(** ** Split *)

Section Split.
Context {C : Type}.

(** The visitor [cb (token, ctx)] acts on the context it is given. *)
Definition rs_sv_split_cb : Type := rs_sv -> C -> C.

(** The inner loop [for (j = i; j + sep.len <= s.len; ++j)]: the position
    found, or [(size_t)-1]. *)
Fixpoint split_scan (fuel : nat) (s sep : rs_sv) (j : Z) : option Z :=
  match fuel with
  | O => None
  | S k =>
    if sz (j + sv_len sep) <=? sv_len s then
      match memcmp_eq s j sep (sv_len sep) with
      | Some true => Some j
      | Some false => split_scan k s sep (sz (j + 1))
      | None => None
      end
    else Some npos
  end.

(** The loop [while (i <= s.len)]. *)
Fixpoint split_loop (fuel : nat) (s sep : rs_sv) (keep_empty : bool)
    (cb : rs_sv_split_cb) (i : Z) (ctx : C) : option C :=
  match fuel with
  | O => None
  | S k =>
    if i <=? sv_len s then
      match split_scan (length s + 2) s sep i with
      | None => None
      | Some pos =>
        if pos =? npos then
          let tlen := sz (sv_len s - i) in
          Some (if (0 <? tlen) || keep_empty
                then cb (bytes_at s i tlen) ctx else ctx)
        else
          let tlen := sz (pos - i) in
          let ctx := if (0 <? tlen) || keep_empty
                     then cb (bytes_at s i tlen) ctx else ctx in
          let i := sz (pos + sv_len sep) in
          if (i =? sv_len s) && keep_empty
          then Some (cb [] ctx)
          else split_loop k s sep keep_empty cb i ctx
      end
    else Some ctx
  end.

(** [cb] is [None] for a null callback. *)
Definition rs_sv_split (fuel : nat) (s sep : rs_sv) (keep_empty : bool)
    (cb : option rs_sv_split_cb) (ctx : C) : option C :=
  match cb with
  | None => Some ctx
  | Some cb =>
    if sv_len sep =? 0 then
      Some (if (0 <? sv_len s) || keep_empty then cb s ctx else ctx)
    else split_loop fuel s sep keep_empty cb 0 ctx
  end.
End Split.

(** The increment of the [int] the context designates; [None] once an
    increment has overflowed. *)
Definition cb_count : @rs_sv_split_cb (option Z) :=
  fun _ n =>
    match n with
    | Some k => if k <? INT_MAX then Some (k + 1) else None
    | None => None
    end.

(** A visitor that records the tokens in the order of the visits. *)
Definition cb_collect : @rs_sv_split_cb (list rs_sv) := fun t acc => acc ++ [t].

(** * Properties *)

(** ** What a reader of the object sees *)

(** The bytes [rs_string_cstr] and [rs_string_len] show. *)
Definition content (s : rs_string) (h : heap) : option (list byte) :=
  match rs_string_cstr s h with
  | Ok (buf, _) => Some (take (Z.to_nat (len s)) buf)
  | Fault => None
  end.

(** The largest capacity whose block size fits a [size_t]. *)
Definition CAP_MAX : Z := SIZE_MAX - sizeof_hdr - 1.

(** Fresh addresses are not [NULL] and hold no block. *)
Definition heap_ok (h : heap) : Prop :=
  0 < next h /\ forall a, next h <= a -> blocks h !! a = None.

(** A well-formed object: the length is within the capacity, the inline
    buffer has its declared size, and a heap pointer designates a live
    block of the recorded capacity, owned at least once. *)
Inductive wf (h : heap) : rs_string -> Prop :=
| wf_sso l o c b :
    0 <= l <= RS_SSO_CAP ->
    zlen b = RS_SSO_CAP + 1 ->
    wf h (Str l o PSso c b)
| wf_heap l o a c b blk :
    a <> NULL ->
    blocks h !! a = Some blk ->
    hcap blk = c ->
    1 <= hrc blk ->
    zlen (hbuf blk) = c + 1 ->
    0 <= l <= c ->
    c <= CAP_MAX ->
    zlen b = RS_SSO_CAP + 1 ->
    wf h (Str l o (PHeap a) c b).

(** The object is the only owner of its block. *)
Definition unique (h : heap) (s : rs_string) : Prop :=
  match p s with
  | PSso => True
  | PHeap a => exists blk, blocks h !! a = Some blk /\ hrc blk = 1
  | PStale => False
  end.

(** The allocator grants every request. *)
Definition alloc_ok (h : heap) : Prop := forall n, grants h n = true.

(** The next geometric step of the capacity is representable. *)
Definition roomy (s : rs_string) : Prop :=
  rs_string_cap s + rs_string_cap s / 2 + 1 <= CAP_MAX.

(** ** Outcomes of the status-returning operations *)

(** The shape of what an operation returning a status does to a well-formed
    object: it returns, the object stays well formed and stays on the heap
    if it was there; either the status is [0] and [Q] holds, or the status
    is [-1], an allocation was refused, and length and content are those
    from before the call. *)
Definition outcome (h : heap) (s : rs_string)
    (run : result (Z * rs_string * heap))
    (Q : rs_string -> heap -> Prop) : Prop :=
  exists e s' h',
    run = Ok ((e, s'), h') /\
    heap_ok h' /\ wf h' s' /\ grants h' = grants h /\
    (rs_string_is_heap s = true -> rs_string_is_heap s' = true) /\
    ((e = 0 /\ Q s' h') \/
     (e = -1 /\ len s' = len s /\ content s' h' = content s h /\ ~ alloc_ok h)).

(** The capacity [rs_string_reserve_ex] moves to when it has to grow. *)
Definition grown (c need : Z) : Z := Z.max need (c + c / 2 + 1).

(** The capacity after [rs_string_reserve_ex (s, need)]. *)
Definition cap_after (c need : Z) : Z := if need <=? c then c else grown c need.

(** ** Occurrences of a byte sequence *)

(** [what] occurs in [c] at offset [j]. *)
Definition occurs (what c : list byte) (j : Z) : Prop :=
  0 <= j /\ j + zlen what <= zlen c /\ bytes_at c j (zlen what) = what.

(** [r] is the first offset from [i] on at which [what] occurs in [c]. *)
Definition first_at (what c : list byte) (i r : Z) : Prop :=
  i <= r /\ occurs what c r /\ forall j, i <= j < r -> ~ occurs what c j.

(** [what] does not occur in [c] from offset [i] on. *)
Definition absent_from (what c : list byte) (i : Z) : Prop :=
  forall j, i <= j -> ~ occurs what c j.

(** ** Replacement, as the specification words it *)

(** Occurrences of [from] are replaced by [to] from left to right; after a
    replacement the scan resumes behind the occurrence it replaced, so the
    text it put in is never scanned.  [skip] counts the bytes of the
    occurrence still to pass. *)
Fixpoint replaced (from to : list byte) (skip : nat) (c : list byte)
  : list byte :=
  match c with
  | [] => []
  | b :: c' =>
    match skip with
    | S k => replaced from to k c'
    | O => if bool_decide (take (length from) c = from)
           then to ++ replaced from to (length from - 1) c'
           else b :: replaced from to 0 c'
    end
  end.

(** The number of replacements of that scan. *)
Fixpoint replacements (from : list byte) (skip : nat) (c : list byte) : Z :=
  match c with
  | [] => 0
  | b :: c' =>
    match skip with
    | S k => replacements from k c'
    | O => if bool_decide (take (length from) c = from)
           then 1 + replacements from (length from - 1) c'
           else replacements from 0 c'
    end
  end.

(** ** Sizes far from the end of [size_t] *)

(** The sizes the statements about [rs_string_replace_all] cover. *)
Definition LIMIT : Z := 2 ^ 60.
Definition CAP_LIMIT : Z := 2 ^ 62.

(** ** Concrete heaps and objects *)

(** An empty heap whose allocator grants every request. *)
Definition heap0 : heap := Heap ∅ 1 0 (fun _ => true) (fun _ => true).

(** An empty heap whose allocator refuses every request. *)
Definition heap_oom : heap := Heap ∅ 1 0 (fun _ => false) (fun _ => true).

(** Some value of an uninitialised [rs_string]. *)
Definition rs_string_junk : rs_string :=
  Str 7 7 (PHeap 99) 7 (replicate 23 x41).

(** [op] on the string that [rs_string_init (&s)] and
    [rs_string_assign (&s, text)] make in [h]. *)
Definition on_text {A} (h : heap) (text : string) (op : rs_string -> M A)
  : result (A * heap) :=
  (x <- rs_string_assign (rs_string_init rs_string_junk) (bs text) ;;
   op (snd x)) h.

(** What [rs_string_from_val] returns for no text: the fields of the empty
    inline string [rs_string_init] makes of the local [s0], in an object
    whose [p] is not its own inline buffer and designates nothing live. *)
Definition stale_empty (s0 s : rs_string) (h : heap) : Prop :=
  len s = 0 /\ cap s = RS_SSO_CAP /\ rs_string_cap s = RS_SSO_CAP /\
  sso s = <[0%nat := x00]> (sso s0) /\
  rs_string_is_heap s = true /\
  rs_string_cstr s h = Fault /\ content s h = None /\
  rs_string_free s h = Fault.

(** ** Trimming, as the specification words it *)




(** ** Owners of a block *)

#[global] Instance ptr_eq_decision : EqDecision ptr.
Proof. solve_decision. Defined.

(** The number of objects among [objs] whose [p] is the block at [a]. *)
Definition owners (a : Z) (objs : list rs_string) : Z :=
  Z.of_nat (length (filter (fun s => p s = PHeap a) objs)).

(** The reference count of the block at [a]. *)
Definition rc_of (h : heap) (a : Z) : option Z := hrc <$> blocks h !! a.

(** [a = rs_string_from_val (text); rs_string_init (&b);
     rs_string_share (&b, &a)] *)
Definition shared_pair (text : string) : M (list rs_string) :=
  a <- rs_string_from_val rs_string_junk (Some (bs text)) ;;
  rs_string_share 1 0 [a; rs_string_init rs_string_junk].

(** ** Partial correctness and sequences of operations *)

(** [P] holds of whatever [c] returns. *)
Definition post {A} (c : M A) (P : A -> Prop) : Prop :=
  forall h a h', c h = Ok (a, h') -> P a.

(** The object of a status and an object. *)
Definition on_heap (x : Z * rs_string) : Prop := rs_string_is_heap (snd x) = true.

(** The object an iteration of [rs_string_replace_all] leaves. *)
Definition iter_on_heap (x : Z * rs_string + rs_string * Z * Z) : Prop :=
  match x with
  | inl (_, s) => rs_string_is_heap s = true
  | inr (s, _, _) => rs_string_is_heap s = true
  end.

Definition result_on_heap (x : option (Z * rs_string)) : Prop :=
  match x with
  | Some (_, s) => rs_string_is_heap s = true
  | None => True
  end.

(** The operations on an object other than its construction, its release
    and [rs_string_share] (which releases its destination first). *)
Inductive op : Type :=
| Reserve (need : Z)
| EnsureUnique
| Assign (v : rs_sv)
| Clear
| Append (v : rs_sv)
| PushCstr (c : option (list byte))
| PushChar (ch : byte)
| Insert (pos : Z) (v : rs_sv)
| Erase (pos n : Z)
| Find (what : rs_sv) (from : Z)
| StartsWith (pfx : rs_sv)
| EndsWith (sfx : rs_sv)
| TrimLeft
| TrimRight
| Trim
| ReplaceFirst (from to : rs_sv)
| ReplaceAll (fuel : nat) (from to : rs_sv)
| Vprintf (out : option (list byte)).

(** The object after the operation; a call of [rs_string_replace_all] that
    has not returned when its fuel ends yields no object. *)
Definition exec (o : op) (s : rs_string) : M rs_string :=
  match o with
  | Reserve need => x <- rs_string_reserve s need ;; ret (snd x)
  | EnsureUnique => x <- rs__ensure_unique s rs_default_alloc ;; ret (snd x)
  | Assign v => x <- rs_string_assign s v ;; ret (snd x)
  | Clear => x <- rs_string_clear s ;; ret (snd x)
  | Append v => x <- rs_string_append s v ;; ret (snd x)
  | PushCstr c => x <- rs_string_push_cstr s c ;; ret (snd x)
  | PushChar ch => x <- rs_string_push_char s ch ;; ret (snd x)
  | Insert pos v => x <- rs_string_insert s pos v ;; ret (snd x)
  | Erase pos n => x <- rs_string_erase s pos n ;; ret (snd x)
  | Find what from => rs_string_find s what from ;;; ret s
  | StartsWith pfx => rs_string_starts_with s pfx ;;; ret s
  | EndsWith sfx => rs_string_ends_with s sfx ;;; ret s
  | TrimLeft => x <- rs_string_trim_left s ;; ret (snd x)
  | TrimRight => x <- rs_string_trim_right s ;; ret (snd x)
  | Trim => x <- rs_string_trim s ;; ret (snd x)
  | ReplaceFirst from to => x <- rs_string_replace_first s from to ;; ret (snd x)
  | ReplaceAll fuel from to =>
    x <- rs_string_replace_all fuel s from to ;;
    match x with Some (_, s) => ret s | None => fault end
  | Vprintf out => x <- rs_string_vprintf s out ;; ret (snd x)
  end.

Fixpoint exec_all (os : list op) (s : rs_string) : M rs_string :=
  match os with
  | [] => ret s
  | o :: os => s <- exec o s ;; exec_all os s
  end.

(** The object and the heap [rs_string_from_val] makes of a string of
    thirty bytes. *)
Definition long_string : rs_string :=
  Str 30 0 (PHeap 1) 30 (x00 :: replicate 22 x41).
Definition long_heap : heap :=
  Heap {[ 1 := Hdr 30 1 (bs "data is longer than twenty-two" ++ [x00]) ]}
       2 1 (fun _ => true) (fun _ => true).

(** ** Splitting, as the specification words it *)

(** The pieces of [c] between the occurrences of [sep], found from left to
    right without overlap; [cur] is the piece being read, [skip] counts the
    bytes of the separator still to pass.  A separator at the very end
    leaves an empty last piece. *)
Fixpoint pieces (sep : list byte) (skip : nat) (cur c : list byte)
  : list (list byte) :=
  match c with
  | [] => [cur]
  | b :: c' =>
    match skip with
    | S k => pieces sep k cur c'
    | O => if bool_decide (take (length sep) c = sep)
           then cur :: pieces sep (length sep - 1) [] c'
           else pieces sep 0 (cur ++ [b]) c'
    end
  end.

Definition nonempty (t : list byte) : bool :=
  match t with [] => false | _ => true end.

(** The tokens [rs_sv_split] is to visit, in order. *)
Definition tokens (sep : list byte) (keep_empty : bool) (s : list byte)
  : list (list byte) :=
  match sep with
  | [] => if nonempty s || keep_empty then [s] else []
  | _ => if keep_empty then pieces sep 0 [] s
         else filter (fun t => nonempty t = true) (pieces sep 0 [] s)
  end.

(** The visits of a list of tokens, in order. *)
Definition visit {C} (cb : rs_sv -> C -> C) (toks : list (list byte)) (ctx : C)
  : C :=
  fold_left (fun a t => cb t a) toks ctx.

Definition kept (keep_empty : bool) (toks : list (list byte))
  : list (list byte) :=
  if keep_empty then toks else filter (fun t => nonempty t = true) toks.

(** ** A shared block and a refusing allocator *)

(** [rs_string_replace_all] does not look at what [rs_string_erase] and
    [rs_string_insert] return.  A string that shares its block, with an
    allocator that refuses every request: the occurrence is neither erased
    nor replaced, and with an empty [to] the cursor stays where it is. *)
Definition shared_a : rs_string := Str 1 0 (PHeap 1) 1 (replicate 23 x00).
Definition refusing_heap (t : nat) : heap :=
  Heap {[ 1 := Hdr 1 2 [x61; x00] ]} 2 t (fun _ => false) (fun _ => true).



(** A status: [0], or [-1]. *)
Definition status (x : Z * rs_string) : Prop := fst x = 0 \/ fst x = -1.

(** ** Sub-views *)

(** [rs_sv_substr (s, pos, n)]: the view it returns, given by the offset of
    its [data] from [s.data] and by its [len]. *)
Definition rs_sv_substr (s : rs_sv) (pos n : Z) : Z * Z :=
  let pos := if sv_len s <? pos then sv_len s else pos in
  let n := if sv_len s <? sz (pos + n) then sz (sv_len s - pos) else n in
  (pos, n).

(** ** ASCII and UTF-16 *)

(** [malloc (n)] of an array of bytes that is handed to the caller; [None]
    is [NULL].  The bytes are indeterminate (zero here). *)
Definition malloc_bytes (n : Z) : M (option (list byte)) :=
  fun h => if grants h (tick h)
           then Ok (Some (replicate (Z.to_nat n) x00), asked h)
           else Ok (None, asked h).

(** The loop [for (i = 0; i < ascii.len; ++i)] of
    [rs_utf16_from_ascii_bytes]: two writes [buf[o++] = ...] for each byte. *)
Fixpoint utf16_put_units (little_endian : bool) (ascii : list byte)
    (buf : list byte) (o : Z) : option (list byte * Z) :=
  match ascii with
  | [] => Some (buf, o)
  | ch :: rest =>
    match poke buf o (if little_endian then ch else x00) with
    | None => None
    | Some buf =>
      match poke buf (sz (o + 1)) (if little_endian then x00 else ch) with
      | None => None
      | Some buf => utf16_put_units little_endian rest buf (sz (o + 2))
      end
    end
  end.

(** The byte order mark, when one is asked for. *)
Definition utf16_put_bom (little_endian write_bom : bool) (buf : list byte)
  : option (list byte * Z) :=
  if write_bom then
    match poke buf 0 (if little_endian then xff else xfe) with
    | None => None
    | Some buf =>
      match poke buf 1 (if little_endian then xfe else xff) with
      | None => None
      | Some buf => Some (buf, 2)
      end
    end
  else Some (buf, 0).

(** The status, and on success [*out_bytes] and the value written to
    [*out_len] when the caller passes one.  The two flags are [int]s used as
    truth values; the allocator argument is not used. *)
Definition rs_utf16_from_ascii_bytes (ascii : rs_sv)
    (little_endian write_bom : bool) : M (Z * option (list byte * Z)) :=
  let bom := if write_bom then 2 else 0 in
  let units := sz (sv_len ascii + 1) in
  let total := sz (bom + sz (units * 2)) in
  buf <- malloc_bytes total ;;
  match buf with
  | None => ret (-1, None)
  | Some buf =>
    x <- lift (utf16_put_bom little_endian write_bom buf) ;;
    let '(buf, o) := x in
    x <- lift (utf16_put_units little_endian ascii buf o) ;;
    let '(buf, o) := x in
    buf <- lift (poke buf o x00) ;;
    buf <- lift (poke buf (sz (o + 1)) x00) ;;
    ret (0, Some (buf, total))
  end.

(** [(uint8_t)code] for a code of at most [0x7F]. *)
Definition byte_of_code (code : Z) : byte :=
  default x00 (Byte.of_N (Z.to_N code)).

(** The byte order and the first index: a byte order mark overrides the
    default. *)
Definition utf16_order (u16 : rs_sv) (default_little_endian : bool)
  : option (bool * Z) :=
  if 2 <=? sv_len u16 then
    match peek u16 0, peek u16 1 with
    | Some b0, Some b1 =>
      if (b0 =? 255) && (b1 =? 254) then Some (true, 2)
      else if (b0 =? 254) && (b1 =? 255) then Some (false, 2)
      else Some (default_little_endian, 0)
    | _, _ => None
    end
  else Some (default_little_endian, 0).

(** The loop [for (; i + 1 < u16.len; i += 2)]; what [rs_string_push_char]
    returns is not looked at.  [None] when the fuel ends before the loop
    does. *)
Fixpoint ascii_from_utf16_loop (fuel : nat) (out : rs_string) (u16 : rs_sv)
    (little : bool) (replace : byte) (i : Z) : M (option rs_string) :=
  match fuel with
  | O => ret None
  | S k =>
    if sz (i + 1) <? sv_len u16 then
      b0 <- lift (peek u16 i) ;;
      b1 <- lift (peek u16 (i + 1)) ;;
      let code := if little then Z.lor b0 (Z.shiftl b1 8)
                  else Z.lor (Z.shiftl b0 8) b1 in
      if code =? 0 then ret (Some out) else
      let out_u8 := if code <=? 127 then byte_of_code code else replace in
      x <- rs_string_push_char out out_u8 ;;
      let '(_, out) := x in
      ascii_from_utf16_loop k out u16 little replace (sz (i + 2))
    else ret (Some out)
  end.

Definition rs_ascii_from_utf16_bytes (fuel : nat) (out : rs_string)
    (u16 : rs_sv) (default_little_endian : bool) (replace : byte)
  : M (option (Z * rs_string)) :=
  x <- lift (utf16_order u16 default_little_endian) ;;
  let '(little, i) := x in
  x <- rs_string_clear out ;;
  let '(_, out) := x in
  r <- ascii_from_utf16_loop fuel out u16 little replace i ;;
  match r with
  | Some out => ret (Some (0, out))
  | None => ret None
  end.

(** ** The conversions that copy *)

Definition rs_utf8_from_utf16_bytes (out : rs_string) (utf16_bytes : rs_sv)
    (default_little_endian : bool) : M (Z * rs_string) :=
  rs_string_assign out utf16_bytes.

Definition rs_utf8_from_utf32_bytes (out : rs_string) (utf32_bytes : rs_sv)
    (default_little_endian : bool) : M (Z * rs_string) :=
  rs_string_assign out utf32_bytes.

(** The allocator argument and the two flags are not used. *)
Definition rs_utf16_from_utf8_bytes (utf8 : rs_sv)
    (little_endian write_bom : bool) : M (Z * option (list byte * Z)) :=
  b <- malloc_bytes (sz (sv_len utf8 + 2)) ;;
  match b with
  | None => ret (-1, None)
  | Some buf =>
    buf <- lift (memcpy buf 0 utf8 0 (sv_len utf8)) ;;
    buf <- lift (poke buf (sv_len utf8) x00) ;;
    buf <- lift (poke buf (sz (sv_len utf8 + 1)) x00) ;;
    ret (0, Some (buf, sz (sv_len utf8 + 2)))
  end.

Definition rs_utf32_from_utf8_bytes (utf8 : rs_sv)
    (little_endian write_bom : bool) : M (Z * option (list byte * Z)) :=
  b <- malloc_bytes (sz (sv_len utf8 + 4)) ;;
  match b with
  | None => ret (-1, None)
  | Some buf =>
    buf <- lift (memcpy buf 0 utf8 0 (sv_len utf8)) ;;
    buf <- lift (poke buf (sv_len utf8) x00) ;;
    buf <- lift (poke buf (sz (sv_len utf8 + 1)) x00) ;;
    buf <- lift (poke buf (sz (sv_len utf8 + 2)) x00) ;;
    buf <- lift (poke buf (sz (sv_len utf8 + 3)) x00) ;;
    ret (0, Some (buf, sz (sv_len utf8 + 4)))
  end.

(** ** What the further properties speak of *)

(** The UTF-16 code units of ASCII bytes, with an optional byte order mark
    and the terminating unit. *)
Definition utf16_unit (little_endian : bool) (ch : byte) : list byte :=
  if little_endian then [ch; x00] else [x00; ch].

Definition utf16_bytes (little_endian write_bom : bool) (ascii : list byte)
  : list byte :=
  (if write_bom then (if little_endian then [xff; xfe] else [xfe; xff]) else [])
    ++ flat_map (utf16_unit little_endian) ascii ++ [x00; x00].

(** A byte of ASCII other than the terminator. *)
Definition is_ascii (b : byte) : bool :=
  let v := Z.of_N (Byte.to_N b) in (0 <? v) && (v <=? 127).

(** The tokens of a split put together again around the separator. *)
Fixpoint join (sep : list byte) (toks : list (list byte)) : list byte :=
  match toks with
  | [] => []
  | t :: ts =>
    match ts with
    | [] => t
    | _ => t ++ sep ++ join sep ts
    end
  end.

(** [Q] holds of what [c] returns from [h] and of the heap it leaves. *)
Definition holds {A} (c : M A) (h : heap) (Q : A -> heap -> Prop) : Prop :=
  forall a h', c h = Ok (a, h') -> Q a h'.

(** The block at [x] is live and holds the bytes [buf]. *)
Definition block_kept (x : Z) (buf : list byte) (h : heap) : Prop :=
  x <> NULL /\ x < next h /\
  exists blk, blocks h !! x = Some blk /\ hbuf blk = buf.

(** [s] does not write to the block at [x]: it designates another buffer,
    or the block has other owners as well. *)
Definition apart (x : Z) (s : rs_string) (h : heap) : Prop :=
  p s = PHeap x -> exists blk, blocks h !! x = Some blk /\ hrc blk <> 1.

(** Reading leaves the heap as it is. *)
Definition reads {A} (c : M A) : Prop :=
  forall h, holds c h (fun _ h' => h' = h).

(** The block at [x] holds [buf] and is, header and bytes, the block it was
    in [h0]. *)
Definition same_block (x : Z) (buf : list byte) (h0 h : heap) : Prop :=
  block_kept x buf h /\ blocks h !! x = blocks h0 !! x.

(** What the operations on an object keep of a block it must not write to,
    stated of the status and the object they return, of what an iteration of
    [rs_string_replace_all] returns, and of what the loop returns. *)
Definition safe (x : Z) (buf : list byte) (r : Z * rs_string) (h : heap)
  : Prop :=
  block_kept x buf h /\ apart x (snd r) h.

Definition iter_safe (x : Z) (buf : list byte)
    (r : Z * rs_string + rs_string * Z * Z) (h : heap) : Prop :=
  block_kept x buf h /\
  match r with
  | inl (_, s) => apart x s h
  | inr (s, _, _) => apart x s h
  end.

Definition result_safe (x : Z) (buf : list byte)
    (r : option (Z * rs_string)) (h : heap) : Prop :=
  block_kept x buf h /\
  match r with
  | Some (_, s) => apart x s h
  | None => True
  end.

(** The buffer [rs_string_cstr] designates holds the terminator at index
    [len]: it is a C string of [len] bytes (when none of them is zero). *)
Definition terminated (s : rs_string) (h : heap) : Prop :=
  exists buf, rs_string_cstr s h = Ok (buf, h) /\
              buf !! Z.to_nat (len s) = Some x00.

(** A status [0] comes with a terminated string. *)
Definition done_terminated (r : Z * rs_string) (h : heap) : Prop :=
  fst r = 0 -> terminated (snd r) h.

(** An inline string of three bytes, and the empty inline string. *)
Definition abc_string : rs_string :=
  Str 3 0 PSso RS_SSO_CAP (bs "abc" ++ replicate 20 x00).
Definition empty_string : rs_string := rs_string_init rs_string_junk.

(** Two owners of the block of [long_heap], as [rs_string_share] leaves
    them. *)
Definition shared_heap : heap :=
  Heap {[ 1 := Hdr 30 3 (bs "data is longer than twenty-two" ++ [x00]) ]}
       2 1 (fun _ => true) (fun _ => true).

(** * Lemmas and theorems *)

(** ** Arithmetic *)

Lemma sz_small x : 0 <= x <= SIZE_MAX -> sz x = x.
Proof. unfold sz, SIZE_MAX. intros. apply Z.mod_small. lia. Qed.

Lemma SIZE_MAX_eq : SIZE_MAX = 18446744073709551615.
Proof. reflexivity. Qed.

Lemma CAP_MAX_eq : CAP_MAX = 18446744073709551598.
Proof. reflexivity. Qed.

Lemma INT_MAX_eq : INT_MAX = 2147483647.
Proof. reflexivity. Qed.

Lemma npos_eq : npos = 18446744073709551615.
Proof. reflexivity. Qed.

(** Linear arithmetic with the constants of the program. *)
Ltac zc :=
  rewrite ?CAP_MAX_eq, ?SIZE_MAX_eq, ?INT_MAX_eq, ?npos_eq in *;
  unfold RS_SSO_CAP, sizeof_hdr, zlen in *.
Ltac zlia := zc; lia.

Ltac sz_simpl :=
  repeat match goal with
         | |- context [sz ?x] => rewrite (sz_small x) by zlia
         end.

(** Deciding the comparisons of a run from the hypotheses. *)
Ltac zb :=
  repeat match goal with
         | |- context [?x =? ?y] =>
           first [ rewrite (proj2 (Z.eqb_eq x y)) by zlia
                 | rewrite (proj2 (Z.eqb_neq x y)) by zlia ]
         | |- context [?x <=? ?y] =>
           first [ rewrite (proj2 (Z.leb_le x y)) by zlia
                 | rewrite (proj2 (Z.leb_gt x y)) by zlia ]
         | |- context [?x <? ?y] =>
           first [ rewrite (proj2 (Z.ltb_lt x y)) by zlia
                 | rewrite (proj2 (Z.ltb_ge x y)) by zlia ]
         end.

(** ** Lists seen through their lookups *)

Lemma lookup_take_dec {A} (l : list A) (n i : nat) :
  take n l !! i = if decide (i < n)%nat then l !! i else None.
Proof.
  case_decide.
  - by apply lookup_take_lt.
  - apply lookup_take_ge. lia.
Qed.

Lemma lookup_app_dec {A} (l1 l2 : list A) (i : nat) :
  (l1 ++ l2) !! i =
  if decide (i < length l1)%nat then l1 !! i else l2 !! (i - length l1)%nat.
Proof.
  case_decide.
  - by apply lookup_app_l.
  - apply lookup_app_r. lia.
Qed.

Lemma lookup_insert_dec {A} (l : list A) (j i : nat) (x : A) :
  <[j := x]> l !! i =
  if decide (i = j /\ (j < length l)%nat) then Some x else l !! i.
Proof.
  case_decide as H.
  - destruct H as [-> H]. by apply list_lookup_insert_eq.
  - destruct (decide (i = j)) as [->|].
    + rewrite list_insert_ge; [done | lia].
    + by apply list_lookup_insert_ne.
Qed.

Lemma lookup_replicate_dec {A} (n i : nat) (x : A) :
  replicate n x !! i = if decide (i < n)%nat then Some x else None.
Proof.
  case_decide.
  - by apply lookup_replicate_2.
  - apply lookup_ge_None. rewrite length_replicate. lia.
Qed.

Lemma lookup_resize_dec {A} (l : list A) (n i : nat) (x : A) :
  resize n x l !! i =
  if decide (i < n)%nat
  then (if decide (i < length l)%nat then l !! i else Some x)
  else None.
Proof.
  repeat case_decide.
  - by apply lookup_resize.
  - apply lookup_resize_new; lia.
  - apply lookup_ge_None. rewrite length_resize. lia.
Qed.

Lemma in_range_true off n l :
  0 <= off -> 0 <= n -> off + n <= zlen l -> in_range off n l = true.
Proof.
  unfold in_range. intros.
  repeat (apply andb_true_intro; split); lia.
Qed.

Create Rewrite HintDb lens.
#[global] Hint Rewrite @length_app @length_take @length_drop @length_insert
  @length_replicate @length_resize @length_cons @length_nil : lens.

Ltac len_norm := unfold zlen in *; autorewrite with lens in *.

Ltac lk_norm :=
  repeat (rewrite ?lookup_take_dec, ?lookup_app_dec, ?lookup_drop,
            ?lookup_insert_dec, ?lookup_replicate_dec, ?lookup_resize_dec;
          len_norm).

(** Equality of two lists of buffer segments, position by position. *)
Ltac lk_solve :=
  lk_norm;
  repeat case_decide; try lia; try done;
  try (f_equal; lia);
  try (symmetry; apply lookup_ge_None; len_norm; lia);
  try (apply lookup_ge_None; len_norm; lia).

(** Side conditions on ranges. *)
Ltac rng := unfold bytes_at; len_norm; zlia.

(** ** Buffer primitives *)

Lemma memcpy_some (dst : list byte) (doff : Z) (src : list byte) (soff n : Z) :
  0 <= doff -> 0 <= soff -> 0 <= n ->
  doff + n <= zlen dst -> soff + n <= zlen src ->
  exists res,
    memcpy dst doff src soff n = Some res /\
    zlen res = zlen dst /\
    forall i : nat,
      res !! i =
      if decide (Z.to_nat doff <= i < Z.to_nat (doff + n))%nat
      then src !! (i - Z.to_nat doff + Z.to_nat soff)%nat
      else dst !! i.
Proof.
  intros. unfold memcpy. rewrite !in_range_true by lia. simpl.
  eexists. split; [done|]. unfold bytes_at. split.
  - rng.
  - intros i. lk_solve.
Qed.

Lemma poke_some (buf : list byte) (i : Z) (b : byte) :
  0 <= i < zlen buf ->
  exists res,
    poke buf i b = Some res /\
    zlen res = zlen buf /\
    forall j : nat,
      res !! j = if decide (j = Z.to_nat i) then Some b else buf !! j.
Proof.
  intros. unfold poke. rewrite in_range_true by lia.
  eexists. split; [done|]. split.
  - rng.
  - intros j. lk_solve.
Qed.

(** ** Buffer updates of the mutating operations *)

(** [rs_string_erase]: the tail and the terminator move left. *)
Lemma erase_buf (buf : list byte) (l pos n : Z) :
  0 <= pos -> 0 <= n -> pos + n <= l -> l < zlen buf ->
  exists buf',
    memmove buf pos (pos + n) (l - (pos + n) + 1) = Some buf' /\
    zlen buf' = zlen buf /\
    take (Z.to_nat (l - n)) buf' =
      take (Z.to_nat pos) (take (Z.to_nat l) buf)
        ++ drop (Z.to_nat (pos + n)) (take (Z.to_nat l) buf).
Proof.
  intros. unfold memmove.
  destruct (memcpy_some buf pos buf (pos + n) (l - (pos + n) + 1))
    as (b1 & -> & L1 & K1); [lia..|].
  eexists. split; [done|]. split; [done|].
  apply list_eq. intros i. lk_norm. rewrite K1. lk_solve.
Qed.

(** [rs_string_insert]: the tail moves right, the view is copied in, the
    terminator is written. *)
Lemma insert_buf (buf v : list byte) (l pos : Z) :
  0 <= pos <= l -> l + zlen v < zlen buf ->
  exists b1 b2 b3,
    memmove buf (pos + zlen v) pos (l - pos) = Some b1 /\
    memcpy b1 pos v 0 (zlen v) = Some b2 /\
    poke b2 (l + zlen v) x00 = Some b3 /\
    zlen b3 = zlen buf /\
    take (Z.to_nat (l + zlen v)) b3 =
      take (Z.to_nat pos) (take (Z.to_nat l) buf) ++ v
        ++ drop (Z.to_nat pos) (take (Z.to_nat l) buf).
Proof.
  intros. unfold memmove.
  assert (0 <= zlen v) by (unfold zlen; lia).
  destruct (memcpy_some buf (pos + zlen v) buf pos (l - pos))
    as (b1 & E1 & L1 & K1); [lia..|].
  destruct (memcpy_some b1 pos v 0 (zlen v)) as (b2 & E2 & L2 & K2); [lia..|].
  destruct (poke_some b2 (l + zlen v) x00) as (b3 & E3 & L3 & K3); [lia|].
  exists b1, b2, b3. do 3 (split; [done|]). split; [lia|].
  apply list_eq. intros i. lk_norm. rewrite K3, K2, K1. lk_solve.
Qed.

(** [rs_string_assign] *)
Lemma assign_buf (buf v : list byte) :
  zlen v < zlen buf ->
  exists b1 b2,
    memcpy buf 0 v 0 (zlen v) = Some b1 /\
    poke b1 (zlen v) x00 = Some b2 /\
    zlen b2 = zlen buf /\
    take (Z.to_nat (zlen v)) b2 = v.
Proof.
  intros.
  assert (0 <= zlen v) by (unfold zlen; lia).
  destruct (memcpy_some buf 0 v 0 (zlen v)) as (b1 & E1 & L1 & K1); [lia..|].
  destruct (poke_some b1 (zlen v) x00) as (b2 & E2 & L2 & K2); [lia|].
  exists b1, b2. do 2 (split; [done|]). split; [lia|].
  apply list_eq. intros i. lk_norm. rewrite K2, K1. lk_solve.
Qed.

(** [rs_string_append] *)
Lemma append_buf (buf v : list byte) (l : Z) :
  0 <= l -> l + zlen v < zlen buf ->
  exists b1 b2,
    memcpy buf l v 0 (zlen v) = Some b1 /\
    poke b1 (l + zlen v) x00 = Some b2 /\
    zlen b2 = zlen buf /\
    take (Z.to_nat (l + zlen v)) b2 = take (Z.to_nat l) buf ++ v.
Proof.
  intros.
  assert (0 <= zlen v) by (unfold zlen; lia).
  destruct (memcpy_some buf l v 0 (zlen v)) as (b1 & E1 & L1 & K1); [lia..|].
  destruct (poke_some b1 (l + zlen v) x00) as (b2 & E2 & L2 & K2); [lia|].
  exists b1, b2. do 2 (split; [done|]). split; [lia|].
  apply list_eq. intros i. lk_norm. rewrite K2, K1. lk_solve.
Qed.

(** Copying the content and its terminator into a fresh buffer. *)
Lemma copy_buf (old src : list byte) (l : Z) :
  0 <= l -> l < zlen old -> l < zlen src ->
  exists b,
    memcpy old 0 src 0 (l + 1) = Some b /\
    zlen b = zlen old /\
    take (Z.to_nat l) b = take (Z.to_nat l) src.
Proof.
  intros.
  destruct (memcpy_some old 0 src 0 (l + 1)) as (b1 & -> & L1 & K1); [lia..|].
  eexists. split; [done|]. split; [lia|].
  apply list_eq. intros i. lk_norm. rewrite K1. lk_solve.
Qed.

(** [realloc] to a larger size keeps the content. *)
Lemma resize_buf (buf : list byte) (l : Z) (n : nat) :
  0 <= l -> l < zlen buf -> l < Z.of_nat n ->
  take (Z.to_nat l) (resize n x00 buf) = take (Z.to_nat l) buf.
Proof.
  intros. apply list_eq. intros i. lk_solve.
Qed.

(** ** Running the primitives of the heap *)

Lemma load_hdr_run a b h :
  a <> NULL -> blocks h !! a = Some b -> load_hdr a h = Ok (b, h).
Proof.
  intros Ha Hb. unfold load_hdr. rewrite Hb.
  destruct (Z.eqb_spec a NULL); [done|done].
Qed.

Lemma store_hdr_run a b b0 h :
  a <> NULL -> blocks h !! a = Some b0 ->
  store_hdr a b h = Ok (tt, set_blocks (<[a := b]> (blocks h)) h).
Proof.
  intros Ha Hb. unfold store_hdr. rewrite Hb.
  destruct (Z.eqb_spec a NULL); [done|done].
Qed.

Section Block.
Variables (a : Z) (b : rs__hdr) (h : heap).
Hypothesis Ha : a <> NULL.
Hypothesis Hb : blocks h !! a = Some b.

Lemma rs__rc_get_run : rs__rc_get a h = Ok (hrc b, h).
Proof. unfold rs__rc_get, bind. by rewrite (load_hdr_run a b h). Qed.

Lemma hdr_get_cap_run : hdr_get_cap a h = Ok (hcap b, h).
Proof. unfold hdr_get_cap, bind. by rewrite (load_hdr_run a b h). Qed.

Lemma buf_load_run : buf_load a h = Ok (hbuf b, h).
Proof. unfold buf_load, bind. by rewrite (load_hdr_run a b h). Qed.

Lemma hdr_set_cap_run v :
  hdr_set_cap a v h =
  Ok (tt, set_blocks (<[a := Hdr v (hrc b) (hbuf b)]> (blocks h)) h).
Proof.
  unfold hdr_set_cap, bind. rewrite (load_hdr_run a b h) by done.
  by apply store_hdr_run with b.
Qed.

Lemma hdr_set_rc_run v :
  hdr_set_rc a v h =
  Ok (tt, set_blocks (<[a := Hdr (hcap b) v (hbuf b)]> (blocks h)) h).
Proof.
  unfold hdr_set_rc, bind. rewrite (load_hdr_run a b h) by done.
  by apply store_hdr_run with b.
Qed.

Lemma buf_store_run buf :
  buf_store a buf h =
  Ok (tt, set_blocks (<[a := Hdr (hcap b) (hrc b) buf]> (blocks h)) h).
Proof.
  unfold buf_store, bind. rewrite (load_hdr_run a b h) by done.
  by apply store_hdr_run with b.
Qed.

Lemma rs__rc_inc_run :
  rs__rc_inc a h =
  Ok (sz (hrc b + 1),
      set_blocks (<[a := Hdr (hcap b) (sz (hrc b + 1)) (hbuf b)]> (blocks h)) h).
Proof.
  unfold rs__rc_inc, bind. rewrite (load_hdr_run a b h) by done.
  by rewrite (store_hdr_run a _ b h).
Qed.

Lemma rs__rc_dec_run :
  rs__rc_dec a h =
  Ok (sz (hrc b - 1),
      set_blocks (<[a := Hdr (hcap b) (sz (hrc b - 1)) (hbuf b)]> (blocks h)) h).
Proof.
  unfold rs__rc_dec, bind. rewrite (load_hdr_run a b h) by done.
  by rewrite (store_hdr_run a _ b h).
Qed.
End Block.


(** Heaps and objects in constructor form. *)
Ltac hsimpl :=
  unfold set_blocks, took, asked, set_cap, set_p, set_len, set_sso, set_off in *;
  cbn [blocks next tick grants moves set_blocks took asked hcap hrc hbuf
       heap_addr p len cap sso off set_cap set_p set_len set_sso set_off
       rs_string_is_heap negb fst snd m r f rs_default_alloc] in *;
  rewrite ?insert_insert_eq.

Ltac hlook :=
  hsimpl;
  repeat first [ rewrite lookup_insert_eq
               | rewrite lookup_insert_ne by zlia
               | rewrite lookup_delete_ne by zlia ];
  first [ eassumption | reflexivity ].

(** One primitive step of a run. *)
Ltac mprim :=
  first
    [ erewrite rs__rc_get_run by first [zlia | hlook]
    | erewrite hdr_get_cap_run by first [zlia | hlook]
    | erewrite buf_load_run by first [zlia | hlook]
    | erewrite hdr_set_cap_run by first [zlia | hlook]
    | erewrite hdr_set_rc_run by first [zlia | hlook]
    | erewrite buf_store_run by first [zlia | hlook]
    | erewrite rs__rc_inc_run by first [zlia | hlook]
    | erewrite rs__rc_dec_run by first [zlia | hlook] ].

Ltac mstep := hsimpl; unfold bind at 1; mprim; hsimpl.

Lemma wf_cstr h s :
  wf h s ->
  exists buf, rs_string_cstr s h = Ok (buf, h) /\
              zlen buf = rs_string_cap s + 1 /\
              0 <= len s <= rs_string_cap s /\ rs_string_cap s <= CAP_MAX.
Proof.
  destruct 1; unfold rs_string_cstr, rs_string_cap; simpl.
  - eexists. split; [done|]. zlia.
  - exists (hbuf blk). rewrite (buf_load_run a blk) by done. subst. done.
Qed.

Lemma content_heap h l o a c b blk :
  a <> NULL -> blocks h !! a = Some blk ->
  content (Str l o (PHeap a) c b) h = Some (take (Z.to_nat l) (hbuf blk)).
Proof.
  intros. unfold content, rs_string_cstr. simpl.
  by rewrite (buf_load_run a blk).
Qed.

Lemma content_sso h l o c b :
  content (Str l o PSso c b) h = Some (take (Z.to_nat l) b).
Proof. done. Qed.

(** Well-formedness and content depend on the blocks only. *)
Lemma wf_blocks h h' s : blocks h' = blocks h -> wf h s -> wf h' s.
Proof.
  intros E W. destruct W.
  - by constructor.
  - econstructor; try eassumption. by rewrite E.
Qed.

Lemma content_blocks h h' s : blocks h' = blocks h -> content s h' = content s h.
Proof.
  intros E. unfold content, rs_string_cstr.
  destruct (p s); [done| |done].
  unfold buf_load, bind, load_hdr. rewrite E.
  destruct (a =? 0); [done|]. by destruct (blocks h !! a).
Qed.

Lemma wf_below h s a :
  heap_ok h -> wf h s -> p s = PHeap a -> 0 <> a /\ a < next h.
Proof.
  intros [Hn Hfresh] W E. destruct W; simpl in E; [done|].
  injection E as ->. split; [done|].
  destruct (Z.lt_ge_cases a (next h)) as [|Hge]; [done|].
  rewrite (Hfresh a Hge) in H0. done.
Qed.

(** ** Outcomes *)

Lemma alloc_ok_grants h h' : grants h' = grants h -> alloc_ok h -> alloc_ok h'.
Proof. unfold alloc_ok. by intros ->. Qed.

(** With an allocator that grants every request the status is [0]. *)
Lemma outcome_ok h s run Q :
  alloc_ok h -> outcome h s run Q ->
  exists s' h', run = Ok ((0, s'), h') /\
                heap_ok h' /\ wf h' s' /\ alloc_ok h' /\
                (rs_string_is_heap s = true -> rs_string_is_heap s' = true) /\
                Q s' h'.
Proof.
  intros A (e & s' & h' & E & Hh & W & G & Hp & [[-> HQ] | (_ & _ & _ & N)]).
  - exists s', h'. split_and!; try done. by apply (alloc_ok_grants h).
  - done.
Qed.

(** ** Exclusive ownership *)

Lemma ensure_unique_spec h s :
  heap_ok h -> wf h s ->
  outcome h s (rs__ensure_unique s rs_default_alloc h)
    (fun s' h' =>
       len s' = len s /\ rs_string_cap s' = rs_string_cap s /\
       rs_string_is_heap s' = rs_string_is_heap s /\
       content s' h' = content s h /\ unique h' s').
Proof.
  intros Hh W. pose proof Hh as [Hn Hfresh].
  destruct W as [l o c b Hl Hb | l o a c b blk Ha Hblk Hc Hrc Hbuf Hl Hcm Hb].
  - exists 0, (Str l o PSso c b), h. unfold rs__ensure_unique. simpl.
    split_and!; try done; [by constructor | by left].
  - destruct (Z.eqb_spec (hrc blk) 1) as [E1|E1].
    { exists 0, (Str l o (PHeap a) c b), h. split.
      { unfold rs__ensure_unique. mstep. by zb. }
      split_and!; try done; [by econstructor|].
      left. split_and!; try done. by exists blk. }
    assert (a < next h).
    { destruct (Z.lt_ge_cases a (next h)); [done|].
      rewrite Hfresh in Hblk; [done|lia]. }
    subst c.
    assert (Z.to_nat (sz (sizeof_hdr + hcap blk + 1) - sizeof_hdr)
            = Z.to_nat (hcap blk + 1)) as Esz.
    { sz_simpl. zlia. }
    destruct (copy_buf (replicate (Z.to_nat (hcap blk + 1)) x00) (hbuf blk) l)
      as (nb & E & Lnb & Knb); [rng..|].
    destruct (grants h (tick h)) eqn:G.
    + eexists _, _, _. split.
      { unfold rs__ensure_unique. mstep. zb.
        mstep. unfold bind at 1. hsimpl. unfold rs__sys_malloc. rewrite G, Esz.
        zb. mstep. mstep. mstep. mstep. sz_simpl.
        unfold bind at 1. rewrite E. unfold lift, ret at 1.
        mstep. mstep. reflexivity. }
      split_and!; hsimpl; try done; try lia.
      * split; hsimpl; [lia|]. intros a0 Ha0.
        rewrite !lookup_insert_ne by lia. apply Hfresh. lia.
      * eapply wf_heap; hsimpl; try hlook; try done; try lia.
        hsimpl. revert Lnb. rng.
      * left. split_and!; try done.
        -- erewrite !content_heap by first [lia | hlook]. hsimpl.
           by rewrite Knb.
        -- eexists. split; [hlook|done].
    + exists (-1), (Str l o (PHeap a) (hcap blk) b), (asked h). split.
      { unfold rs__ensure_unique. mstep. zb.
        mstep. unfold bind at 1. hsimpl. unfold rs__sys_malloc. rewrite G.
        by zb. }
      split_and!; hsimpl; try done.
      * by econstructor.
      * right. split_and!; try done; [by apply content_blocks|].
        intros Hok. by rewrite Hok in G.
Qed.

(** ** Growth *)

Lemma reserve_ex_spec h s need :
  heap_ok h -> wf h s -> need <= CAP_MAX -> roomy s ->
  outcome h s (rs_string_reserve_ex s need rs_default_alloc h)
    (fun s' h' =>
       len s' = len s /\ content s' h' = content s h /\
       (need <= rs_string_cap s -> s' = s /\ h' = h) /\
       (rs_string_cap s < need ->
        rs_string_cap s' = grown (rs_string_cap s) need /\
        rs_string_is_heap s' = true /\ unique h' s')).
Proof.
  intros Hh W Hneed Hroom. unfold rs_string_reserve_ex.
  destruct (Z.leb_spec need (rs_string_cap s)) as [Hle|Hlt].
  { exists 0, s, h. split_and!; try done. left. split_and!; try done. lia. }
  destruct (ensure_unique_spec h s Hh W)
    as (e & s1 & h1 & E1 & Hh1 & W1 & G1 & Hp1 &
        [[-> (L1 & C1 & I1 & Ct1 & U1)] | (-> & L1 & Ct1 & N1)]).
  2:{ exists (-1), s1, h1. split.
      { unfold bind at 1. rewrite E1. done. }
      split_and!; try done. right. done. }
  unfold roomy in Hroom. remember (rs_string_cap s) as c eqn:Ec.
  assert (0 <= c <= CAP_MAX) as Hc.
  { destruct (wf_cstr h s W) as (? & _ & _ & ? & ?). lia. }
  assert (sz (c + c / 2 + 1) = c + c / 2 + 1) as Encap.
  { apply sz_small. assert (0 <= c / 2) by (apply Z.div_pos; lia). zlia. }
  assert ((if sz (c + c / 2 + 1) <? need then need else sz (c + c / 2 + 1))
          = grown c need) as Eg.
  { rewrite Encap. unfold grown. destruct (Z.ltb_spec (c + c / 2 + 1) need); lia. }
  assert (c < grown c need <= CAP_MAX) as Hg by (unfold grown; lia).
  assert (Z.to_nat (sz (sizeof_hdr + grown c need + 1) - sizeof_hdr)
          = Z.to_nat (grown c need + 1)) as Esz.
  { sz_simpl. zlia. }
  pose proof Hh1 as [Hn1 Hfresh1].
  destruct W1 as [l o c' b Hl Hb | l o a c' b blk Ha Hblk Hc' Hrc Hbuf Hl Hcm Hb].
  - (* inline: promotion *)
    unfold rs_string_cap in C1. simpl in C1, L1.
    destruct (copy_buf (replicate (Z.to_nat (grown c need + 1)) x00) b l)
      as (nb & E & Lnb & Knb); [rng..|].
    destruct (grants h1 (tick h1)) eqn:G.
    + eexists _, _, _. split.
      { unfold bind at 1. rewrite E1. cbv beta iota. zb. hsimpl. rewrite Eg.
        unfold bind at 1. unfold rs__sys_malloc. rewrite G, Esz.
        zb. mstep. mstep. mstep. sz_simpl.
        unfold bind at 1. rewrite E. unfold lift, ret at 1.
        mstep. reflexivity. }
      split_and!; hsimpl; try done.
      * split; hsimpl; [lia|]. intros a0 Ha0.
        rewrite !lookup_insert_ne by lia. apply Hfresh1. lia.
      * eapply wf_heap; hsimpl; try hlook; try done; try lia.
        hsimpl. revert Lnb. rng.
      * left. split_and!; try done.
        -- rewrite <- Ct1. erewrite content_heap by first [lia | hlook].
           hsimpl. by rewrite Knb.
        -- lia.
        -- intros _. split_and!; try done.
           eexists. split; [hlook|done].
    + exists (-1), (Str l o PSso c' b), (asked h1). split.
      { unfold bind at 1. rewrite E1. cbv beta iota. zb. hsimpl. rewrite Eg.
        unfold bind at 1. unfold rs__sys_malloc. rewrite G. by zb. }
      split_and!; hsimpl; try done.
      * by constructor.
      * right. split_and!; try done.
        intros Hok. unfold alloc_ok in Hok. rewrite <- G1 in Hok.
        by rewrite Hok in G.
  - (* heap: reallocation *)
    unfold rs_string_cap in C1. simpl in C1, L1.
    destruct U1 as (blk' & Hblk' & Hrc1). simpl in Hblk'.
    rewrite Hblk in Hblk'. injection Hblk' as <-.
    assert (a < next h1).
    { destruct (Z.lt_ge_cases a (next h1)); [done|].
      rewrite Hfresh1 in Hblk; [done|lia]. }
    pose proof (resize_buf (hbuf blk) l (Z.to_nat (grown c need + 1))) as Knb.
    destruct (grants h1 (tick h1)) eqn:G; [destruct (moves h1 (tick h1)) eqn:Mv|].
    + eexists _, _, _. split.
      { unfold bind at 1. rewrite E1. cbv beta iota. zb. hsimpl. rewrite Eg.
        unfold bind at 1. unfold rs__sys_realloc. rewrite Hblk, G, Mv, Esz.
        zb. mstep. reflexivity. }
      split_and!; hsimpl; try done.
      * split; hsimpl; [lia|]. intros a0 Ha0.
        rewrite lookup_insert_ne, lookup_delete_ne by lia. apply Hfresh1. lia.
      * eapply wf_heap; hsimpl; try hlook; try done; try lia.
        hsimpl. rng.
      * left. split_and!; try done.
        -- rewrite <- Ct1. erewrite !content_heap by first [lia | hlook].
           hsimpl. rewrite Knb; [done|rng..].
        -- lia.
        -- intros _. split_and!; try done.
           eexists. split; [hlook|done].
    + eexists _, _, _. split.
      { unfold bind at 1. rewrite E1. cbv beta iota. zb. hsimpl. rewrite Eg.
        unfold bind at 1. unfold rs__sys_realloc. rewrite Hblk, G, Mv, Esz.
        zb. mstep. reflexivity. }
      split_and!; hsimpl; try done.
      * split; hsimpl; [lia|]. intros a0 Ha0.
        rewrite lookup_insert_ne by lia. apply Hfresh1. lia.
      * eapply wf_heap; hsimpl; try hlook; try done; try lia.
        hsimpl. rng.
      * left. split_and!; try done.
        -- rewrite <- Ct1. erewrite !content_heap by first [lia | hlook].
           hsimpl. rewrite Knb; [done|rng..].
        -- lia.
        -- intros _. split_and!; try done.
           eexists. split; [hlook|done].
    + exists (-1), (Str l o (PHeap a) c' b), (asked h1). split.
      { unfold bind at 1. rewrite E1. cbv beta iota. zb. hsimpl. rewrite Eg.
        unfold bind at 1. unfold rs__sys_realloc. rewrite Hblk, G. by zb. }
      split_and!; hsimpl; try done.
      * by econstructor.
      * right. split_and!; try done.
        -- rewrite <- Ct1. by apply content_blocks.
        -- intros Hok. unfold alloc_ok in Hok. rewrite <- G1 in Hok.
           by rewrite Hok in G.
Qed.

(** ** The mutating operations *)

Lemma len_set_len L s : len (set_len L s) = L.
Proof. done. Qed.

Lemma is_heap_set_len L s :
  rs_string_is_heap (set_len L s) = rs_string_is_heap s.
Proof. done. Qed.

Lemma cap_set_len L s : rs_string_cap (set_len L s) = rs_string_cap s.
Proof. done. Qed.

Lemma wf_set_len h s L :
  wf h s -> 0 <= L <= rs_string_cap s -> wf h (set_len L s).
Proof.
  intros W HL. destruct W; unfold rs_string_cap in HL; simpl in HL.
  - by constructor.
  - by econstructor.
Qed.

Lemma content_cstr h s buf :
  rs_string_cstr s h = Ok (buf, h) ->
  forall L, content (set_len L s) h = Some (take (Z.to_nat L) buf).
Proof.
  intros E L. unfold content.
  replace (rs_string_cstr (set_len L s) h) with (rs_string_cstr s h) by done.
  by rewrite E.
Qed.

Lemma content_cstr_self h s buf :
  rs_string_cstr s h = Ok (buf, h) ->
  content s h = Some (take (Z.to_nat (len s)) buf).
Proof. intros E. unfold content. by rewrite E. Qed.

Lemma buf_put_spec h s buf :
  heap_ok h -> wf h s -> zlen buf = rs_string_cap s + 1 ->
  exists s' h',
    buf_put s buf h = Ok (s', h') /\
    heap_ok h' /\ wf h' s' /\ grants h' = grants h /\
    len s' = len s /\ rs_string_cap s' = rs_string_cap s /\
    rs_string_is_heap s' = rs_string_is_heap s /\
    rs_string_cstr s' h' = Ok (buf, h').
Proof.
  intros Hh W Hbuf. pose proof Hh as [Hn Hfresh].
  destruct W as [l o c b Hl Hb | l o a c b blk Ha Hblk Hc Hrc Hbuf' Hl Hcm Hb];
    unfold rs_string_cap in Hbuf; simpl in Hbuf.
  - eexists _, _. split; [reflexivity|]. hsimpl.
    split_and!; try done. by constructor.
  - assert (a < next h).
    { destruct (Z.lt_ge_cases a (next h)); [done|].
      rewrite Hfresh in Hblk; [done|lia]. }
    eexists _, _. split.
    { unfold buf_put. mstep. reflexivity. }
    split_and!; hsimpl; try done.
    + split; hsimpl; [lia|]. intros a0 Ha0.
      rewrite lookup_insert_ne by lia. apply Hfresh. lia.
    + eapply wf_heap; hsimpl; try hlook; try done; try lia.
    + unfold rs_string_cstr. hsimpl.
      erewrite buf_load_run by first [lia | hlook]. done.
Qed.

Lemma cap_after_ge c need : need <= cap_after c need /\ c <= cap_after c need.
Proof.
  unfold cap_after, grown.
  destruct (Z.leb_spec need c); lia.
Qed.

(** The common prefix of the mutating operations: reserve, then make the
    block exclusively owned, then update the buffer ([k]). *)
Lemma ensure_ready_spec h s need (k : rs_string -> M (Z * rs_string))
    (Q : rs_string -> heap -> Prop) :
  heap_ok h -> wf h s -> need <= CAP_MAX -> roomy s ->
  (forall s2 h2,
      heap_ok h2 -> wf h2 s2 -> grants h2 = grants h ->
      len s2 = len s -> content s2 h2 = content s h ->
      rs_string_cap s2 = cap_after (rs_string_cap s) need ->
      exists s' h',
        k s2 h2 = Ok ((0, s'), h') /\
        heap_ok h' /\ wf h' s' /\ grants h' = grants h2 /\
        (rs_string_is_heap s2 = true -> rs_string_is_heap s' = true) /\
        Q s' h') ->
  outcome h s
    ((x <- rs_string_reserve_ex s need rs_default_alloc ;;
      let '(e, s) := x in
      if negb (e =? 0) then ret (-1, s) else
      x <- rs__ensure_unique s rs_default_alloc ;;
      let '(e, s) := x in
      if negb (e =? 0) then ret (-1, s) else
      k s) h) Q.
Proof.
  intros Hh W Hneed Hroom Hk.
  destruct (reserve_ex_spec h s need Hh W Hneed Hroom)
    as (e & s1 & h1 & E1 & Hh1 & W1 & G1 & Hp1 &
        [[-> (L1 & Ct1 & Hsame & Hgrow)] | (-> & L1 & Ct1 & N1)]).
  2:{ exists (-1), s1, h1. split.
      { unfold bind at 1. rewrite E1. done. }
      split_and!; try done. by right. }
  assert (rs_string_cap s1 = cap_after (rs_string_cap s) need) as C1.
  { unfold cap_after. destruct (Z.leb_spec need (rs_string_cap s)) as [Hle|Hlt].
    - by destruct (Hsame Hle) as [-> _].
    - by destruct (Hgrow Hlt) as [-> _]. }
  destruct (ensure_unique_spec h1 s1 Hh1 W1)
    as (e & s2 & h2 & E2 & Hh2 & W2 & G2 & Hp2 &
        [[-> (L2 & C2 & I2 & Ct2 & U2)] | (-> & L2 & Ct2 & N2)]).
  2:{ exists (-1), s2, h2. split.
      { unfold bind at 1. rewrite E1. cbv beta iota. zb. simpl.
        unfold bind at 1. rewrite E2. done. }
      split_and!; try done; try congruence; [tauto|].
      right. split_and!; try congruence.
      intros Hok. apply N2. by apply (alloc_ok_grants h). }
  destruct (Hk s2 h2) as (s' & h' & Ek & Hh' & W' & G' & Hp' & HQ);
    try done; try congruence.
  exists 0, s', h'. split.
  { unfold bind at 1. rewrite E1. cbv beta iota. zb. simpl.
    unfold bind at 1. rewrite E2. cbv beta iota. zb. simpl. done. }
  split_and!; try done; try congruence; [tauto|]. by left.
Qed.

Lemma wf_content h s :
  wf h s ->
  exists buf, rs_string_cstr s h = Ok (buf, h) /\
              content s h = Some (take (Z.to_nat (len s)) buf) /\
              zlen buf = rs_string_cap s + 1 /\
              0 <= len s <= rs_string_cap s /\ rs_string_cap s <= CAP_MAX.
Proof.
  intros W. destruct (wf_cstr h s W) as (buf & E & ? & ? & ?).
  exists buf. split_and!; try done; try lia. by apply content_cstr_self.
Qed.

Lemma insert_spec h s pos v c :
  heap_ok h -> wf h s -> roomy s -> 0 <= pos ->
  len s + zlen v <= CAP_MAX -> content s h = Some c ->
  outcome h s (rs_string_insert s pos v h)
    (fun s' h' =>
       let q := Z.min pos (len s) in
       content s' h' = Some (take (Z.to_nat q) c ++ v ++ drop (Z.to_nat q) c) /\
       len s' = len s + zlen v /\
       rs_string_cap s' = cap_after (rs_string_cap s) (len s + zlen v)).
Proof.
  intros Hh W Hroom Hpos Hfit Hc. unfold rs_string_insert, sv_len.
  destruct (wf_content h s W) as (buf0 & _ & _ & _ & Hl0 & _).
  assert (0 <= zlen v) by (unfold zlen; lia).
  rewrite (sz_small (len s + zlen v)) by zlia.
  apply ensure_ready_spec; try done.
  intros s2 h2 Hh2 W2 G2 L2 Ct2 C2.
  destruct (wf_content h2 s2 W2) as (buf & Ecstr & Ect & Hbuf & Hl & Hcm).
  pose proof (cap_after_ge (rs_string_cap s) (len s + zlen v)) as [Hge _].
  set (q := if len s <? pos then len s else pos).
  assert (q = Z.min pos (len s)) as Eq.
  { unfold q. destruct (Z.ltb_spec (len s) pos); lia. }
  destruct (insert_buf buf v (len s2) q) as (b1 & b2 & b3 & M1 & M2 & M3 & L3 & K3);
    [lia..|].
  assert (wf h2 (set_len (len s2 + zlen v) s2)) as W2'
    by (apply wf_set_len; [done|lia]).
  destruct (buf_put_spec h2 (set_len (len s2 + zlen v) s2) b3 Hh2 W2')
    as (s' & h' & Eput & Hh' & W' & G' & L' & C' & I' & Ecstr');
    [rewrite cap_set_len; lia|].
  exists s', h'. split.
  { unfold bind at 1. rewrite Ecstr. cbv beta iota.
    rewrite (sz_small (len s2 - q)), (sz_small (len s2 + zlen v)),
      (sz_small (q + zlen v)) by zlia.
    unfold bind at 1. rewrite M1. unfold lift, ret at 1.
    unfold bind at 1. rewrite M2. unfold ret at 1.
    unfold bind at 1. rewrite len_set_len, M3. unfold lift, ret at 1.
    unfold bind at 1. rewrite Eput. done. }
  split_and!; try done.
  - by rewrite I'.
  - rewrite (content_cstr_self _ _ _ Ecstr'), L', len_set_len.
    rewrite K3, <- Eq. f_equal.
    rewrite Ct2, Hc in Ect. by injection Ect as ->.
  - rewrite L', len_set_len. lia.
  - by rewrite C', cap_set_len.
Qed.

Lemma erase_spec h s pos n c :
  heap_ok h -> wf h s -> 0 <= pos <= len s -> 0 <= n ->
  pos + n <= SIZE_MAX -> content s h = Some c ->
  outcome h s (rs_string_erase s pos n h)
    (fun s' h' =>
       let k := Z.min n (len s - pos) in
       content s' h' =
         Some (take (Z.to_nat pos) c ++ drop (Z.to_nat (pos + k)) c) /\
       len s' = len s - k /\
       rs_string_cap s' = rs_string_cap s).
Proof.
  intros Hh W Hpos Hn Hfit Hc. unfold rs_string_erase.
  destruct (wf_content h s W) as (buf0 & _ & _ & _ & Hl0 & Hcm0).
  rewrite (proj2 (Z.ltb_ge (len s) pos)) by lia.
  rewrite (sz_small (pos + n)), (sz_small (len s - pos)) by zlia.
  set (k := if len s <? pos + n then len s - pos else n).
  assert (k = Z.min n (len s - pos)) as Ek.
  { unfold k. destruct (Z.ltb_spec (len s) (pos + n)); lia. }
  destruct (ensure_unique_spec h s Hh W)
    as (e & s2 & h2 & E2 & Hh2 & W2 & G2 & Hp2 &
        [[-> (L2 & C2 & I2 & Ct2 & U2)] | (-> & L2 & Ct2 & N2)]).
  2:{ exists (-1), s2, h2. split.
      { unfold bind at 1. rewrite E2. done. }
      split_and!; try done. by right. }
  destruct (wf_content h2 s2 W2) as (buf & Ecstr & Ect & Hbuf & Hl & Hcm).
  destruct (erase_buf buf (len s2) pos k) as (b1 & M1 & L1 & K1); [lia..|].
  destruct (buf_put_spec h2 s2 b1 Hh2 W2)
    as (s' & h' & Eput & Hh' & W' & G' & L' & C' & I' & Ecstr'); [lia|].
  exists 0, (set_len (len s - k) s'), h'. split.
  { unfold bind at 1. rewrite E2. cbv beta iota. zb. cbn [negb]. cbv iota.
    unfold bind at 1. rewrite Ecstr. cbv beta iota.
    rewrite (sz_small (pos + k)) by zlia.
    rewrite (sz_small (len s2 - (pos + k))) by zlia.
    rewrite (sz_small (len s2 - (pos + k) + 1)) by zlia.
    unfold bind at 1. rewrite M1. unfold lift, ret at 1.
    unfold bind at 1. rewrite Eput. cbv beta iota.
    rewrite L', L2. rewrite (sz_small (len s - k)) by zlia. done. }
  split_and!; try done.
  - apply wf_set_len; [done|lia].
  - congruence.
  - rewrite is_heap_set_len, I'. tauto.
  - left. split_and!; try done.
    + rewrite (content_cstr _ _ _ Ecstr'), <- Ek, <- L2, K1. f_equal.
      rewrite Ct2, Hc in Ect. by injection Ect as ->.
    + rewrite len_set_len. lia.
    + rewrite cap_set_len. congruence.
Qed.

Lemma append_spec h s v c :
  heap_ok h -> wf h s -> roomy s ->
  len s + zlen v <= CAP_MAX -> content s h = Some c ->
  outcome h s (rs_string_append s v h)
    (fun s' h' =>
       content s' h' = Some (c ++ v) /\
       len s' = len s + zlen v /\
       rs_string_cap s' = cap_after (rs_string_cap s) (len s + zlen v)).
Proof.
  intros Hh W Hroom Hfit Hc. unfold rs_string_append, sv_len.
  destruct (wf_content h s W) as (buf0 & _ & _ & _ & Hl0 & _).
  assert (0 <= zlen v) by (unfold zlen; lia).
  rewrite (sz_small (len s + zlen v)) by zlia.
  apply ensure_ready_spec; try done.
  intros s2 h2 Hh2 W2 G2 L2 Ct2 C2.
  destruct (wf_content h2 s2 W2) as (buf & Ecstr & Ect & Hbuf & Hl & Hcm).
  pose proof (cap_after_ge (rs_string_cap s) (len s + zlen v)) as [Hge _].
  destruct (append_buf buf v (len s2)) as (b1 & b2 & M1 & M2 & L2' & K2);
    [lia..|].
  assert (wf h2 (set_len (len s2 + zlen v) s2)) as W2'
    by (apply wf_set_len; [done|lia]).
  destruct (buf_put_spec h2 (set_len (len s2 + zlen v) s2) b2 Hh2 W2')
    as (s' & h' & Eput & Hh' & W' & G' & L' & C' & I' & Ecstr');
    [rewrite cap_set_len; lia|].
  exists s', h'. split.
  { unfold bind at 1. rewrite Ecstr. cbv beta iota.
    rewrite (sz_small (len s2 + zlen v)) by zlia.
    unfold bind at 1. rewrite M1. unfold lift, ret at 1.
    unfold bind at 1. rewrite len_set_len, M2. unfold lift, ret at 1.
    unfold bind at 1. rewrite Eput. done. }
  split_and!; try done.
  - by rewrite I'.
  - rewrite (content_cstr_self _ _ _ Ecstr'), L', len_set_len.
    rewrite K2. f_equal.
    rewrite Ct2, Hc in Ect. by injection Ect as ->.
  - rewrite L', len_set_len. lia.
  - by rewrite C', cap_set_len.
Qed.

Lemma assign_spec h s v :
  heap_ok h -> wf h s -> roomy s -> zlen v <= CAP_MAX ->
  outcome h s (rs_string_assign s v h)
    (fun s' h' =>
       content s' h' = Some v /\
       len s' = zlen v /\
       rs_string_cap s' = cap_after (rs_string_cap s) (zlen v)).
Proof.
  intros Hh W Hroom Hfit. unfold rs_string_assign, sv_len.
  assert (0 <= zlen v) by (unfold zlen; lia).
  apply ensure_ready_spec; try done.
  intros s2 h2 Hh2 W2 G2 L2 Ct2 C2.
  destruct (wf_content h2 s2 W2) as (buf & Ecstr & Ect & Hbuf & Hl & Hcm).
  pose proof (cap_after_ge (rs_string_cap s) (zlen v)) as [Hge _].
  destruct (assign_buf buf v) as (b1 & b2 & M1 & M2 & L2' & K2); [lia|].
  destruct (buf_put_spec h2 s2 b2 Hh2 W2)
    as (s' & h' & Eput & Hh' & W' & G' & L' & C' & I' & Ecstr'); [lia|].
  exists (set_len (zlen v) s'), h'. split.
  { unfold bind at 1. rewrite Ecstr. cbv beta iota.
    unfold bind at 1. rewrite M1. unfold lift, ret at 1.
    unfold bind at 1. rewrite M2. unfold lift, ret at 1.
    unfold bind at 1. rewrite Eput. done. }
  split_and!; try done.
  - apply wf_set_len; [done|lia].
  - by rewrite is_heap_set_len, I'.
  - by rewrite (content_cstr _ _ _ Ecstr'), K2.
  - by rewrite cap_set_len, C'.
Qed.

(** ** Search *)

Lemma bytes_at_length (c : list byte) (j n : Z) :
  0 <= j -> 0 <= n -> j + n <= zlen c -> zlen (bytes_at c j n) = n.
Proof. intros. rng. Qed.

Lemma occurs_bound what c j : occurs what c j -> j + zlen what <= zlen c.
Proof. by intros (_ & ? & _). Qed.

Lemma bytes_at_all (l : list byte) : bytes_at l 0 (zlen l) = l.
Proof.
  unfold bytes_at, zlen. rewrite Nat2Z.id. simpl. apply firstn_all.
Qed.

Lemma bytes_at_take (p : list byte) (l j n : Z) :
  0 <= j -> 0 <= n -> j + n <= l ->
  bytes_at (take (Z.to_nat l) p) j n = bytes_at p j n.
Proof.
  intros. unfold bytes_at. apply list_eq. intros i. lk_solve.
Qed.

Lemma find_loop_spec (p what : list byte) (slen : Z) :
  0 < zlen what -> 0 <= slen <= zlen p -> slen + zlen what <= SIZE_MAX ->
  forall (fuel : nat) (i : Z),
    0 <= i <= slen -> (Z.to_nat (slen - i) < fuel)%nat ->
    exists r,
      find_loop fuel p what slen i = Some r /\
      ((r = npos /\ absent_from what (take (Z.to_nat slen) p) i) \/
       (r + zlen what <= slen /\ first_at what (take (Z.to_nat slen) p) i r)).
Proof.
  intros Hw Hs Hfit. induction fuel as [|fuel IH]; intros i Hi Hfuel; [lia|].
  simpl. unfold sv_len. rewrite (sz_small (i + zlen what)) by zlia.
  destruct (Z.leb_spec (i + zlen what) slen) as [Hin|Hout].
  - unfold memcmp_eq. rewrite !in_range_true by lia. simpl.
    rewrite bytes_at_all.
    rewrite <- (bytes_at_take p slen i (zlen what)) by lia.
    case_bool_decide as Hm.
    + exists i. split; [done|]. right. split; [lia|].
      split_and!; [lia| split_and!; [lia|rng|done] | intros j ?; lia].
    + rewrite (sz_small (i + 1)) by zlia.
      destruct (IH (i + 1)) as (r & -> & Hr); [lia..|].
      exists r. split; [done|].
      destruct Hr as [[-> Ha] | [Hb (Hle & Ho & Hf)]].
      * left. split; [done|]. intros j Hj (? & ? & Hoc).
        destruct (decide (j = i)) as [->|]; [done|].
        apply (Ha j); [lia|]. by split_and!.
      * right. split; [done|]. split_and!; [lia|done|].
        intros j Hj (? & ? & Hoc).
        destruct (decide (j = i)) as [->|]; [done|].
        apply (Hf j); [lia|]. by split_and!.
  - exists npos. split; [done|]. left. split; [done|].
    intros j Hj Hoc. apply occurs_bound in Hoc. revert Hoc. rng.
Qed.

Lemma find_spec h s what from c :
  wf h s -> content s h = Some c ->
  0 < zlen what -> 0 <= from <= len s -> len s + zlen what <= SIZE_MAX ->
  exists r,
    rs_string_find s what from h = Ok (r, h) /\
    ((r = npos /\ absent_from what c from) \/
     (r + zlen what <= len s /\ first_at what c from r)).
Proof.
  intros W Hc Hw Hfrom Hfit.
  destruct (wf_content h s W) as (buf & Ecstr & Ect & Hbuf & Hl & Hcm).
  rewrite Hc in Ect. injection Ect as ->.
  destruct (find_loop_spec buf what (len s) Hw) with (fuel := (Z.to_nat (len s) + 2)%nat) (i := from)
    as (r & E & Hr); [lia..|].
  exists r. split; [|done].
  unfold rs_string_find, bind. rewrite Ecstr. unfold sv_len. zb.
  rewrite E. done.
Qed.

(** ** Replacement *)

Lemma replaced_skip from to k c :
  replaced from to k c = replaced from to 0 (drop k c).
Proof.
  revert k. induction c as [|b c IH]; intros [|k]; simpl; try done.
Qed.

Lemma replacements_skip from k c :
  replacements from k c = replacements from 0 (drop k c).
Proof.
  revert k. induction c as [|b c IH]; intros [|k]; simpl; try done.
Qed.

Lemma replaced_here from to c :
  from <> [] -> take (length from) c = from ->
  replaced from to 0 c = to ++ replaced from to 0 (drop (length from) c).
Proof.
  intros Hne Hp. destruct c as [|b c].
  { rewrite take_nil in Hp. by subst. }
  cbn [replaced]. rewrite bool_decide_eq_true_2 by done.
  rewrite replaced_skip. do 2 f_equal.
  destruct from; [done|]. simpl. by rewrite Nat.sub_0_r.
Qed.

Lemma replacements_here from c :
  from <> [] -> take (length from) c = from ->
  replacements from 0 c = 1 + replacements from 0 (drop (length from) c).
Proof.
  intros Hne Hp. destruct c as [|b c].
  { rewrite take_nil in Hp. by subst. }
  cbn [replacements]. rewrite bool_decide_eq_true_2 by done.
  rewrite replacements_skip. do 2 f_equal.
  destruct from; [done|]. simpl. by rewrite Nat.sub_0_r.
Qed.

Lemma replaced_before from to (k : nat) c :
  (forall j : nat, (j < k)%nat -> take (length from) (drop j c) <> from) ->
  replaced from to 0 c = take k c ++ replaced from to 0 (drop k c).
Proof.
  revert c. induction k as [|k IH]; intros c Hno; [done|].
  destruct c as [|b c]; [done|].
  cbn [replaced]. rewrite bool_decide_eq_false_2 by (apply (Hno 0%nat); lia).
  simpl. f_equal. apply IH. intros j Hj. apply (Hno (S j)). lia.
Qed.

Lemma replacements_before from (k : nat) c :
  (forall j : nat, (j < k)%nat -> take (length from) (drop j c) <> from) ->
  replacements from 0 c = replacements from 0 (drop k c).
Proof.
  revert c. induction k as [|k IH]; intros c Hno; [done|].
  destruct c as [|b c]; [done|].
  cbn [replacements]. rewrite bool_decide_eq_false_2 by (apply (Hno 0%nat); lia).
  simpl. apply IH. intros j Hj. apply (Hno (S j)). lia.
Qed.

Lemma replacements_bound from c k :
  from <> [] -> 0 <= replacements from k c <= zlen c.
Proof.
  intros Hne. revert k. induction c as [|b c IH]; intros k; [done|].
  cbn [replacements]. unfold zlen in *. rewrite length_cons.
  destruct k.
  - case_bool_decide.
    + specialize (IH (length from - 1)%nat). lia.
    + specialize (IH 0%nat). lia.
  - specialize (IH k). lia.
Qed.

(** In terms of occurrences. *)
Lemma occurs_take what c (j : Z) :
  0 < zlen what -> 0 <= j ->
  occurs what c j <-> take (length what) (drop (Z.to_nat j) c) = what.
Proof.
  intros Hw Hj. unfold occurs, bytes_at, zlen. rewrite Nat2Z.id. split.
  - by intros (_ & _ & ?).
  - intros E. split_and!; try done.
    apply (f_equal length) in E. revert E. rng.
Qed.

Lemma replaced_first from to c r :
  0 < zlen from -> first_at from c 0 r ->
  replaced from to 0 c =
    take (Z.to_nat r) c ++ to ++ replaced from to 0 (drop (Z.to_nat (r + zlen from)) c) /\
  replacements from 0 c =
    1 + replacements from 0 (drop (Z.to_nat (r + zlen from)) c).
Proof.
  intros Hw (Hr & Ho & Hno).
  assert (from <> []) as Hne by (intros ->; unfold zlen in Hw; simpl in Hw; lia).
  assert (forall j : nat, (j < Z.to_nat r)%nat ->
            take (length from) (drop j c) <> from) as Hno'.
  { intros j Hj E. apply (Hno (Z.of_nat j)); [lia|].
    apply occurs_take; [done|lia|]. by rewrite Nat2Z.id. }
  apply occurs_take in Ho; [|done|lia].
  replace (Z.to_nat (r + zlen from)) with (Z.to_nat r + length from)%nat
    by (unfold zlen; lia).
  rewrite <- !drop_drop. split.
  - rewrite (replaced_before from to (Z.to_nat r) c Hno').
    by rewrite (replaced_here from to _ Hne Ho).
  - rewrite (replacements_before from (Z.to_nat r) c Hno').
    by rewrite (replacements_here from _ Hne Ho).
Qed.

Lemma replaced_absent from to c :
  0 < zlen from -> absent_from from c 0 ->
  replaced from to 0 c = c /\ replacements from 0 c = 0.
Proof.
  intros Hw Hno.
  assert (forall j : nat, (j < length c)%nat ->
            take (length from) (drop j c) <> from) as Hno'.
  { intros j Hj E. apply (Hno (Z.of_nat j)); [lia|].
    apply occurs_take; [done|lia|]. by rewrite Nat2Z.id. }
  split.
  - rewrite (replaced_before from to (length c) c Hno').
    rewrite firstn_all, drop_all. simpl. by rewrite app_nil_r.
  - rewrite (replacements_before from (length c) c Hno').
    by rewrite drop_all.
Qed.

Lemma content_length h s c :
  wf h s -> content s h = Some c -> zlen c = len s.
Proof.
  intros W Hc.
  destruct (wf_content h s W) as (buf & _ & Ect & Hbuf & Hl & _).
  rewrite Hc in Ect. injection Ect as ->. rng.
Qed.

Lemma occurs_shift what (done rest : list byte) j :
  zlen done <= j ->
  occurs what (done ++ rest) j <-> occurs what rest (j - zlen done).
Proof.
  intros Hj. unfold occurs, bytes_at.
  replace (drop (Z.to_nat j) (done ++ rest))
    with (drop (Z.to_nat (j - zlen done)) rest).
  2:{ rewrite drop_app_ge by rng. f_equal. rng. }
  split; intros (? & ? & ?); split_and!; try done; rng.
Qed.

Lemma first_at_shift what (done rest : list byte) r :
  first_at what (done ++ rest) (zlen done) r ->
  first_at what rest 0 (r - zlen done).
Proof.
  intros (Hr & Ho & Hno). split_and!; [lia | by apply occurs_shift |].
  intros j Hj Hoc. apply (Hno (j + zlen done)); [lia|].
  apply occurs_shift; [lia|]. by replace (j + zlen done - zlen done) with j by lia.
Qed.

Lemma absent_from_shift what (done rest : list byte) :
  absent_from what (done ++ rest) (zlen done) -> absent_from what rest 0.
Proof.
  intros Hno j Hj Hoc. apply (Hno (j + zlen done)); [lia|].
  apply occurs_shift; [lia|]. by replace (j + zlen done - zlen done) with j by lia.
Qed.

(** What one replacement does to the content. *)
Lemma splice_app (done rest to : list byte) (r wl : Z) :
  0 <= r -> 0 <= wl -> r + wl <= zlen rest ->
  let c := done ++ rest in
  let p := zlen done + r in
  let c1 := take (Z.to_nat p) c ++ drop (Z.to_nat (p + wl)) c in
  take (Z.to_nat p) c1 ++ to ++ drop (Z.to_nat p) c1 =
  (done ++ take (Z.to_nat r) rest ++ to) ++ drop (Z.to_nat (r + wl)) rest.
Proof.
  intros Hr Hwl Hfit c p c1. subst c p c1. unfold zlen in *.
  replace (Z.to_nat (Z.of_nat (length done) + r))
    with (length done + Z.to_nat r)%nat by lia.
  replace (Z.to_nat (Z.of_nat (length done) + r + wl))
    with (length done + Z.to_nat (r + wl))%nat by lia.
  rewrite take_app_add, drop_app_add.
  assert (El : length (done ++ take (Z.to_nat r) rest) =
               (length done + Z.to_nat r)%nat).
  { rewrite length_app, length_take. lia. }
  rewrite <- El, take_app_length, drop_app_length.
  by rewrite <- !app_assoc.
Qed.

Lemma roomy_cap s s' : rs_string_cap s' = rs_string_cap s -> roomy s -> roomy s'.
Proof. unfold roomy. by intros ->. Qed.

Lemma replace_all_iter_spec h s from to i count done rest :
  heap_ok h -> wf h s -> alloc_ok h -> 0 < zlen from ->
  content s h = Some (done ++ rest) -> zlen done = i ->
  roomy s -> len s + zlen to <= CAP_MAX -> len s + zlen from <= SIZE_MAX ->
  count < INT_MAX ->
  exists x h',
    replace_all_iter s from to i count h = Ok (x, h') /\
    heap_ok h' /\ alloc_ok h' /\
    match x with
    | inl (count', s') =>
      count' = count /\ s' = s /\ h' = h /\ absent_from from rest 0
    | inr (s', i', count') =>
      exists r,
        first_at from rest 0 r /\ wf h' s' /\
        count' = count + 1 /\ i' = i + r + zlen to /\
        content s' h' =
          Some ((done ++ take (Z.to_nat r) rest ++ to)
                  ++ drop (Z.to_nat (r + zlen from)) rest) /\
        len s' = len s - zlen from + zlen to /\
        rs_string_cap s' =
          cap_after (rs_string_cap s) (len s - zlen from + zlen to) /\
        (rs_string_is_heap s = true -> rs_string_is_heap s' = true)
    end.
Proof.
  intros Hh W A Hw Hc Hi Hroom Hfit Hfitw Hcount.
  pose proof (content_length h s _ W Hc) as Hlen.
  assert (zlen (done ++ rest) = zlen done + zlen rest) as Happ by rng.
  assert (0 <= zlen rest) by rng.
  assert (0 <= zlen done) by rng.
  assert (0 <= zlen to) by rng.
  destruct (wf_content h s W) as (buf0 & _ & _ & _ & Hl0 & Hcm0).
  destruct (find_spec h s from i _ W Hc Hw) as (r0 & Efind & Hr0); [lia| zlia |].
  destruct Hr0 as [[-> Habs] | [Hb Hfirst]].
  { exists (inl (count, s)), h. split.
    { unfold replace_all_iter, bind. rewrite Efind. by zb. }
    split_and!; try done. subst i. by apply absent_from_shift in Habs. }
  subst i. pose proof Hfirst as (Hle & _ & _).
  apply first_at_shift in Hfirst. set (r := r0 - zlen done) in *.
  pose proof Hfirst as (Hr & Ho & _). apply occurs_bound in Ho.
  destruct (outcome_ok _ _ _ _ A
              (erase_spec h s r0 (zlen from) _ Hh W ltac:(lia) ltac:(lia)
                          ltac:(zlia) Hc))
    as (s1 & h1 & E1 & Hh1 & W1 & A1 & Hp1 & Ct1 & L1 & C1).
  cbv zeta in Ct1, L1. rewrite Z.min_l in Ct1, L1 by lia.
  destruct (outcome_ok _ _ _ _ A1
              (insert_spec h1 s1 r0 to _ Hh1 W1 (roomy_cap _ _ C1 Hroom)
                           ltac:(lia) ltac:(lia) Ct1))
    as (s2 & h2 & E2 & Hh2 & W2 & A2 & Hp2 & Ct2 & L2 & C2).
  cbv zeta in Ct2. rewrite Z.min_l in Ct2 by lia.
  exists (inr (s2, r0 + zlen to, count + 1)), h2. split.
  { unfold replace_all_iter. unfold bind at 1. rewrite Efind. zb.
    unfold sv_len. unfold bind at 1. rewrite E1. cbv beta iota.
    unfold bind at 1. rewrite E2. cbv beta iota.
    rewrite (sz_small (r0 + zlen to)) by zlia.
    unfold bind at 1, int_incr. by zb. }
  split_and!; try done.
  exists r. split_and!; try done.
  - unfold r. lia.
  - rewrite Ct2. f_equal.
    replace r0 with (zlen done + r) by (unfold r; lia).
    apply splice_app; lia.
  - lia.
  - rewrite C2, C1, L1. done.
  - tauto.
Qed.

Lemma LIMIT_eq : LIMIT = 1152921504606846976.
Proof. reflexivity. Qed.

Lemma CAP_LIMIT_eq : CAP_LIMIT = 4611686018427387904.
Proof. reflexivity. Qed.

Ltac zlim := rewrite ?LIMIT_eq, ?CAP_LIMIT_eq in *; zlia.

Lemma roomy_limit s : rs_string_cap s <= CAP_LIMIT -> roomy s.
Proof.
  unfold roomy. rewrite CAP_LIMIT_eq, CAP_MAX_eq. intros.
  assert (rs_string_cap s / 2 <= 4611686018427387904 / 2)
    by (apply Z.div_le_mono; lia).
  change (4611686018427387904 / 2) with 2305843009213693952 in *. lia.
Qed.

Lemma cap_after_limit c need :
  0 <= c <= CAP_LIMIT -> need <= 2 * LIMIT -> cap_after c need <= CAP_LIMIT.
Proof.
  unfold cap_after, grown. rewrite CAP_LIMIT_eq, LIMIT_eq. intros.
  destruct (Z.leb_spec need c); [lia|].
  assert (c / 2 <= need / 2) by (apply Z.div_le_mono; lia).
  assert (need / 2 <= 2305843009213693952 / 2) by (apply Z.div_le_mono; lia).
  change (2305843009213693952 / 2) with 1152921504606846976 in *. lia.
Qed.

Section ReplaceAll.
Variables from to : list byte.
Hypothesis Hw : 0 < zlen from.
Hypothesis Hfrom : zlen from <= LIMIT.
Hypothesis Hto : zlen to <= LIMIT.

Lemma replace_all_loop_spec (fuel : nat) :
  forall h s i count done rest,
    heap_ok h -> wf h s -> alloc_ok h ->
    content s h = Some (done ++ rest) -> zlen done = i ->
    rs_string_cap s <= CAP_LIMIT ->
    zlen done + zlen (replaced from to 0 rest) <= LIMIT ->
    0 <= count -> count + zlen rest < INT_MAX ->
    (length rest < fuel)%nat ->
    exists s' h',
      replace_all_loop fuel s from to i count h =
        Ok (Some (count + replacements from 0 rest, s'), h') /\
      heap_ok h' /\ wf h' s' /\ alloc_ok h' /\
      content s' h' = Some (done ++ replaced from to 0 rest) /\
      (rs_string_is_heap s = true -> rs_string_is_heap s' = true).
Proof.
  induction fuel as [|fuel IH];
    intros h s i count done rest Hh W A Hc Hi Hcap Hout Hcnt Hint Hfuel; [lia|].
  pose proof (content_length h s _ W Hc) as Hlen.
  assert (zlen (done ++ rest) = zlen done + zlen rest) as Happ by rng.
  assert (0 <= zlen rest) by rng.
  assert (0 <= zlen done) by rng.
  assert (0 <= zlen to) by rng.
  assert (0 <= zlen (replaced from to 0 rest)) by rng.
  destruct (wf_content h s W) as (buf0 & _ & _ & _ & Hl0 & Hcm0).
  destruct (replace_all_iter_spec h s from to i count done rest)
    as (x & h1 & E & Hh1 & A1 & Hx); try done.
  { by apply roomy_limit. } { zlim. } { zlim. } { lia. }
  destruct x as [[count' s'] | [[s' i'] count']].
  - destruct Hx as (-> & -> & -> & Habs).
    destruct (replaced_absent from to rest Hw Habs) as [-> ->].
    exists s, h. split_and!; try done.
    cbn [replace_all_loop]. unfold bind. rewrite E. by rewrite Z.add_0_r.
  - destruct Hx as (r & Hfirst & W' & -> & -> & Hc' & Hl' & Hcap' & Hp').
    destruct (replaced_first from to rest r Hw Hfirst) as [Erep Ecnt].
    pose proof Hfirst as (Hr & Ho & _). apply occurs_bound in Ho.
    set (rest' := drop (Z.to_nat (r + zlen from)) rest) in *.
    set (done' := done ++ take (Z.to_nat r) rest ++ to) in *.
    assert (zlen rest' = zlen rest - r - zlen from) as Hrest' by (unfold rest'; rng).
    assert (zlen done' = zlen done + r + zlen to) as Hdone' by (unfold done'; rng).
    assert (zlen (replaced from to 0 rest)
            = r + zlen to + zlen (replaced from to 0 rest')) as Hsplit.
    { rewrite Erep. rng. }
    destruct (IH h1 s' (i + r + zlen to) (count + 1) done' rest')
      as (s'' & h'' & E' & Hh'' & W'' & A'' & Hc'' & Hp''); try done; try lia.
    { rewrite Hcap'. apply cap_after_limit; [lia|]. zlim. }
    { revert Hfuel. unfold rest'. rng. }
    exists s'', h''. split_and!; try done.
    + cbn [replace_all_loop]. unfold bind at 1. rewrite E. cbv beta iota.
      replace (count + replacements from 0 rest)
        with (count + 1 + replacements from 0 rest') by lia.
      exact E'.
    + rewrite Hc'', Erep. unfold done'. by rewrite <- !app_assoc.
    + tauto.
Qed.
End ReplaceAll.

(** ** Concrete runs *)

Lemma heap0_ok : heap_ok heap0.
Proof. split; [done|]. intros a _. apply lookup_empty. Qed.

Lemma heap0_alloc_ok : alloc_ok heap0.
Proof. by intros n. Qed.





(** ** Replacing the first occurrence *)

Lemma first_at_unique what c i r r' :
  first_at what c i r -> first_at what c i r' -> r = r'.
Proof.
  intros (H1 & O1 & N1) (H2 & O2 & N2).
  destruct (Z.lt_trichotomy r r') as [Hlt | [-> | Hgt]]; [|done|].
  - exfalso. apply (N2 r); [lia|done].
  - exfalso. apply (N1 r'); [lia|done].
Qed.

Lemma occurs_nil c j : 0 <= j <= zlen c -> occurs [] c j.
Proof.
  intros. unfold occurs, bytes_at. split_and!; [lia | rng | done].
Qed.

(** What [rs_string_find (s, from, 0)] returns. *)
Lemma find_first h s from c :
  wf h s -> content s h = Some c -> len s + zlen from <= SIZE_MAX ->
  exists r,
    rs_string_find s from 0 h = Ok (r, h) /\
    ((r = npos /\ absent_from from c 0) \/
     (r + zlen from <= len s /\ first_at from c 0 r)).
Proof.
  intros W Hc Hfit.
  destruct (wf_content h s W) as (buf & Ecstr & _ & _ & Hl & _).
  pose proof (content_length h s c W Hc) as Hlen.
  destruct (Z.eq_dec (zlen from) 0) as [E0|Hne].
  - exists 0. split.
    + unfold rs_string_find, bind, sv_len. rewrite Ecstr. by zb.
    + right. split; [lia|]. destruct from; [|done].
      split_and!; [lia | apply occurs_nil; lia | intros; lia].
  - apply find_spec; try done; [rng | lia].
Qed.

Lemma replace_first_spec h s from to c :
  heap_ok h -> wf h s -> content s h = Some c ->
  rs_string_cap s <= CAP_LIMIT -> len s <= LIMIT ->
  zlen from <= LIMIT -> zlen to <= LIMIT ->
  (absent_from from c 0 ->
   rs_string_replace_first s from to h = Ok ((0, s), h)) /\
  (forall r,
      first_at from c 0 r -> alloc_ok h ->
      exists s' h',
        rs_string_replace_first s from to h = Ok ((0, s'), h') /\
        wf h' s' /\
        content s' h' =
          Some (take (Z.to_nat r) c ++ to ++ drop (Z.to_nat (r + zlen from)) c)).
Proof.
  intros Hh W Hc Hcap Hlen Hfrom Hto.
  pose proof (content_length h s c W Hc) as Hl.
  assert (0 <= zlen from) by rng. assert (0 <= zlen to) by rng.
  destruct (wf_content h s W) as (buf0 & _ & _ & _ & Hl0 & Hcm0).
  destruct (find_first h s from c W Hc) as (r0 & Efind & Hr0); [zlim|].
  split.
  - intros Habs. destruct Hr0 as [[-> _] | [_ (_ & Ho & _)]].
    + unfold rs_string_replace_first, bind. rewrite Efind. by zb.
    + exfalso. apply (Habs r0); [|done]. by destruct Ho.
  - intros r Hfirst A. destruct Hr0 as [[-> Habs] | [Hb Hfirst0]].
    { exfalso. destruct Hfirst as (? & Ho & _). by apply (Habs r). }
    rewrite (first_at_unique _ _ _ _ _ Hfirst Hfirst0). clear r Hfirst.
    pose proof Hfirst0 as (Hr & _ & _).
    assert (forall s1 h1,
               heap_ok h1 -> wf h1 s1 -> alloc_ok h1 ->
               content s1 h1 = Some c -> len s1 = len s ->
               rs_string_cap s1 <= CAP_LIMIT ->
               exists s' h',
                 (x <- rs_string_erase s1 r0 (sv_len from) ;;
                  let '(_, s) := x in rs_string_insert s r0 to) h1
                 = Ok ((0, s'), h') /\ wf h' s' /\
                 content s' h' =
                   Some (take (Z.to_nat r0) c ++ to
                           ++ drop (Z.to_nat (r0 + zlen from)) c)) as Hrest.
    { intros s1 h1 Hh1 W1 A1 Hc1 Hl1 Hcap1.
      destruct (outcome_ok _ _ _ _ A1
                  (erase_spec h1 s1 r0 (zlen from) _ Hh1 W1 ltac:(lia)
                              ltac:(lia) ltac:(zlim) Hc1))
        as (s2 & h2 & E2 & Hh2 & W2 & A2 & _ & Ct2 & L2 & C2).
      cbv zeta in Ct2, L2. rewrite Z.min_l in Ct2, L2 by lia.
      destruct (outcome_ok _ _ _ _ A2
                  (insert_spec h2 s2 r0 to _ Hh2 W2
                               ltac:(apply roomy_limit; lia)
                               ltac:(lia) ltac:(zlim) Ct2))
        as (s3 & h3 & E3 & Hh3 & W3 & A3 & _ & Ct3 & L3 & C3).
      cbv zeta in Ct3. rewrite Z.min_l in Ct3 by lia.
      exists s3, h3. split_and!; try done.
      - unfold sv_len. unfold bind at 1. by rewrite E2.
      - rewrite Ct3. f_equal.
        pose proof (splice_app [] c to r0 (zlen from)) as Hs.
        cbv zeta in Hs. rewrite !app_nil_l in Hs.
        change (zlen [] + r0) with r0 in Hs.
        rewrite Hs by lia. by rewrite <- app_assoc. }
    assert (r0 <> npos) by zlim.
    destruct (Z.leb_spec (zlen to) (zlen from)) as [Hshort|Hlong].
    + destruct (Hrest s h) as (s' & h' & E & W' & Hc'); try done.
      exists s', h'. split_and!; try done.
      unfold rs_string_replace_first. unfold bind at 1. rewrite Efind.
      unfold sv_len in *. zb. exact E.
    + destruct (outcome_ok _ _ _ _ A
                  (reserve_ex_spec h s (len s + (zlen to - zlen from)) Hh W
                                   ltac:(zlim) ltac:(by apply roomy_limit)))
        as (s1 & h1 & E1 & Hh1 & W1 & A1 & _ & L1 & Ct1 & Hsame & Hgrow).
      assert (rs_string_cap s1
              = cap_after (rs_string_cap s) (len s + (zlen to - zlen from))) as C1.
      { unfold cap_after.
        destruct (Z.leb_spec (len s + (zlen to - zlen from)) (rs_string_cap s))
          as [Hle|Hlt].
        - by destruct (Hsame Hle) as [-> _].
        - by destruct (Hgrow Hlt) as [-> _]. }
      destruct (Hrest s1 h1) as (s' & h' & E & W' & Hc'); try done.
      { congruence. }
      { rewrite C1. apply cap_after_limit; [lia|zlim]. }
      exists s', h'. split_and!; try done.
      unfold rs_string_replace_first. unfold bind at 1. rewrite Efind.
      unfold sv_len in *. zb. hsimpl.
      rewrite (sz_small (zlen to - zlen from)) by zlim.
      rewrite (sz_small (len s + (zlen to - zlen from))) by zlim.
      unfold bind at 1. rewrite E1. cbv beta iota. zb. cbn [negb]. cbv iota.
      exact E.
Qed.

(** What holds of whatever a computation returns. *)
Lemma post_ret {A} (a : A) (P : A -> Prop) : P a -> post (ret a) P.
Proof. intros Ha h a' h' [= <- _]. done. Qed.

Lemma post_fault {A} (P : A -> Prop) : post fault P.
Proof. intros h a h' E. done. Qed.

Lemma post_bind {A B} (c : M A) (k : A -> M B) (P : A -> Prop) (Q : B -> Prop) :
  post c P -> (forall a, P a -> post (k a) Q) -> post (c' <- c ;; k c') Q.
Proof.
  intros Hc Hk h b h' E. unfold bind in E.
  destruct (c h) as [[a h1]|] eqn:Ec; [|done].
  exact (Hk a (Hc h a h1 Ec) h1 b h' E).
Qed.

Lemma post_any {A B} (c : M A) (k : A -> M B) (Q : B -> Prop) :
  (forall a, post (k a) Q) -> post (c' <- c ;; k c') Q.
Proof.
  intros Hk. apply (post_bind c k (fun _ => True)); [done|]. intros a _. apply Hk.
Qed.

Ltac post_step :=
  first [ apply post_ret | apply post_fault
        | apply post_any; intros ? ].

(** What [rs_string_insert] and [rs_string_replace_first] return is a
    status. *)
Lemma insert_status s pos v : post (rs_string_insert s pos v) status.
Proof.
  unfold rs_string_insert.
  apply post_any. intros [e s1].
  destruct (negb (e =? 0)); [apply post_ret; by right|].
  apply post_any. intros [e' s2].
  destruct (negb (e' =? 0)); [apply post_ret; by right|].
  do 4 (apply post_any; intros ?).
  apply post_any. intros s3. apply post_ret. by left.
Qed.

Lemma replace_first_returns s from to :
  post (rs_string_replace_first s from to) status.
Proof.
  unfold rs_string_replace_first.
  apply post_any. intros pos.
  destruct (pos =? npos); [apply post_ret; by left|].
  destruct (sv_len to <=? sv_len from).
  - apply post_any. intros [e s1]. apply insert_status.
  - apply post_any. intros [e s1].
    destruct (negb (e =? 0)); [apply post_ret; by right|].
    apply post_any. intros [e2 s2]. apply insert_status.
Qed.

(** The claim as worded: the value returned tells a replacement from an
    absent [from].  It does not: both runs below return [0]. *)
Lemma replace_first_status_same :
  exists e s1 h1 s2 h2,
    on_text heap0 "abc"
      (fun s => rs_string_replace_first s (bs "x") (bs "y")) = Ok ((e, s1), h1) /\
    content s1 h1 = Some (bs "abc") /\
    on_text heap0 "abc"
      (fun s => rs_string_replace_first s (bs "b") (bs "y")) = Ok ((e, s2), h2) /\
    content s2 h2 = Some (bs "ayc").
Proof.
  eexists _, _, _, _, _. split_and!; vm_compute; reflexivity.
Qed.

(** C2, amended.  What [rs_string_replace_first] returns is a status, [0]
    or [-1].  When no allocation is refused it is [0] in both cases: when
    [from] is absent, the string being left as it is, and when it has
    replaced the first occurrence of [from] by [to]. *)
Theorem replace_first_status h s from to c :
  (forall e s' h',
      rs_string_replace_first s from to h = Ok ((e, s'), h') ->
      e = 0 \/ e = -1) /\
  (heap_ok h -> wf h s -> alloc_ok h -> content s h = Some c ->
   rs_string_cap s <= CAP_LIMIT -> len s <= LIMIT ->
   zlen from <= LIMIT -> zlen to <= LIMIT ->
   exists s' h',
     rs_string_replace_first s from to h = Ok ((0, s'), h') /\
     ((absent_from from c 0 /\ s' = s /\ h' = h) \/
      (exists r,
          first_at from c 0 r /\ wf h' s' /\
          content s' h' =
            Some (take (Z.to_nat r) c ++ to
                    ++ drop (Z.to_nat (r + zlen from)) c)))).
Proof.
  split.
  { intros e s' h' E. exact (replace_first_returns s from to h (e, s') h' E). }
  intros Hh W A Hc Hcap Hlen Hfrom Hto.
  destruct (replace_first_spec h s from to c Hh W Hc Hcap Hlen Hfrom Hto)
    as [Habsent Hpresent].
  destruct (wf_content h s W) as (buf0 & _ & _ & _ & Hl0 & Hcm0).
  destruct (find_first h s from c W Hc) as (r0 & _ & Hr0); [zlim|].
  destruct Hr0 as [[_ Habs] | [_ Hfirst]].
  - exists s, h. split; [by apply Habsent|]. by left.
  - destruct (Hpresent r0 Hfirst A) as (s' & h' & E & W' & Hc').
    exists s', h'. split; [done|]. right. by exists r0.
Qed.

Lemma replace_first_status_witness :
  exists s' h',
    rs_string_replace_first
      (Str 3 0 PSso RS_SSO_CAP (bs "abc" ++ replicate 20 x00))
      (bs "b") (bs "y") heap0 = Ok ((0, s'), h') /\
    ((absent_from (bs "b") (bs "abc") 0 /\
      s' = Str 3 0 PSso RS_SSO_CAP (bs "abc" ++ replicate 20 x00) /\
      h' = heap0) \/
     (exists r,
         first_at (bs "b") (bs "abc") 0 r /\ wf h' s' /\
         content s' h' =
           Some (take (Z.to_nat r) (bs "abc") ++ bs "y"
                   ++ drop (Z.to_nat (r + zlen (bs "b"))) (bs "abc")))).
Proof.
  apply (proj2 (replace_first_status heap0
                  (Str 3 0 PSso RS_SSO_CAP (bs "abc" ++ replicate 20 x00))
                  (bs "b") (bs "y") (bs "abc"))).
  - exact heap0_ok.
  - constructor; [vm_compute; split; discriminate | reflexivity].
  - exact heap0_alloc_ok.
  - reflexivity.
  - vm_compute. discriminate.
  - vm_compute. discriminate.
  - vm_compute. discriminate.
  - vm_compute. discriminate.
Defined.

(** ** Trimming *)













Lemma peek_lookup (p : list byte) (i : Z) (b : byte) :
  0 <= i -> p !! Z.to_nat i = Some b ->
  peek p i = Some (Z.of_N (Byte.to_N b)).
Proof.
  intros Hi Hb. unfold peek.
  pose proof (lookup_lt_Some _ _ _ Hb).
  rewrite in_range_true by rng. by rewrite Hb.
Qed.











(** ** Reserve, construction and sharing *)

(** C6.  A successful [rs_string_reserve (s, need)] leaves length and
    content as they are; it changes nothing at all when [need] is within
    the capacity, and otherwise the new capacity is the larger of [need]
    and [cap + cap / 2 + 1]; the capacity it leaves is never below the
    length. *)
Theorem reserve_frame h s need c s' h' :
  heap_ok h -> wf h s -> content s h = Some c ->
  need <= CAP_MAX -> roomy s ->
  rs_string_reserve s need h = Ok ((0, s'), h') ->
  len s' = len s /\ content s' h' = Some c /\
  (need <= rs_string_cap s ->
   s' = s /\ h' = h /\ rs_string_cap s' = rs_string_cap s) /\
  (rs_string_cap s < need ->
   rs_string_cap s' =
     Z.max need (rs_string_cap s + rs_string_cap s / 2 + 1)) /\
  len s' <= rs_string_cap s' /\ wf h' s'.
Proof.
  intros Hh W Hc Hneed Hroom Erun.
  destruct (reserve_ex_spec h s need Hh W Hneed Hroom)
    as (e & s1 & h1 & E1 & Hh1 & W1 & G1 & Hp1 &
        [[-> (L1 & Ct1 & Hsame & Hgrow)] | (-> & _)]).
  2:{ unfold rs_string_reserve in Erun. rewrite E1 in Erun. done. }
  unfold rs_string_reserve in Erun. rewrite E1 in Erun.
  injection Erun as <- <-.
  destruct (wf_content h1 s1 W1) as (_ & _ & _ & _ & Hl1 & _).
  split_and!; try done; try lia.
  - congruence.
  - intros Hle. destruct (Hsame Hle) as [-> ->]. done.
  - intros Hlt. by destruct (Hgrow Hlt) as [-> _].
Qed.

Lemma reserve_frame_witness :
  let s := Str 3 0 PSso RS_SSO_CAP (bs "abc" ++ replicate 20 x00) in
  exists s' h',
    rs_string_reserve s 40 heap0 = Ok ((0, s'), h') /\
    len s' = len s /\ content s' h' = Some (bs "abc") /\
    (40 <= rs_string_cap s ->
     s' = s /\ h' = heap0 /\ rs_string_cap s' = rs_string_cap s) /\
    (rs_string_cap s < 40 ->
     rs_string_cap s' =
       Z.max 40 (rs_string_cap s + rs_string_cap s / 2 + 1)) /\
    len s' <= rs_string_cap s' /\ wf h' s'.
Proof.
  intros s. eexists _, _. split; [vm_compute; reflexivity|].
  apply (reserve_frame heap0 s 40 (bs "abc")).
  - exact heap0_ok.
  - constructor; [vm_compute; split; discriminate | reflexivity].
  - reflexivity.
  - vm_compute. discriminate.
  - vm_compute. discriminate.
  - vm_compute. reflexivity.
Defined.

(** C10: what the code does.  [rs_string_from_val] of a null pointer or of
    an empty string makes its local the empty inline string and returns it
    by value.  What the caller gets has length [0], the capacity
    [RS_SSO_CAP] and the terminator at index [0] of its inline buffer, and
    the heap is not touched; but its [p] is the address of the inline
    buffer of the local, which is dead: [rs_string_is_heap] is true of it,
    [rs_string_cstr] designates no live bytes, and [rs_string_free] takes
    the bytes before that address for a block header. *)
Theorem from_val_empty_dangles :
  forall s0 h,
    (exists s, rs_string_from_val s0 None h = Ok (s, h) /\
               stale_empty s0 s h) /\
    (exists s, rs_string_from_val s0 (Some []) h = Ok (s, h) /\
               stale_empty s0 s h).
Proof.
  intros s0 h.
  assert (stale_empty s0 (by_value (rs_string_init s0)) h) as Hs.
  { unfold stale_empty. by split_and!. }
  split; exists (by_value (rs_string_init s0)); by split.
Qed.

(** C1: what the code does.  After [rs_string_share (&b, &a)] with [a] on
    the heap, the block of [a] has two owners and a reference count of
    three: the count went up by two.  When both owners have been freed the
    block is still there, with a count of one and no owner. *)
Theorem share_counts_twice :
  exists objs h,
    shared_pair "data is longer than twenty-two" heap0 = Ok (objs, h) /\
    owners 1 objs = 2 /\ rc_of h 1 = Some 3 /\
    exists a b h',
      (a <- lift (objs !! O) ;; a <- rs_string_free a ;;
       b <- lift (objs !! 1%nat) ;; b <- rs_string_free b ;;
       ret (a, b)) h = Ok ((a, b), h') /\
      owners 1 [a; b] = 0 /\ rc_of h' 1 = Some 1.
Proof.
  eexists _, _. split; [vm_compute; reflexivity|].
  split; [reflexivity|]. split; [reflexivity|].
  eexists _, _, _. split; [vm_compute; reflexivity|].
  split; reflexivity.
Qed.

(** C3: what the code does.  [rs_string_from_val] of a string longer than
    the inline buffer, when the allocator refuses the block, writes through
    the null pointer it was given: there is no failure indicator. *)
Theorem from_val_refused_faults :
  rs_string_from_val rs_string_junk
    (Some (bs "data is longer than twenty-two")) heap_oom = Fault.
Proof. vm_compute. reflexivity. Qed.

(** The same for every heap [src] and inline [dst]: the count goes up by
    two. *)
Lemma share_bumps_twice h a blk src dst :
  wf h src -> p src = PHeap a -> blocks h !! a = Some blk ->
  hrc blk + 2 <= SIZE_MAX -> rs_string_is_heap dst = false ->
  exists h',
    rs_string_share 1 0 [src; dst] h = Ok ([src; src], h') /\
    rc_of h' a = Some (hrc blk + 2).
Proof.
  intros W Hp Hblk Hrc Hdst.
  destruct W as [| l o a' c b blk' Ha Hblk' Hc Hrc' Hbuf Hl Hcm Hb]; [done|].
  simpl in Hp. injection Hp as ->. rewrite Hblk in Hblk'. injection Hblk' as <-.
  eexists. split.
  - unfold rs_string_share. rewrite bool_decide_eq_false_2 by done.
    unfold bind at 1. simpl. unfold ret at 1.
    unfold bind at 1. unfold rs_string_free. rewrite Hdst.
    unfold bind at 1. unfold ret at 1 2.
    unfold bind at 1. simpl. unfold ret at 1.
    unfold bind at 1. unfold bind at 1. simpl. unfold ret at 1.
    unfold bind at 1. unfold rs__retain. simpl.
    unfold bind at 1. erewrite rs__rc_inc_run by (done || eassumption).
    unfold ret at 1 2.
    unfold bind at 1. simpl. unfold ret at 1.
    unfold bind at 1. unfold bind at 1.
    erewrite rs__rc_inc_run by first [done | hlook].
    hsimpl. reflexivity.
  - unfold rc_of. hsimpl. rewrite lookup_insert_eq. simpl. f_equal.
    rewrite (sz_small (hrc blk + 1)) by zlia.
    rewrite sz_small by zlia. lia.
Qed.

(** ** Once on the heap, always on the heap *)

Lemma buf_put_heap s buf :
  rs_string_is_heap s = true ->
  post (buf_put s buf) (fun s' => rs_string_is_heap s' = true).
Proof.
  intros Hs. unfold buf_put. destruct (p s) eqn:Ep.
  - unfold rs_string_is_heap in Hs. by rewrite Ep in Hs.
  - apply post_any. intros _. by apply post_ret.
  - apply post_fault.
Qed.

Lemma ensure_unique_heap s a :
  rs_string_is_heap s = true -> post (rs__ensure_unique s a) on_heap.
Proof.
  intros Hs. unfold rs__ensure_unique. rewrite Hs. simpl.
  apply post_any. intros c. destruct (c =? 1); [by apply post_ret|].
  apply post_any. intros cap. apply post_any. intros nh.
  destruct (nh =? 0); [by apply post_ret|].
  do 7 (apply post_any; intros ?). by apply post_ret.
Qed.

Lemma reserve_ex_heap s need a :
  rs_string_is_heap s = true -> post (rs_string_reserve_ex s need a) on_heap.
Proof.
  intros Hs. unfold rs_string_reserve_ex.
  destruct (need <=? rs_string_cap s); [by apply post_ret|].
  eapply post_bind; [by apply ensure_unique_heap|].
  intros [e s1] H1. unfold on_heap in H1. simpl in H1.
  destruct (negb (e =? 0)); [by apply post_ret|]. rewrite H1.
  apply post_any. intros nh. destruct (nh =? 0); [by apply post_ret|].
  apply post_any. intros _. by apply post_ret.
Qed.

(** The prefix of the mutating operations. *)
Lemma ensure_ready_heap s need a (k : rs_string -> M (Z * rs_string)) :
  rs_string_is_heap s = true ->
  (forall s2, rs_string_is_heap s2 = true -> post (k s2) on_heap) ->
  post (x <- rs_string_reserve_ex s need a ;;
        let '(e, s) := x in
        if negb (e =? 0) then ret (-1, s) else
        x <- rs__ensure_unique s a ;;
        let '(e, s) := x in
        if negb (e =? 0) then ret (-1, s) else
        k s) on_heap.
Proof.
  intros Hs Hk.
  eapply post_bind; [by apply reserve_ex_heap|].
  intros [e s1] H1. unfold on_heap in H1. simpl in H1.
  destruct (negb (e =? 0)); [by apply post_ret|].
  eapply post_bind; [by apply ensure_unique_heap|].
  intros [e' s2] H2. unfold on_heap in H2. simpl in H2.
  destruct (negb (e' =? 0)); [by apply post_ret|]. by apply Hk.
Qed.

Lemma assign_heap s v :
  rs_string_is_heap s = true -> post (rs_string_assign s v) on_heap.
Proof.
  intros Hs. unfold rs_string_assign. apply ensure_ready_heap; [done|].
  intros s2 H2. do 3 (apply post_any; intros ?).
  eapply post_bind; [by apply buf_put_heap|].
  intros s3 H3. by apply post_ret.
Qed.

Lemma append_heap s v :
  rs_string_is_heap s = true -> post (rs_string_append s v) on_heap.
Proof.
  intros Hs. unfold rs_string_append. apply ensure_ready_heap; [done|].
  intros s2 H2. do 3 (apply post_any; intros ?).
  eapply post_bind; [by apply buf_put_heap|].
  intros s3 H3. by apply post_ret.
Qed.

Lemma insert_heap s pos v :
  rs_string_is_heap s = true -> post (rs_string_insert s pos v) on_heap.
Proof.
  intros Hs. unfold rs_string_insert. apply ensure_ready_heap; [done|].
  intros s2 H2. do 4 (apply post_any; intros ?).
  eapply post_bind; [by apply buf_put_heap|].
  intros s3 H3. by apply post_ret.
Qed.

Lemma erase_heap s pos n :
  rs_string_is_heap s = true -> post (rs_string_erase s pos n) on_heap.
Proof.
  intros Hs. unfold rs_string_erase.
  destruct (len s <? pos); [by apply post_ret|].
  eapply post_bind; [by apply ensure_unique_heap|].
  intros [e s1] H1. unfold on_heap in H1. simpl in H1.
  destruct (negb (e =? 0)); [by apply post_ret|].
  do 2 (apply post_any; intros ?).
  eapply post_bind; [by apply buf_put_heap|].
  intros s3 H3. by apply post_ret.
Qed.

Lemma trim_left_heap s :
  rs_string_is_heap s = true -> post (rs_string_trim_left s) on_heap.
Proof.
  intros Hs. unfold rs_string_trim_left.
  do 2 (apply post_any; intros ?).
  destruct (_ =? 0); [by apply post_ret | by apply erase_heap].
Qed.

Lemma trim_right_heap s :
  rs_string_is_heap s = true -> post (rs_string_trim_right s) on_heap.
Proof.
  intros Hs. unfold rs_string_trim_right.
  destruct (len s =? 0); [by apply post_ret|].
  do 2 (apply post_any; intros ?).
  destruct (_ =? len s); [by apply post_ret | by apply erase_heap].
Qed.

Lemma trim_heap s :
  rs_string_is_heap s = true -> post (rs_string_trim s) on_heap.
Proof.
  intros Hs. unfold rs_string_trim.
  eapply post_bind; [by apply trim_right_heap|].
  intros [e s1] H1. by apply trim_left_heap.
Qed.

Lemma replace_first_heap s from to :
  rs_string_is_heap s = true -> post (rs_string_replace_first s from to) on_heap.
Proof.
  intros Hs. unfold rs_string_replace_first.
  apply post_any. intros pos. destruct (pos =? npos); [by apply post_ret|].
  destruct (sv_len to <=? sv_len from).
  - eapply post_bind; [by apply erase_heap|].
    intros [e s1] H1. by apply insert_heap.
  - eapply post_bind; [by apply reserve_ex_heap|].
    intros [e s1] H1. unfold on_heap in H1. simpl in H1.
    destruct (negb (e =? 0)); [by apply post_ret|].
    eapply post_bind; [by apply erase_heap|].
    intros [e2 s2] H2. by apply insert_heap.
Qed.

Lemma replace_all_iter_heap s from to i count :
  rs_string_is_heap s = true ->
  post (replace_all_iter s from to i count) iter_on_heap.
Proof.
  intros Hs. unfold replace_all_iter.
  apply post_any. intros pos. destruct (pos =? npos); [by apply post_ret|].
  eapply post_bind; [by apply erase_heap|].
  intros [e s1] H1.
  eapply post_bind; [by apply insert_heap|].
  intros [e2 s2] H2. apply post_any. intros c. by apply post_ret.
Qed.

Lemma replace_all_loop_heap fuel :
  forall s from to i count,
    rs_string_is_heap s = true ->
    post (replace_all_loop fuel s from to i count) result_on_heap.
Proof.
  induction fuel as [|fuel IH]; intros s from to i count Hs; simpl.
  - by apply post_ret.
  - eapply post_bind; [by apply replace_all_iter_heap|].
    intros [[c s1] | [[s1 i1] c1]] H1; simpl in H1.
    + by apply post_ret.
    + by apply IH.
Qed.

Lemma replace_all_heap fuel s from to :
  rs_string_is_heap s = true ->
  post (rs_string_replace_all fuel s from to) result_on_heap.
Proof.
  intros Hs. unfold rs_string_replace_all.
  destruct (sv_len from =? 0); [by apply post_ret|].
  by apply replace_all_loop_heap.
Qed.

Lemma vprintf_heap s out :
  rs_string_is_heap s = true -> post (rs_string_vprintf s out) on_heap.
Proof.
  intros Hs. unfold rs_string_vprintf.
  destruct (vsnprintf_ret out <? 0); [by apply post_ret|].
  apply ensure_ready_heap; [done|].
  intros s2 H2. do 2 (apply post_any; intros ?).
  eapply post_bind; [by apply buf_put_heap|].
  intros s3 H3. apply post_ret. unfold on_heap. simpl.
  by destruct (0 <=? vsnprintf_ret out).
Qed.

Lemma exec_heap o s :
  rs_string_is_heap s = true ->
  post (exec o s) (fun s' => rs_string_is_heap s' = true).
Proof.
  intros Hs.
  assert (forall c : M (Z * rs_string),
             post c on_heap ->
             post (x <- c ;; ret (snd x))
                  (fun s' => rs_string_is_heap s' = true)) as Hsnd.
  { intros c Hc. eapply post_bind; [exact Hc|].
    intros x Hx. by apply post_ret. }
  destruct o; simpl; try (apply post_any; intros ?; by apply post_ret).
  - by apply Hsnd, reserve_ex_heap.
  - by apply Hsnd, ensure_unique_heap.
  - by apply Hsnd, assign_heap.
  - by apply Hsnd, assign_heap.
  - by apply Hsnd, append_heap.
  - by apply Hsnd, append_heap.
  - by apply Hsnd, append_heap.
  - by apply Hsnd, insert_heap.
  - by apply Hsnd, erase_heap.
  - by apply Hsnd, trim_left_heap.
  - by apply Hsnd, trim_right_heap.
  - by apply Hsnd, trim_heap.
  - by apply Hsnd, replace_first_heap.
  - eapply post_bind; [by apply replace_all_heap|].
    intros [[c s1]|] H1; [by apply post_ret | apply post_fault].
  - by apply Hsnd, vprintf_heap.
Qed.

(** C7.  An object that is on the heap is still on the heap after any
    sequence of operations other than its release, also when
    [rs_string_erase] or [rs_string_assign] have cut the content down to
    what the inline buffer could hold. *)
Theorem heap_stays (os : list op) :
  forall s h s' h',
    rs_string_is_heap s = true ->
    exec_all os s h = Ok (s', h') ->
    rs_string_is_heap s' = true.
Proof.
  induction os as [|o os IH]; intros s h s' h' Hs E; simpl in E.
  - by injection E as <- _.
  - unfold bind in E. destruct (exec o s h) as [[s1 h1]|] eqn:E1; [|done].
    apply (IH s1 h1 s' h'); [|done].
    exact (exec_heap o s Hs h s1 h1 E1).
Qed.

Example long_string_made :
  rs_string_from_val rs_string_junk
    (Some (bs "data is longer than twenty-two")) heap0
  = Ok (long_string, long_heap).
Proof. vm_compute. reflexivity. Qed.

Lemma heap_stays_witness :
  exists s' h',
    exec_all [Erase 2 100; Assign (bs "x"); Clear; Trim] long_string long_heap
    = Ok (s', h') /\
    len s' = 0 /\ rs_string_is_heap s' = true.
Proof.
  eexists _, _. split; [vm_compute; reflexivity|]. split; [reflexivity|].
  eapply (heap_stays [Erase 2 100; Assign (bs "x"); Clear; Trim]
                     long_string long_heap).
  - reflexivity.
  - vm_compute. reflexivity.
Defined.

(** ** Splitting *)

Lemma pieces_skip sep k cur c :
  pieces sep k cur c = pieces sep 0 cur (drop k c).
Proof.
  revert k. induction c as [|b c IH]; intros [|k]; simpl; try done.
Qed.

Lemma pieces_here sep cur c :
  sep <> [] -> take (length sep) c = sep ->
  pieces sep 0 cur c = cur :: pieces sep 0 [] (drop (length sep) c).
Proof.
  intros Hne Hp. destruct c as [|b c].
  { rewrite take_nil in Hp. by subst. }
  cbn [pieces]. rewrite bool_decide_eq_true_2 by done.
  rewrite pieces_skip. do 2 f_equal.
  destruct sep; [done|]. simpl. by rewrite Nat.sub_0_r.
Qed.

Lemma pieces_before sep (k : nat) cur c :
  (forall j : nat, (j < k)%nat -> take (length sep) (drop j c) <> sep) ->
  (k <= length c)%nat ->
  pieces sep 0 cur c = pieces sep 0 (cur ++ take k c) (drop k c).
Proof.
  revert cur c. induction k as [|k IH]; intros cur c Hno Hk.
  { simpl. by rewrite app_nil_r. }
  destruct c as [|b c]; [simpl in Hk; lia|].
  cbn [pieces]. rewrite bool_decide_eq_false_2 by (apply (Hno 0%nat); lia).
  simpl. rewrite IH.
  - by rewrite <- app_assoc.
  - intros j Hj. apply (Hno (S j)). lia.
  - simpl in Hk. lia.
Qed.

Lemma pieces_first sep c r :
  0 < zlen sep -> first_at sep c 0 r ->
  pieces sep 0 [] c =
    take (Z.to_nat r) c :: pieces sep 0 [] (drop (Z.to_nat (r + zlen sep)) c).
Proof.
  intros Hw (Hr & Ho & Hno).
  assert (sep <> []) as Hne by (intros ->; unfold zlen in Hw; simpl in Hw; lia).
  assert (forall j : nat, (j < Z.to_nat r)%nat ->
            take (length sep) (drop j c) <> sep) as Hno'.
  { intros j Hj E. apply (Hno (Z.of_nat j)); [lia|].
    apply occurs_take; [done|lia|]. by rewrite Nat2Z.id. }
  pose proof (occurs_bound _ _ _ Ho) as Hb.
  apply occurs_take in Ho; [|done|lia].
  replace (Z.to_nat (r + zlen sep)) with (Z.to_nat r + length sep)%nat
    by (unfold zlen; lia).
  rewrite <- !drop_drop.
  rewrite (pieces_before sep (Z.to_nat r) [] c Hno') by rng.
  by rewrite (pieces_here sep _ _ Hne Ho).
Qed.

Lemma pieces_absent sep c :
  0 < zlen sep -> absent_from sep c 0 -> pieces sep 0 [] c = [c].
Proof.
  intros Hw Hno.
  assert (forall j : nat, (j < length c)%nat ->
            take (length sep) (drop j c) <> sep) as Hno'.
  { intros j Hj E. apply (Hno (Z.of_nat j)); [lia|].
    apply occurs_take; [done|lia|]. by rewrite Nat2Z.id. }
  rewrite (pieces_before sep (length c) [] c Hno') by lia.
  by rewrite firstn_all, drop_all.
Qed.

Lemma first_at_drop what (s : list byte) i r :
  0 <= i <= zlen s -> first_at what s i r ->
  first_at what (drop (Z.to_nat i) s) 0 (r - i).
Proof.
  intros Hi Hf.
  assert (zlen (take (Z.to_nat i) s) = i) as Hdone by rng.
  pose proof (first_at_shift what (take (Z.to_nat i) s) (drop (Z.to_nat i) s) r)
    as Hs.
  rewrite take_drop, Hdone in Hs. by apply Hs.
Qed.

Lemma absent_from_drop what (s : list byte) i :
  0 <= i <= zlen s -> absent_from what s i ->
  absent_from what (drop (Z.to_nat i) s) 0.
Proof.
  intros Hi Hf.
  assert (zlen (take (Z.to_nat i) s) = i) as Hdone by rng.
  pose proof (absent_from_shift what (take (Z.to_nat i) s) (drop (Z.to_nat i) s))
    as Hs.
  rewrite take_drop, Hdone in Hs. by apply Hs.
Qed.

(** [split_scan] is the loop of [rs_string_find]. *)
Lemma split_scan_find fuel s sep j :
  split_scan fuel s sep j = find_loop fuel s sep (sv_len s) j.
Proof.
  revert j. induction fuel as [|fuel IH]; intros j; simpl; [done|].
  destruct (sz (j + sv_len sep) <=? sv_len s); [|done].
  destruct (memcmp_eq s j sep (sv_len sep)) as [[|]|]; try done.
Qed.

Lemma split_loop_spec {C} (s sep : list byte) (keep : bool)
    (cb : rs_sv -> C -> C) :
  0 < zlen sep -> zlen s + zlen sep <= SIZE_MAX ->
  forall (fuel : nat) (i : Z) (ctx : C),
    0 <= i <= zlen s -> (Z.to_nat (zlen s - i) < fuel)%nat ->
    split_loop fuel s sep keep cb i ctx =
      Some (visit cb (kept keep (pieces sep 0 [] (drop (Z.to_nat i) s))) ctx).
Proof.
  intros Hw Hfit. induction fuel as [|fuel IH]; intros i ctx Hi Hfuel; [lia|].
  cbn [split_loop]. unfold sv_len. zb.
  rewrite split_scan_find. unfold sv_len.
  destruct (find_loop_spec s sep (zlen s) Hw ltac:(lia) Hfit
              (length s + 2)%nat i Hi ltac:(rng))
    as (r0 & -> & Hr0).
  replace (take (Z.to_nat (zlen s)) s) with s in Hr0
    by (unfold zlen; by rewrite Nat2Z.id, firstn_all).
  set (rest := drop (Z.to_nat i) s).
  assert (zlen rest = zlen s - i) as Hrest by (unfold rest; rng).
  destruct Hr0 as [[-> Habs] | [Hb Hfirst]].
  - apply absent_from_drop in Habs; [|done]. fold rest in Habs.
    rewrite (pieces_absent sep rest Hw Habs).
    zb. rewrite (sz_small (zlen s - i)) by zlia.
    replace (bytes_at s i (zlen s - i)) with rest.
    2:{ unfold bytes_at, rest. rewrite take_ge; [done|rng]. }
    f_equal. unfold visit, kept. destruct keep; simpl.
    + by rewrite orb_true_r.
    + rewrite orb_false_r. destruct rest as [|b rest'] eqn:Er.
      * replace (zlen s - i) with 0 by (unfold zlen in *; simpl in *; lia). done.
      * rewrite (proj2 (Z.ltb_lt 0 (zlen s - i)))
          by (unfold zlen in *; simpl in *; lia).
        done.
  - pose proof Hfirst as (Hle & _ & _).
    apply first_at_drop in Hfirst; [|done]. fold rest in Hfirst.
    set (r := r0 - i) in Hfirst.
    pose proof Hfirst as (Hr & Ho & _). apply occurs_bound in Ho.
    rewrite (pieces_first sep rest r Hw Hfirst).
    assert (r0 <> npos) by zlia. zb.
    rewrite (sz_small (r0 - i)), (sz_small (r0 + zlen sep)) by zlia.
    replace (bytes_at s i (r0 - i)) with (take (Z.to_nat r) rest).
    2:{ unfold bytes_at, rest, r. done. }
    assert (drop (Z.to_nat (r + zlen sep)) rest
            = drop (Z.to_nat (r0 + zlen sep)) s) as Edrop.
    { unfold rest. rewrite drop_drop. f_equal. unfold r. lia. }
    rewrite Edrop.
    assert (forall ctx0 : C,
               (if (0 <? r0 - i) || keep
                then cb (take (Z.to_nat r) rest) ctx0 else ctx0)
               = visit cb (kept keep [take (Z.to_nat r) rest]) ctx0) as Etok.
    { intros ctx0. unfold visit, kept. destruct keep; simpl.
      - by rewrite orb_true_r.
      - rewrite orb_false_r. destruct (take (Z.to_nat r) rest) as [|b t] eqn:Et.
        + apply (f_equal length) in Et. rewrite length_take in Et.
          simpl in Et. rewrite (proj2 (Z.ltb_ge 0 (r0 - i))); [done|].
          unfold zlen in *. unfold r in *. lia.
        + apply (f_equal length) in Et. rewrite length_take in Et.
          simpl in Et. rewrite (proj2 (Z.ltb_lt 0 (r0 - i))); [done|].
          unfold r in *. lia. }
    assert (forall rest' : list (list byte),
               visit cb (kept keep (take (Z.to_nat r) rest :: rest')) ctx
               = visit cb (kept keep rest')
                       (visit cb (kept keep [take (Z.to_nat r) rest]) ctx))
      as Ecat.
    { intros rest'. unfold visit, kept. destruct keep; simpl; [done|].
      destruct (nonempty (take (Z.to_nat r) rest)) eqn:En.
      - rewrite !filter_cons_True by (by rewrite En). done.
      - rewrite !filter_cons_False by (by rewrite En). done. }
    rewrite Ecat, Etok.
    destruct (Z.eqb_spec (r0 + zlen sep) (zlen s)) as [Eend|Hmore];
      [destruct keep|]; cbn [andb].
    + rewrite drop_ge by rng. simpl. done.
    + rewrite IH by lia. done.
    + rewrite IH by lia. done.
Qed.

Lemma split_spec {C} fuel (s sep : list byte) keep (cb : rs_sv -> C -> C) ctx :
  zlen s + zlen sep <= SIZE_MAX -> (length s < fuel)%nat ->
  rs_sv_split fuel s sep keep (Some cb) ctx =
    Some (visit cb (tokens sep keep s) ctx).
Proof.
  intros Hfit Hfuel. unfold rs_sv_split, tokens, sv_len.
  destruct sep as [|b sep].
  - change (zlen [] =? 0) with true. cbv iota. f_equal.
    destruct s as [|a s].
    + by destruct keep.
    + rewrite (proj2 (Z.ltb_lt 0 (zlen (a :: s)))) by rng. done.
  - rewrite (proj2 (Z.eqb_neq (zlen (b :: sep)) 0)) by rng.
    rewrite (split_loop_spec s (b :: sep) keep cb) by rng.
    by destruct keep.
Qed.

Lemma visit_collect toks acc : visit cb_collect toks acc = acc ++ toks.
Proof.
  revert acc. induction toks as [|t toks IH]; intros acc; simpl.
  - by rewrite app_nil_r.
  - unfold visit in *. simpl. rewrite IH. unfold cb_collect.
    by rewrite <- app_assoc.
Qed.

Lemma pieces_terminal sep s r :
  0 < zlen sep -> first_at sep s 0 r -> r + zlen sep = zlen s ->
  pieces sep 0 [] s = [take (Z.to_nat r) s; []].
Proof.
  intros Hw Hf Hend. rewrite (pieces_first sep s r Hw Hf).
  rewrite drop_ge by rng. done.
Qed.

(** C5.  With a visitor, [rs_sv_split] visits, in order, the tokens
    [tokens] describes: the pieces between the occurrences of the separator
    found from left to right without overlap; all of them with
    [keep_empty], those that are not empty without.  With an empty
    separator it visits the whole input once, when the input is not empty
    or [keep_empty] is set.  A separator at the very end leaves an empty
    last token, visited with [keep_empty] only.  ["a,,b,"] split at [","]
    gives ["a"], [""], ["b"], [""] with [keep_empty] and ["a"], ["b"]
    without. *)
Theorem split_tokens :
  (forall fuel (s sep : list byte) keep,
      zlen s + zlen sep <= SIZE_MAX -> (length s < fuel)%nat ->
      rs_sv_split fuel s sep keep (Some cb_collect) [] =
        Some (tokens sep keep s)) /\
  (forall (s : list byte) keep,
      tokens [] keep s = if nonempty s || keep then [s] else []) /\
  (forall (sep s : list byte),
      sep <> [] ->
      tokens sep false s =
        filter (fun t => nonempty t = true) (tokens sep true s)) /\
  (forall (sep s : list byte) r,
      0 < zlen sep -> first_at sep s 0 r -> r + zlen sep = zlen s ->
      tokens sep true s = [take (Z.to_nat r) s; []] /\
      tokens sep false s =
        filter (fun t => nonempty t = true) [take (Z.to_nat r) s]) /\
  rs_sv_split 6 (bs "a,,b,") (bs ",") true (Some cb_collect) []
    = Some [bs "a"; []; bs "b"; []] /\
  rs_sv_split 6 (bs "a,,b,") (bs ",") false (Some cb_collect) []
    = Some [bs "a"; bs "b"] /\
  rs_sv_split 6 (bs "a,,b,") (bs ",") true (Some cb_count) (Some 0)
    = Some (Some 4).
Proof.
  split_and!.
  - intros fuel s sep keep Hfit Hfuel.
    pose proof (split_spec fuel s sep keep cb_collect [] Hfit Hfuel) as E.
    rewrite visit_collect in E. exact E.
  - done.
  - intros sep s Hne. unfold tokens. by destruct sep.
  - intros sep s r Hw Hf Hend. unfold tokens.
    destruct sep as [|b sep]; [done|].
    by rewrite (pieces_terminal _ _ _ Hw Hf Hend).
  - vm_compute. reflexivity.
  - vm_compute. reflexivity.
  - vm_compute. reflexivity.
Qed.

Lemma split_tokens_witness :
  rs_sv_split 5 (bs "k=v;") (bs ";") true (Some cb_collect) [] =
    Some (tokens (bs ";") true (bs "k=v;")).
Proof.
  apply (proj1 split_tokens 5%nat (bs "k=v;") (bs ";") true).
  - vm_compute. discriminate.
  - simpl. lia.
Defined.

(** ** Refused allocations *)

(** A status other than [0] is [-1], and length and content are those from
    before the call. *)
Lemma outcome_refused h s run Q e s' h' :
  outcome h s run Q -> run = Ok ((e, s'), h') -> e <> 0 ->
  e = -1 /\ len s' = len s /\ content s' h' = content s h.
Proof.
  intros (e1 & s1 & h1 & E1 & _ & _ & _ & _ & Hcase) E Hne.
  rewrite E1 in E. injection E as -> -> ->.
  destruct Hcase as [[-> _] | (-> & ? & ? & _)]; done.
Qed.

Lemma vprintf_refused h s out e s' h' :
  heap_ok h -> wf h s -> roomy s ->
  rs_string_vprintf s out h = Ok ((e, s'), h') -> e < 0 ->
  e = -1 /\ len s' = len s /\ content s' h' = content s h.
Proof.
  intros Hh W Hroom E Hneg. unfold rs_string_vprintf in E.
  assert (vsnprintf_ret out <= INT_MAX) as Hret.
  { unfold vsnprintf_ret. destruct out as [o|]; [|zlia].
    destruct (Z.leb_spec (zlen o) INT_MAX); zlia. }
  destruct (Z.ltb_spec (vsnprintf_ret out) 0) as [Hbad|Hgood].
  { by injection E as <- <- <-. }
  destruct (reserve_ex_spec h s (vsnprintf_ret out) Hh W ltac:(zlia) Hroom)
    as (e1 & s1 & h1 & E1 & Hh1 & W1 & G1 & Hp1 &
        [[-> (L1 & Ct1 & _)] | (-> & L1 & Ct1 & N1)]);
    unfold bind at 1 in E; rewrite E1 in E; cbv beta iota in E.
  2:{ by injection E as <- <- <-. }
  cbn [negb Z.eqb] in E. cbv iota in E.
  destruct (ensure_unique_spec h1 s1 Hh1 W1)
    as (e2 & s2 & h2 & E2 & Hh2 & W2 & G2 & Hp2 &
        [[-> (L2 & C2 & I2 & Ct2 & U2)] | (-> & L2 & Ct2 & N2)]);
    unfold bind at 1 in E; rewrite E2 in E; cbv beta iota in E.
  2:{ injection E as <- <- <-. split_and!; congruence. }
  cbn [negb Z.eqb] in E. cbv iota in E. exfalso.
  unfold bind in E.
  destruct (rs_string_cstr s2 h2) as [[buf h3]|]; [|done].
  destruct (lift (vsnprintf_to buf (vsnprintf_ret out + 1) (default [] out)) h3)
    as [[buf' h4]|]; [|done].
  destruct (buf_put s2 buf' h4) as [[s3 h5]|]; [|done].
  injection E as <- _ _. lia.
Qed.

(** The operations that check what the allocator returns keep the failure
    contract: when one of them returns a status other than [0], the status
    is [-1] and length and content are unchanged. *)
Lemma refused_keeps_content h s e s' h' :
  heap_ok h -> wf h s -> roomy s ->
  (forall need,
      need <= CAP_MAX ->
      rs_string_reserve_ex s need rs_default_alloc h = Ok ((e, s'), h') ->
      e <> 0 -> e = -1 /\ len s' = len s /\ content s' h' = content s h) /\
  (rs__ensure_unique s rs_default_alloc h = Ok ((e, s'), h') ->
   e <> 0 -> e = -1 /\ len s' = len s /\ content s' h' = content s h) /\
  (forall v,
      zlen v <= CAP_MAX ->
      rs_string_assign s v h = Ok ((e, s'), h') ->
      e <> 0 -> e = -1 /\ len s' = len s /\ content s' h' = content s h) /\
  (forall v,
      len s + zlen v <= CAP_MAX ->
      rs_string_append s v h = Ok ((e, s'), h') ->
      e <> 0 -> e = -1 /\ len s' = len s /\ content s' h' = content s h) /\
  (forall pos v,
      0 <= pos -> len s + zlen v <= CAP_MAX ->
      rs_string_insert s pos v h = Ok ((e, s'), h') ->
      e <> 0 -> e = -1 /\ len s' = len s /\ content s' h' = content s h) /\
  (forall pos n,
      0 <= pos <= len s -> 0 <= n -> pos + n <= SIZE_MAX ->
      rs_string_erase s pos n h = Ok ((e, s'), h') ->
      e <> 0 -> e = -1 /\ len s' = len s /\ content s' h' = content s h) /\
  (forall out,
      rs_string_vprintf s out h = Ok ((e, s'), h') ->
      e < 0 -> e = -1 /\ len s' = len s /\ content s' h' = content s h).
Proof.
  intros Hh W Hroom.
  destruct (wf_content h s W) as (buf & _ & Hc & _).
  split_and!.
  - intros need Hneed.
    exact (outcome_refused _ _ _ _ _ _ _ (reserve_ex_spec h s need Hh W Hneed Hroom)).
  - exact (outcome_refused _ _ _ _ _ _ _ (ensure_unique_spec h s Hh W)).
  - intros v Hv.
    exact (outcome_refused _ _ _ _ _ _ _ (assign_spec h s v Hh W Hroom Hv)).
  - intros v Hv.
    exact (outcome_refused _ _ _ _ _ _ _ (append_spec h s v _ Hh W Hroom Hv Hc)).
  - intros pos v Hpos Hv.
    exact (outcome_refused _ _ _ _ _ _ _
             (insert_spec h s pos v _ Hh W Hroom Hpos Hv Hc)).
  - intros pos n Hpos Hn Hfit.
    exact (outcome_refused _ _ _ _ _ _ _
             (erase_spec h s pos n _ Hh W Hpos Hn Hfit Hc)).
  - intros out. by apply vprintf_refused.
Qed.

Lemma replace_all_iter_refused t count :
  replace_all_iter shared_a (bs "a") [] 0 count (refusing_heap t) =
    (c <- int_incr count ;; ret (inr (shared_a, 0, c)))
      (refusing_heap (S (S t))).
Proof.
  unfold replace_all_iter.
  unfold bind at 1.
  replace (rs_string_find shared_a (bs "a") 0 (refusing_heap t))
    with (Ok (0, refusing_heap t)) by (vm_compute; reflexivity).
  cbv beta iota. change (0 =? npos) with false. cbv iota.
  unfold bind at 1.
  replace (rs_string_erase shared_a 0 (sv_len (bs "a")) (refusing_heap t))
    with (Ok ((-1, shared_a), refusing_heap (S t))) by (vm_compute; reflexivity).
  cbv beta iota.
  unfold bind at 1.
  replace (rs_string_insert shared_a 0 [] (refusing_heap (S t)))
    with (Ok ((-1, shared_a), refusing_heap (S (S t)))) by (vm_compute; reflexivity).
  cbv beta iota. reflexivity.
Qed.

Lemma replace_all_refused_stalls fuel :
  forall t count res h',
    replace_all_loop fuel shared_a (bs "a") [] 0 count (refusing_heap t)
    <> Ok (Some res, h').
Proof.
  induction fuel as [|fuel IH]; intros t count res h'; [done|].
  cbn [replace_all_loop]. unfold bind at 1.
  rewrite replace_all_iter_refused. unfold bind at 1, int_incr.
  destruct (count <? INT_MAX); [|done]. apply IH.
Qed.







(** * Further properties of the code *)

(** ** Concrete objects *)

Ltac decided :=
  first [ vm_compute; repeat split; first [reflexivity | discriminate]
        | vm_compute; lia ].

Lemma abc_wf h : wf h abc_string.
Proof. constructor; [vm_compute; split; discriminate | reflexivity]. Qed.

Lemma abc_content h : content abc_string h = Some (bs "abc").
Proof. reflexivity. Qed.

Lemma long_heap_ok : heap_ok long_heap.
Proof.
  split; [done|]. intros a Ha. apply lookup_singleton_ne.
  cbn [next long_heap] in Ha. lia.
Qed.

Lemma long_alloc_ok : alloc_ok long_heap.
Proof. by intros n. Qed.

Lemma long_wf : wf long_heap long_string.
Proof.
  eapply wf_heap with (blk := Hdr 30 1 _);
    [done | apply lookup_singleton_eq | reflexivity | cbn; lia
    | reflexivity | lia | vm_compute; discriminate | reflexivity].
Qed.

Lemma long_content :
  content long_string long_heap = Some (bs "data is longer than twenty-two").
Proof. reflexivity. Qed.

(** ** Sub-views *)

(** X1.  [rs_sv_substr] clamps: when [pos + n] is representable, the view it
    returns lies inside [s] and designates the bytes of [s] from [pos] on,
    at most [n] of them; a [pos] behind the end gives the empty view at the
    end. *)
Theorem substr_within (s : rs_sv) (pos n : Z) :
  zlen s <= SIZE_MAX -> 0 <= pos -> 0 <= n ->
  Z.min pos (zlen s) + n <= SIZE_MAX ->
  fst (rs_sv_substr s pos n) = Z.min pos (zlen s) /\
  snd (rs_sv_substr s pos n) = Z.min n (zlen s - Z.min pos (zlen s)) /\
  in_range (fst (rs_sv_substr s pos n)) (snd (rs_sv_substr s pos n)) s = true /\
  bytes_at s (fst (rs_sv_substr s pos n)) (snd (rs_sv_substr s pos n)) =
    take (Z.to_nat n) (drop (Z.to_nat pos) s).
Proof.
  intros Hs Hpos Hn Hfit. unfold rs_sv_substr, sv_len. cbn [fst snd].
  assert (Eo : (if zlen s <? pos then zlen s else pos) = Z.min pos (zlen s)).
  { destruct (Z.ltb_spec (zlen s) pos); lia. }
  rewrite Eo. set (o := Z.min pos (zlen s)) in *.
  assert (Ek : (if zlen s <? sz (o + n) then sz (zlen s - o) else n) =
               Z.min n (zlen s - o)).
  { rewrite (sz_small (o + n)) by (unfold zlen in *; lia).
    destruct (Z.ltb_spec (zlen s) (o + n)).
    - rewrite sz_small by (unfold zlen in *; lia). lia.
    - lia. }
  rewrite Ek. split; [done|]. split; [done|]. split.
  - apply in_range_true; unfold zlen in *; lia.
  - unfold bytes_at, zlen in *.
    destruct (Z.le_gt_cases pos (Z.of_nat (length s))) as [Hin|Hout].
    + replace o with pos by lia.
      destruct (Z.le_gt_cases n (Z.of_nat (length s) - pos)).
      * f_equal. lia.
      * rewrite !take_ge; [done | | ]; rewrite length_drop; lia.
    + replace (Z.to_nat (Z.min n (Z.of_nat (length s) - o))) with 0%nat by lia.
      rewrite (drop_ge s (Z.to_nat pos)) by lia. by rewrite take_nil.
Qed.

Lemma substr_within_witness :
  fst (rs_sv_substr (bs "hello") 1 3) = Z.min 1 (zlen (bs "hello")) /\
  snd (rs_sv_substr (bs "hello") 1 3) =
    Z.min 3 (zlen (bs "hello") - Z.min 1 (zlen (bs "hello"))) /\
  in_range (fst (rs_sv_substr (bs "hello") 1 3))
           (snd (rs_sv_substr (bs "hello") 1 3)) (bs "hello") = true /\
  bytes_at (bs "hello") (fst (rs_sv_substr (bs "hello") 1 3))
           (snd (rs_sv_substr (bs "hello") 1 3)) =
    take (Z.to_nat 3) (drop (Z.to_nat 1) (bs "hello")).
Proof.
  apply (substr_within (bs "hello") 1 3); decided.
Defined.

(** X2.  [rs_sv_substr] does not clamp when [pos + n] wraps around: for
    [0 < pos <= s.len] and [n] so large that [pos + n] passes [SIZE_MAX],
    the view it returns keeps the length [n] and runs past the end of
    [s]. *)
Theorem substr_overruns (s : rs_sv) (pos n : Z) :
  zlen s <= SIZE_MAX -> 0 < pos <= zlen s -> n <= SIZE_MAX ->
  SIZE_MAX < pos + n ->
  rs_sv_substr s pos n = (pos, n) /\
  zlen s < pos + n /\ in_range pos n s = false.
Proof.
  intros Hs Hpos Hn Hwrap. unfold rs_sv_substr, sv_len.
  assert (E1 : (zlen s <? pos) = false) by (apply Z.ltb_ge; lia).
  rewrite E1.
  assert (E2 : sz (pos + n) = pos + n - 2 ^ 64).
  { unfold sz. rewrite SIZE_MAX_eq in *.
    symmetry. apply (Z.mod_unique_pos _ _ 1); lia. }
  rewrite E2.
  assert (E3 : (zlen s <? pos + n - 2 ^ 64) = false).
  { apply Z.ltb_ge. rewrite SIZE_MAX_eq in *. lia. }
  rewrite E3. split; [done|]. split; [lia|].
  unfold in_range. apply andb_false_iff. right. apply Z.leb_gt. lia.
Qed.

Lemma substr_overruns_witness :
  rs_sv_substr (bs "hello") 1 SIZE_MAX = (1, SIZE_MAX) /\
  zlen (bs "hello") < 1 + SIZE_MAX /\
  in_range 1 SIZE_MAX (bs "hello") = false.
Proof.
  apply (substr_overruns (bs "hello") 1 SIZE_MAX); decided.
Defined.

(** ** Release *)

(** X3.  Releasing an object twice is releasing it once: the first
    [rs_string_free] leaves an inline object, which the second does not
    touch the heap for. *)
Theorem free_twice (s : rs_string) (h : heap) :
  (s1 <- rs_string_free s ;; rs_string_free s1) h = rs_string_free s h.
Proof.
  unfold bind at 1.
  assert (E : rs_string_free s h =
              match (if rs_string_is_heap s then rs__free_heap s else ret tt) h
              with
              | Ok (_, h1) => Ok (rs_string_init s, h1)
              | Fault => Fault
              end).
  { unfold rs_string_free, bind.
    by destruct ((if rs_string_is_heap s then rs__free_heap s else ret tt) h)
      as [[u h1]|]. }
  rewrite E.
  destruct ((if rs_string_is_heap s then rs__free_heap s else ret tt) h)
    as [[u h1]|]; [|done].
  unfold rs_string_free, bind; cbn.
  unfold rs_string_init; cbn [sso]. by rewrite list_insert_insert_eq.
Qed.

(** X4.  [rs_string_free] of a well-formed object leaves the empty inline
    string.  An inline object leaves the heap as it is; the last owner of a
    block returns the block to the allocator; any other owner takes one off
    its reference count and leaves the block, with its bytes, to the
    others. *)
Theorem free_releases (h : heap) (s : rs_string) :
  wf h s ->
  exists h',
    rs_string_free s h = Ok (rs_string_init s, h') /\
    len (rs_string_init s) = 0 /\
    rs_string_is_heap (rs_string_init s) = false /\
    content (rs_string_init s) h' = Some [] /\
    match p s with
    | PSso => h' = h
    | PHeap a =>
      forall blk, blocks h !! a = Some blk ->
        (hrc blk = 1 -> blocks h' = delete a (blocks h)) /\
        (1 < hrc blk <= SIZE_MAX ->
         blocks h' = <[a := Hdr (hcap blk) (hrc blk - 1) (hbuf blk)]> (blocks h))
    | PStale => False
    end.
Proof.
  intros Hwf. destruct Hwf as [l o c b Hl Hb | l o a c b blk Ha Hblk Hc Hrc Hbuf Hl Hcap Hb].
  - exists h. split_and!; try done.
  - unfold rs_string_free, rs__free_heap. cbn [rs_string_is_heap p heap_addr].
    unfold bind at 1. unfold bind at 1.
    erewrite rs__rc_dec_run by eassumption.
    destruct (Z.eqb_spec (sz (hrc blk - 1)) 0) as [E0|E0].
    + eexists. split.
      { cbn [f rs_default_alloc]. unfold rs__sys_free.
        rewrite (proj2 (Z.eqb_neq a 0)) by done. hsimpl.
        rewrite lookup_insert_eq. reflexivity. }
      split_and!; try done.
      cbn [p]. intros blk' Hblk'. rewrite Hblk in Hblk'. injection Hblk' as <-.
      hsimpl. split.
      * intros _. by rewrite delete_insert_eq.
      * intros [H1 H2]. rewrite sz_small in E0 by lia. lia.
    + eexists. split; [reflexivity|].
      split_and!; try done.
      cbn [p]. intros blk' Hblk'. rewrite Hblk in Hblk'. injection Hblk' as <-.
      hsimpl. split.
      * intros E1. rewrite E1 in E0. by vm_compute in E0.
      * intros [H1 H2]. by rewrite sz_small by lia.
Qed.

Lemma free_releases_witness :
  exists h',
    rs_string_free long_string long_heap = Ok (rs_string_init long_string, h') /\
    len (rs_string_init long_string) = 0 /\
    rs_string_is_heap (rs_string_init long_string) = false /\
    content (rs_string_init long_string) h' = Some [] /\
    match p long_string with
    | PSso => h' = long_heap
    | PHeap a =>
      forall blk, blocks long_heap !! a = Some blk ->
        (hrc blk = 1 -> blocks h' = delete a (blocks long_heap)) /\
        (1 < hrc blk <= SIZE_MAX ->
         blocks h' =
           <[a := Hdr (hcap blk) (hrc blk - 1) (hbuf blk)]> (blocks long_heap))
    | PStale => False
    end.
Proof. apply (free_releases long_heap long_string). exact long_wf. Defined.

(** ** Prefix, suffix and search *)

Lemma memcmp_eq_take (buf what : list byte) (off : Z) :
  0 <= off -> off + zlen what <= zlen buf ->
  memcmp_eq buf off what (zlen what) =
    Some (bool_decide (bytes_at buf off (zlen what) = what)).
Proof.
  intros Hoff Hfit. unfold memcmp_eq.
  rewrite !in_range_true by (unfold zlen in *; lia). cbn.
  do 3 f_equal. unfold bytes_at, zlen. rewrite Nat2Z.id.
  by rewrite drop_0, firstn_all.
Qed.

(** X5.  [rs_string_starts_with] returns [1] exactly when [pfx] is a prefix of
    the content, [0] otherwise; it leaves the heap as it is. *)
Theorem starts_with_prefix (h : heap) (s : rs_string) (pfx c : list byte) :
  wf h s -> content s h = Some c ->
  rs_string_starts_with s pfx h =
    Ok ((if bool_decide (pfx `prefix_of` c) then 1 else 0), h).
Proof.
  intros Hwf Hc.
  destruct (wf_content h s Hwf) as (buf & Hrun & Hcont & Hbuf & Hl & Hcap).
  rewrite Hc in Hcont. injection Hcont as ->.
  unfold rs_string_starts_with, bind, sv_len. rewrite Hrun.
  destruct (Z.leb_spec (zlen pfx) (len s)) as [Hle|Hgt].
  - rewrite memcmp_eq_take by lia. cbn [lift ret].
    do 2 f_equal.
    assert (Eq : bytes_at buf 0 (zlen pfx) = pfx <->
                 pfx `prefix_of` take (Z.to_nat (len s)) buf).
    { unfold bytes_at. cbn [Z.to_nat drop]. unfold zlen in *.
      rewrite Nat2Z.id. split.
      - intros E. exists (drop (length pfx) (take (Z.to_nat (len s)) buf)).
        rewrite <- E at 1. rewrite <- (take_drop (length pfx) (take _ buf)) at 1.
        f_equal. rewrite take_take. f_equal. lia.
      - intros [k E].
        assert (E' : take (length pfx) (take (Z.to_nat (len s)) buf) = pfx).
        { rewrite E. by rewrite take_app_length. }
        rewrite take_take in E'. rewrite <- E' at 2. f_equal. lia. }
    repeat case_bool_decide; tauto.
  - cbn [ret]. do 2 f_equal. rewrite bool_decide_eq_false_2; [done|].
    intros Hp. apply prefix_length in Hp.
    rewrite length_take in Hp. unfold zlen in *. lia.
Qed.

Lemma starts_with_prefix_witness :
  rs_string_starts_with long_string (bs "data") long_heap =
    Ok ((if bool_decide (bs "data" `prefix_of`
                           bs "data is longer than twenty-two")
         then 1 else 0), long_heap).
Proof.
  apply (starts_with_prefix long_heap long_string (bs "data")
           (bs "data is longer than twenty-two")).
  - exact long_wf.
  - exact long_content.
Defined.

(** X6.  [rs_string_ends_with] returns [1] exactly when [sfx] is a suffix of the
    content, [0] otherwise; it leaves the heap as it is. *)
Theorem ends_with_suffix (h : heap) (s : rs_string) (sfx c : list byte) :
  wf h s -> content s h = Some c ->
  rs_string_ends_with s sfx h =
    Ok ((if bool_decide (sfx `suffix_of` c) then 1 else 0), h).
Proof.
  intros Hwf Hc.
  destruct (wf_content h s Hwf) as (buf & Hrun & Hcont & Hbuf & Hl & Hcap).
  rewrite Hc in Hcont. injection Hcont as ->.
  unfold rs_string_ends_with, bind, sv_len. rewrite Hrun.
  destruct (Z.leb_spec (zlen sfx) (len s)) as [Hle|Hgt].
  - rewrite memcmp_eq_take by lia. cbn [lift ret].
    do 2 f_equal.
    assert (El : length (take (Z.to_nat (len s)) buf) = Z.to_nat (len s)).
    { rewrite length_take. unfold zlen in *. lia. }
    assert (Eq : bytes_at buf (len s - zlen sfx) (zlen sfx) = sfx <->
                 sfx `suffix_of` take (Z.to_nat (len s)) buf).
    { unfold bytes_at.
      assert (Ed : take (Z.to_nat (zlen sfx))
                     (drop (Z.to_nat (len s - zlen sfx)) buf) =
                   drop (Z.to_nat (len s - zlen sfx))
                     (take (Z.to_nat (len s)) buf)).
      { rewrite take_drop_commute. do 2 f_equal. unfold zlen in *. lia. }
      rewrite Ed. split.
      - intros E. exists (take (Z.to_nat (len s - zlen sfx))
                            (take (Z.to_nat (len s)) buf)).
        rewrite <- E at 2. by rewrite take_drop.
      - intros [k E].
        assert (Ek : length k = Z.to_nat (len s - zlen sfx)).
        { apply (f_equal length) in E. rewrite El, length_app in E.
          unfold zlen in *. lia. }
        rewrite E, <- Ek. by rewrite drop_app_length. }
    repeat case_bool_decide; tauto.
  - cbn [ret]. do 2 f_equal. rewrite bool_decide_eq_false_2; [done|].
    intros Hp. apply suffix_length in Hp.
    rewrite length_take in Hp. unfold zlen in *. lia.
Qed.

Lemma ends_with_suffix_witness :
  rs_string_ends_with long_string (bs "two") long_heap =
    Ok ((if bool_decide (bs "two" `suffix_of`
                           bs "data is longer than twenty-two")
         then 1 else 0), long_heap).
Proof.
  apply (ends_with_suffix long_heap long_string (bs "two")
           (bs "data is longer than twenty-two")).
  - exact long_wf.
  - exact long_content.
Defined.

(** X7.  [rs_string_find] with a non-empty [what], when neither
    [from + what.len] nor [s->len + what.len] passes [SIZE_MAX]: it returns
    the first offset at or behind [from] at which [what] occurs in the
    content, or [(size_t)-1] when there is none (as for every [from] behind
    the end); the heap is left as it is. *)
Theorem find_first_occurrence (h : heap) (s : rs_string)
    (what c : list byte) (from : Z) :
  wf h s -> content s h = Some c ->
  0 < zlen what -> 0 <= from ->
  Z.max from (len s) + zlen what <= SIZE_MAX ->
  exists r,
    rs_string_find s what from h = Ok (r, h) /\
    ((r = npos /\ absent_from what c from) \/
     (r < npos /\ first_at what c from r)).
Proof.
  intros Hwf Hc Hw Hfrom Hfit.
  pose proof (content_length h s c Hwf Hc) as Hlen.
  destruct (Z.le_gt_cases from (len s)) as [Hin|Hout].
  - destruct (wf_content h s Hwf) as (buf & _ & _ & Hbuf & Hl & Hcap).
    destruct (find_spec h s what from c Hwf Hc Hw) as (r & Hrun & Hr);
      [lia | lia |].
    exists r. split; [done|]. destruct Hr as [[-> Ha]|[Hr Hf]]; [by left|].
    right. split; [zlia | done].
  - exists npos. split.
    + destruct (wf_cstr h s Hwf) as (buf & Hrun & _).
      unfold rs_string_find, bind, sv_len. rewrite Hrun.
      rewrite (proj2 (Z.eqb_neq (zlen what) 0)) by lia.
      replace (Z.to_nat (len s) + 2)%nat with (S (Z.to_nat (len s) + 1)) by lia.
      cbn [find_loop]. unfold sv_len. rewrite sz_small by lia.
      by rewrite (proj2 (Z.leb_gt (from + zlen what) (len s))) by lia.
    + left. split; [done|]. intros j Hj (H0 & H1 & _). lia.
Qed.

Lemma find_first_occurrence_witness :
  exists r,
    rs_string_find long_string (bs "long") 2 long_heap = Ok (r, long_heap) /\
    ((r = npos /\
      absent_from (bs "long") (bs "data is longer than twenty-two") 2) \/
     (r < npos /\
      first_at (bs "long") (bs "data is longer than twenty-two") 2 r)).
Proof.
  apply (find_first_occurrence long_heap long_string (bs "long")
           (bs "data is longer than twenty-two") 2).
  - exact long_wf.
  - exact long_content.
  - decided.
  - decided.
  - decided.
Defined.

(** X8.  [rs_string_find] has no check of [from]: with a non-empty [what] no
    longer than the string and a [from] so large that [from + what.len]
    wraps around, the loop guard holds for the wrapped sum and the
    comparison reads behind the buffer. *)
Theorem find_wrapped_start_faults (h : heap) (s : rs_string)
    (what : list byte) (from : Z) :
  wf h s -> 0 < zlen what <= len s -> from <= SIZE_MAX ->
  SIZE_MAX < from + zlen what ->
  rs_string_find s what from h = Fault.
Proof.
  intros Hwf Hw Hfrom Hwrap.
  destruct (wf_cstr h s Hwf) as (buf & Hrun & Hbuf & Hl & Hcap).
  unfold rs_string_find, bind, sv_len. rewrite Hrun.
  rewrite (proj2 (Z.eqb_neq (zlen what) 0)) by lia.
  replace (Z.to_nat (len s) + 2)%nat with (S (Z.to_nat (len s) + 1)) by lia.
  cbn [find_loop]. unfold sv_len.
  assert (E : sz (from + zlen what) = from + zlen what - 2 ^ 64).
  { unfold sz. symmetry. apply (Z.mod_unique_pos _ _ 1); zlia. }
  rewrite E, (proj2 (Z.leb_le _ (len s))) by zlia.
  unfold memcmp_eq.
  assert (Er : in_range from (zlen what) buf = false).
  { unfold in_range. apply andb_false_iff. right. apply Z.leb_gt. zlia. }
  by rewrite Er.
Qed.

Lemma find_wrapped_start_faults_witness :
  rs_string_find long_string (bs "long") SIZE_MAX long_heap = Fault.
Proof.
  apply (find_wrapped_start_faults long_heap long_string (bs "long") SIZE_MAX).
  - exact long_wf.
  - decided.
  - decided.
  - decided.
Defined.

(** ** Erase and insert *)

(** X9.  [rs_string_erase (s, pos, n)] with [pos] inside the string and
    [pos + n] representable, when no allocation is refused: it returns [0]
    and removes the bytes from [pos] to [pos + n], or to the end when there
    are fewer; the capacity is the one from before. *)
Theorem erase_removes (h : heap) (s : rs_string) (pos n : Z) (c : list byte) :
  heap_ok h -> wf h s -> alloc_ok h -> content s h = Some c ->
  0 <= pos <= len s -> 0 <= n -> pos + n <= SIZE_MAX ->
  exists s' h',
    rs_string_erase s pos n h = Ok ((0, s'), h') /\
    heap_ok h' /\ wf h' s' /\
    content s' h' = Some (take (Z.to_nat pos) c ++ drop (Z.to_nat (pos + n)) c) /\
    len s' = len s - Z.min n (len s - pos) /\
    rs_string_cap s' = rs_string_cap s.
Proof.
  intros Hh Hwf Ha Hc Hpos Hn Hfit.
  pose proof (content_length h s c Hwf Hc) as Hlen.
  destruct (outcome_ok _ _ _ _ Ha (erase_spec h s pos n c Hh Hwf Hpos Hn Hfit Hc))
    as (s' & h' & Hrun & Hh' & Hwf' & _ & _ & Hcont & Hl & Hcap).
  exists s', h'. split_and!; try done.
  rewrite Hcont. do 2 f_equal.
  destruct (Z.le_gt_cases n (len s - pos)).
  - do 2 f_equal. lia.
  - rewrite !drop_ge; [done | | ]; unfold zlen in *; lia.
Qed.

Lemma erase_removes_witness :
  exists s' h',
    rs_string_erase long_string 4 100 long_heap = Ok ((0, s'), h') /\
    heap_ok h' /\ wf h' s' /\
    content s' h' =
      Some (take (Z.to_nat 4) (bs "data is longer than twenty-two")
              ++ drop (Z.to_nat (4 + 100)) (bs "data is longer than twenty-two")) /\
    len s' = len long_string - Z.min 100 (len long_string - 4) /\
    rs_string_cap s' = rs_string_cap long_string.
Proof.
  apply (erase_removes long_heap long_string 4 100
           (bs "data is longer than twenty-two")).
  - exact long_heap_ok.
  - exact long_wf.
  - exact long_alloc_ok.
  - exact long_content.
  - decided.
  - decided.
  - decided.
Defined.

Lemma erase_wrapped_buf (buf : list byte) (l pos w : Z) :
  0 <= w < pos -> pos <= l -> l + (pos - w) < zlen buf ->
  exists buf',
    memmove buf pos w (l - w + 1) = Some buf' /\
    zlen buf' = zlen buf /\
    take (Z.to_nat (l + (pos - w))) buf' =
      take (Z.to_nat pos) (take (Z.to_nat l) buf)
        ++ drop (Z.to_nat w) (take (Z.to_nat l) buf).
Proof.
  intros. unfold memmove.
  destruct (memcpy_some buf pos buf w (l - w + 1))
    as (b1 & -> & L1 & K1); [lia..|].
  eexists. split; [done|]. split; [done|].
  apply list_eq. intros i. lk_norm. rewrite K1. lk_solve.
Qed.

(** X10.  [rs_string_erase] tests [pos + n > s->len] on the wrapped sum: for
    [0 < pos <= s->len] and [n] so large that [pos + n] passes [SIZE_MAX]
    (as [(size_t)-1], meant as "to the end"), [n] is not cut down to the
    rest of the string.  The source of the move, [p + pos + n], is then the
    offset [pos - g] with [g = 2^64 - n], before [pos]: when no allocation
    is refused and the capacity has room for [g] bytes more, the call
    returns [0] and the string has grown by [g] bytes, the bytes from
    [pos - g] on standing behind the first [pos] bytes; when it has not, the
    move writes behind the buffer. *)
Theorem erase_wrapped_count_grows (h : heap) (s : rs_string) (pos n : Z)
    (c : list byte) :
  heap_ok h -> wf h s -> alloc_ok h -> content s h = Some c ->
  0 < pos <= len s -> n <= SIZE_MAX -> SIZE_MAX < pos + n ->
  let g := 2 ^ 64 - n in
  (len s + g <= rs_string_cap s ->
   exists s' h',
     rs_string_erase s pos n h = Ok ((0, s'), h') /\
     wf h' s' /\ len s' = len s + g /\
     content s' h' =
       Some (take (Z.to_nat pos) c ++ drop (Z.to_nat (pos - g)) c)) /\
  (rs_string_cap s < len s + g -> rs_string_erase s pos n h = Fault).
Proof.
  intros Hh Hwf Ha Hc Hpos Hn Hwrap g.
  destruct (wf_cstr h s Hwf) as (buf0 & _ & _ & Hl0 & Hcap0).
  assert (Hg : 1 <= g <= pos) by (unfold g; zlia).
  assert (E : sz (pos + n) = pos - g).
  { unfold sz, g. symmetry. apply (Z.mod_unique_pos _ _ 1); zlia. }
  destruct (outcome_ok _ _ _ _ Ha (ensure_unique_spec h s Hh Hwf))
    as (s1 & h1 & Hrun & Hh1 & Hwf1 & _ & _ & Hl1 & Hcap1 & _ & Hc1 & _).
  destruct (wf_content h1 s1 Hwf1) as (buf & Hcstr & Hct & Hbuf & Hl & Hcm).
  assert (Erun : rs_string_erase s pos n h =
                 (buf <- lift (memmove buf pos (pos - g)
                                 (len s - (pos - g) + 1)) ;;
                  s' <- buf_put s1 buf ;;
                  ret (0, set_len (sz (len s' - n)) s')) h1).
  { unfold rs_string_erase.
    rewrite (proj2 (Z.ltb_ge (len s) pos)) by lia.
    rewrite E, (proj2 (Z.ltb_ge (len s) (pos - g))) by lia.
    unfold bind at 1. rewrite Hrun. cbn [negb Z.eqb]. cbv iota.
    unfold bind at 1. rewrite Hcstr. cbv beta iota.
    rewrite Hl1, !E.
    rewrite (sz_small (len s - (pos - g))) by zlia.
    by rewrite (sz_small (len s - (pos - g) + 1)) by zlia. }
  rewrite Erun. split.
  - intros Hroom.
    assert (El : sz (len s - n) = len s + g).
    { unfold sz, g. symmetry. apply (Z.mod_unique_pos _ _ (-1)); zlia. }
    destruct (erase_wrapped_buf buf (len s) pos (pos - g))
      as (b1 & M1 & L1 & K1); [lia..|].
    destruct (buf_put_spec h1 s1 b1 Hh1 Hwf1)
      as (s' & h' & Eput & Hh' & W' & _ & L' & C' & _ & Ecstr'); [lia|].
    exists (set_len (len s + g) s'), h'. split_and!.
    + unfold bind at 1. rewrite M1. unfold lift, ret at 1.
      unfold bind at 1. rewrite Eput. cbv beta iota. by rewrite L', Hl1, El.
    + apply wf_set_len; [done|lia].
    + by rewrite len_set_len.
    + rewrite (content_cstr _ _ _ Ecstr').
      replace (len s + g) with (len s + (pos - (pos - g))) by lia.
      rewrite K1. f_equal.
      rewrite Hc1, Hc, Hl1 in Hct. by injection Hct as ->.
  - intros Hfull. unfold bind at 1, memmove, memcpy.
    assert (Er : in_range pos (len s - (pos - g) + 1) buf = false).
    { unfold in_range. apply andb_false_iff. right. apply Z.leb_gt. lia. }
    by rewrite Er.
Qed.

Lemma erase_wrapped_count_grows_witness :
  let g := 2 ^ 64 - SIZE_MAX in
  (len abc_string + g <= rs_string_cap abc_string ->
   exists s' h',
     rs_string_erase abc_string 2 SIZE_MAX heap0 = Ok ((0, s'), h') /\
     wf h' s' /\ len s' = len abc_string + g /\
     content s' h' =
       Some (take (Z.to_nat 2) (bs "abc") ++ drop (Z.to_nat (2 - g)) (bs "abc"))) /\
  (rs_string_cap abc_string < len abc_string + g ->
   rs_string_erase abc_string 2 SIZE_MAX heap0 = Fault).
Proof.
  apply (erase_wrapped_count_grows heap0 abc_string 2 SIZE_MAX (bs "abc")).
  - exact heap0_ok.
  - exact (abc_wf heap0).
  - exact heap0_alloc_ok.
  - exact (abc_content heap0).
  - decided.
  - decided.
  - decided.
Defined.

(** X11.  [rs_string_insert (s, pos, v)], when no allocation is refused: it
    returns [0] and puts the bytes of [v] before the byte at [pos], or at
    the end for a [pos] behind the end; the length grows by [v.len]. *)
Theorem insert_places (h : heap) (s : rs_string) (pos : Z) (v c : list byte) :
  heap_ok h -> wf h s -> alloc_ok h -> content s h = Some c ->
  rs_string_cap s <= CAP_LIMIT -> 0 <= pos -> len s + zlen v <= CAP_MAX ->
  exists s' h',
    rs_string_insert s pos v h = Ok ((0, s'), h') /\
    heap_ok h' /\ wf h' s' /\
    content s' h' = Some (take (Z.to_nat pos) c ++ v ++ drop (Z.to_nat pos) c) /\
    len s' = len s + zlen v.
Proof.
  intros Hh Hwf Ha Hc Hcap Hpos Hfit.
  pose proof (content_length h s c Hwf Hc) as Hlen.
  destruct (outcome_ok _ _ _ _ Ha
              (insert_spec h s pos v c Hh Hwf (roomy_limit s Hcap) Hpos Hfit Hc))
    as (s' & h' & Hrun & Hh' & Hwf' & _ & _ & Hcont & Hl & _).
  exists s', h'. split_and!; try done.
  rewrite Hcont. f_equal.
  destruct (Z.le_gt_cases pos (len s)).
  - by replace (Z.min pos (len s)) with pos by lia.
  - replace (Z.min pos (len s)) with (len s) by lia.
    rewrite !take_ge, !drop_ge; [done | | | | ]; unfold zlen in *; lia.
Qed.

Lemma insert_places_witness :
  exists s' h',
    rs_string_insert abc_string 1 (bs "xy") heap0 = Ok ((0, s'), h') /\
    heap_ok h' /\ wf h' s' /\
    content s' h' =
      Some (take (Z.to_nat 1) (bs "abc") ++ bs "xy"
              ++ drop (Z.to_nat 1) (bs "abc")) /\
    len s' = len abc_string + zlen (bs "xy").
Proof.
  apply (insert_places heap0 abc_string 1 (bs "xy") (bs "abc")).
  - exact heap0_ok.
  - exact (abc_wf heap0).
  - exact heap0_alloc_ok.
  - exact (abc_content heap0).
  - decided.
  - decided.
  - decided.
Defined.

(** X12.  Erasing what has just been inserted gives the content back:
    [rs_string_insert (s, pos, v)] followed by
    [rs_string_erase (s, pos, v.len)], for [pos] inside the string and when
    no allocation is refused.  The capacity may have grown. *)
Theorem insert_then_erase (h : heap) (s : rs_string) (pos : Z)
    (v c : list byte) :
  heap_ok h -> wf h s -> alloc_ok h -> content s h = Some c ->
  rs_string_cap s <= CAP_LIMIT -> 0 <= pos <= len s ->
  len s + zlen v <= CAP_MAX ->
  exists s1 h1 s2 h2,
    rs_string_insert s pos v h = Ok ((0, s1), h1) /\
    rs_string_erase s1 pos (zlen v) h1 = Ok ((0, s2), h2) /\
    wf h2 s2 /\ content s2 h2 = Some c /\ len s2 = len s /\
    rs_string_cap s <= rs_string_cap s2.
Proof.
  intros Hh Hwf Ha Hc Hcap Hpos Hfit.
  pose proof (content_length h s c Hwf Hc) as Hlen.
  destruct (outcome_ok _ _ _ _ Ha
              (insert_spec h s pos v c Hh Hwf (roomy_limit s Hcap)
                 (proj1 Hpos) Hfit Hc))
    as (s1 & h1 & Hrun1 & Hh1 & Hwf1 & Ha1 & _ & Hc1 & Hl1 & Hcap1).
  cbn zeta in Hc1. replace (Z.min pos (len s)) with pos in Hc1 by lia.
  assert (Hv : 0 <= zlen v) by (unfold zlen; lia).
  destruct (outcome_ok _ _ _ _ Ha1
              (erase_spec h1 s1 pos (zlen v) _ Hh1 Hwf1
                 ltac:(lia) Hv ltac:(zlia) Hc1))
    as (s2 & h2 & Hrun2 & Hh2 & Hwf2 & _ & _ & Hc2 & Hl2 & Hcap2).
  exists s1, h1, s2, h2. split_and!; try done.
  - rewrite Hc2. f_equal. cbn zeta.
    replace (Z.min (zlen v) (len s1 - pos)) with (zlen v) by lia.
    assert (Ep : length (take (Z.to_nat pos) c) = Z.to_nat pos).
    { rewrite length_take. unfold zlen in *. lia. }
    rewrite take_app_length' by done.
    replace (Z.to_nat (pos + zlen v)) with (Z.to_nat pos + length v)%nat
      by (unfold zlen; lia).
    rewrite <- Ep at 2. rewrite drop_app_add, drop_app_length.
    apply take_drop.
  - lia.
  - rewrite Hcap2, Hcap1. apply cap_after_ge.
Qed.

Lemma insert_then_erase_witness :
  exists s1 h1 s2 h2,
    rs_string_insert abc_string 1 (bs "xy") heap0 = Ok ((0, s1), h1) /\
    rs_string_erase s1 1 (zlen (bs "xy")) h1 = Ok ((0, s2), h2) /\
    wf h2 s2 /\ content s2 h2 = Some (bs "abc") /\ len s2 = len abc_string /\
    rs_string_cap abc_string <= rs_string_cap s2.
Proof.
  apply (insert_then_erase heap0 abc_string 1 (bs "xy") (bs "abc")).
  - exact heap0_ok.
  - exact (abc_wf heap0).
  - exact heap0_alloc_ok.
  - exact (abc_content heap0).
  - decided.
  - decided.
  - decided.
Defined.

(** ** Assign, clear and formatted write *)

(** X13.  [rs_string_assign (s, v)], when no allocation is refused: it returns
    [0], the content is [v] whatever it was, and the capacity is never below
    the one from before. *)
Theorem assign_replaces (h : heap) (s : rs_string) (v : list byte) :
  heap_ok h -> wf h s -> alloc_ok h ->
  rs_string_cap s <= CAP_LIMIT -> zlen v <= CAP_MAX ->
  exists s' h',
    rs_string_assign s v h = Ok ((0, s'), h') /\
    heap_ok h' /\ wf h' s' /\
    content s' h' = Some v /\ len s' = zlen v /\
    rs_string_cap s <= rs_string_cap s'.
Proof.
  intros Hh Hwf Ha Hcap Hfit.
  destruct (outcome_ok _ _ _ _ Ha
              (assign_spec h s v Hh Hwf (roomy_limit s Hcap) Hfit))
    as (s' & h' & Hrun & Hh' & Hwf' & _ & _ & Hcont & Hl & Hcap').
  exists s', h'. split_and!; try done.
  rewrite Hcap'. apply cap_after_ge.
Qed.

Lemma assign_replaces_witness :
  exists s' h',
    rs_string_assign long_string (bs "short") long_heap = Ok ((0, s'), h') /\
    heap_ok h' /\ wf h' s' /\
    content s' h' = Some (bs "short") /\ len s' = zlen (bs "short") /\
    rs_string_cap long_string <= rs_string_cap s'.
Proof.
  apply (assign_replaces long_heap long_string (bs "short")).
  - exact long_heap_ok.
  - exact long_wf.
  - exact long_alloc_ok.
  - decided.
  - decided.
Defined.

(** X14.  [rs_string_clear], when no allocation is refused: it returns [0] and
    leaves the empty content; the capacity is exactly the one from before,
    so no memory is given back. *)
Theorem clear_keeps_capacity (h : heap) (s : rs_string) :
  heap_ok h -> wf h s -> alloc_ok h -> rs_string_cap s <= CAP_LIMIT ->
  exists s' h',
    rs_string_clear s h = Ok ((0, s'), h') /\
    wf h' s' /\ content s' h' = Some [] /\ len s' = 0 /\
    rs_string_cap s' = rs_string_cap s /\
    rs_string_is_heap s' = rs_string_is_heap s.
Proof.
  intros Hh Hwf Ha Hcap.
  destruct (wf_cstr h s Hwf) as (buf & _ & _ & Hl & Hc).
  assert (Hfit : zlen (@nil byte) <= CAP_MAX) by (vm_compute; discriminate).
  destruct (outcome_ok _ _ _ _ Ha
              (assign_spec h s [] Hh Hwf (roomy_limit s Hcap) Hfit))
    as (s' & h' & Hrun & Hh' & Hwf' & _ & Hheap & Hcont & Hl' & Hcap').
  assert (Ec : rs_string_cap s' = rs_string_cap s).
  { rewrite Hcap'. unfold cap_after. change (zlen []) with 0.
    by rewrite (proj2 (Z.leb_le 0 (rs_string_cap s))) by lia. }
  exists s', h'. split_and!; try done.
    destruct (rs_string_is_heap s) eqn:E1; [by apply Hheap|].
    destruct (rs_string_is_heap s') eqn:E2; [|done].
    exfalso. revert Hrun. unfold rs_string_clear, rs_string_assign.
    unfold rs_string_reserve_ex. change (sv_len []) with 0.
    rewrite (proj2 (Z.leb_le 0 (rs_string_cap s))) by lia.
    unfold bind at 1. cbn [ret negb Z.eqb]. cbv iota.
    unfold rs__ensure_unique. rewrite E1. cbn [negb].
    unfold bind at 1. cbn [ret negb Z.eqb]. cbv iota.
    destruct s as [l o [|a|] cp b]; [|done|done].
    unfold rs_string_cstr, buf_put, bind; cbn [p ret sso].
    destruct (memcpy b 0 [] 0 0) as [b1|]; [|done]. cbn [lift ret].
    destruct (poke b1 0 x00) as [b2|]; [|done]. cbn [lift ret].
    intros [= <- <-]. done.
Qed.

Lemma clear_keeps_capacity_witness :
  exists s' h',
    rs_string_clear long_string long_heap = Ok ((0, s'), h') /\
    wf h' s' /\ content s' h' = Some [] /\ len s' = 0 /\
    rs_string_cap s' = rs_string_cap long_string /\
    rs_string_is_heap s' = rs_string_is_heap long_string.
Proof.
  apply (clear_keeps_capacity long_heap long_string).
  - exact long_heap_ok.
  - exact long_wf.
  - exact long_alloc_ok.
  - decided.
Defined.

Lemma vprintf_ok (h : heap) (s : rs_string) (text : list byte) :
  heap_ok h -> wf h s -> alloc_ok h ->
  rs_string_cap s <= CAP_LIMIT -> zlen text <= INT_MAX ->
  exists s' h',
    rs_string_vprintf s (Some text) h = Ok ((zlen text, s'), h') /\
    heap_ok h' /\ wf h' s' /\
    content s' h' = Some text /\ len s' = zlen text.
Proof.
  intros Hh Hwf Ha Hcap Hfit.
  assert (Hn : 0 <= zlen text) by (unfold zlen; lia).
  unfold rs_string_vprintf.
  assert (Er : vsnprintf_ret (Some text) = zlen text).
  { unfold vsnprintf_ret. by rewrite (proj2 (Z.leb_le _ _) Hfit). }
  rewrite Er. rewrite (proj2 (Z.ltb_ge (zlen text) 0)) by lia.
  destruct (outcome_ok _ _ _ _ Ha
              (reserve_ex_spec h s (zlen text) Hh Hwf ltac:(zlia)
                 (roomy_limit s Hcap)))
    as (s1 & h1 & Hrun1 & Hh1 & Hwf1 & Ha1 & _ & Hl1 & Hc1 & Hsame & Hgrow).
  assert (Hroom : zlen text <= rs_string_cap s1).
  { destruct (Z.le_gt_cases (zlen text) (rs_string_cap s)) as [Hle|Hgt].
    - by destruct (Hsame Hle) as [-> _].
    - destruct (Hgrow Hgt) as (-> & _). unfold grown. lia. }
  destruct (outcome_ok _ _ _ _ Ha1 (ensure_unique_spec h1 s1 Hh1 Hwf1))
    as (s2 & h2 & Hrun2 & Hh2 & Hwf2 & Ha2 & _ & Hl2 & Hcap2 & _).
  destruct (wf_content h2 s2 Hwf2) as (buf & Ecstr & _ & Hbuf & Hl & Hcm).
  destruct (assign_buf buf text) as (b1 & b2 & M1 & M2 & L2 & K2); [lia|].
  destruct (buf_put_spec h2 s2 b2 Hh2 Hwf2)
    as (s' & h' & Eput & Hh' & Hwf' & _ & _ & Hcap' & _ & Ecstr'); [lia|].
  exists (set_len (zlen text) s'), h'. split.
  { unfold bind at 1. rewrite Hrun1. cbn [negb Z.eqb]. cbv beta iota.
    unfold bind at 1. rewrite Hrun2. cbn [negb Z.eqb]. cbv beta iota.
    unfold bind at 1. rewrite Ecstr. cbv beta iota.
    change (default [] (Some text)) with text. unfold vsnprintf_to.
    replace (Z.min (zlen text) (zlen text + 1 - 1)) with (zlen text) by lia.
    rewrite M1, M2. unfold bind at 1. cbn [lift ret]. cbv beta iota.
    unfold bind at 1. rewrite Eput. cbv beta iota.
    by rewrite (proj2 (Z.leb_le 0 (zlen text))) by lia. }
  split_and!; try done.
  - apply wf_set_len; [done|lia].
  - by rewrite (content_cstr _ _ _ Ecstr'), K2.
Qed.

(** X15.  [rs_string_vprintf] (and [rs_string_printf], which passes its arguments
    on), for a format and arguments that produce the bytes [text], when no
    allocation is refused: it returns the number of bytes of [text], and the
    content is [text]; what the string held before is written over, not
    added to. *)
Theorem vprintf_writes (h : heap) (s : rs_string) (text : list byte) :
  heap_ok h -> wf h s -> alloc_ok h ->
  rs_string_cap s <= CAP_LIMIT -> zlen text <= INT_MAX ->
  exists s' h',
    rs_string_vprintf s (Some text) h = Ok ((zlen text, s'), h') /\
    heap_ok h' /\ wf h' s' /\
    content s' h' = Some text /\ len s' = zlen text.
Proof. apply vprintf_ok. Qed.

Lemma vprintf_writes_witness :
  exists s' h',
    rs_string_vprintf long_string (Some (bs "n=7")) long_heap =
      Ok ((zlen (bs "n=7"), s'), h') /\
    heap_ok h' /\ wf h' s' /\
    content s' h' = Some (bs "n=7") /\ len s' = zlen (bs "n=7").
Proof.
  apply (vprintf_writes long_heap long_string (bs "n=7")).
  - exact long_heap_ok.
  - exact long_wf.
  - exact long_alloc_ok.
  - decided.
  - decided.
Defined.

(** ** Construction and sharing *)

(** X16.  [rs_string_from_val] of a non-empty C string [cs], when the
    allocation (if one is made) is granted.  For more than [RS_SSO_CAP]
    bytes the object it returns is well formed and holds [cs], as the only
    owner of a fresh block whose capacity is exactly the length of [cs].
    For at most [RS_SSO_CAP] bytes no block is made and the bytes are in
    the inline buffer of the object returned, with the right length; but
    the object is the local returned by value, its [p] is the address of
    the inline buffer of that local, so it passes for a heap string and
    shows no content.  [s0] is the local before its initialisation. *)
Theorem from_val_builds (h : heap) (s0 : rs_string) (cs : list byte) :
  heap_ok h -> grants h (tick h) = true ->
  zlen (sso s0) = RS_SSO_CAP + 1 -> 0 < zlen cs <= CAP_MAX ->
  exists s h',
    rs_string_from_val s0 (Some cs) h = Ok (s, h') /\
    heap_ok h' /\ len s = zlen cs /\ rs_string_is_heap s = true /\
    (RS_SSO_CAP < zlen cs ->
     wf h' s /\ unique h' s /\ content s h' = Some cs /\
     rs_string_cap s = zlen cs) /\
    (zlen cs <= RS_SSO_CAP ->
     h' = h /\ p s = PStale /\
     take (Z.to_nat (zlen cs)) (sso s) = cs /\
     rs_string_cstr s h' = Fault /\ content s h' = None).
Proof.
  intros Hh Hg Hs0 Hcs. destruct Hh as [Hnx Hfresh].
  destruct cs as [|b0 cs']; [destruct Hcs as [H _]; by vm_compute in H|].
  unfold rs_string_from_val. cbv beta iota.
  set (cs := b0 :: cs') in *.
  assert (Hsrc : zlen (cs ++ [x00]) = zlen cs + 1).
  { unfold zlen. rewrite length_app. cbn [length]. lia. }
  assert (Htk : take (Z.to_nat (zlen cs)) (cs ++ [x00]) = cs).
  { unfold zlen. rewrite Nat2Z.id. by rewrite take_app_length. }
  destruct (Z.leb_spec (zlen cs) RS_SSO_CAP) as [Hshort|Hlong].
  - assert (Hold : zlen (sso (rs_string_init s0)) = RS_SSO_CAP + 1).
    { unfold rs_string_init. cbn [sso]. unfold zlen in *.
      by rewrite length_insert. }
    destruct (copy_buf (sso (rs_string_init s0)) (cs ++ [x00]) (zlen cs))
      as (b & Hcp & Hb & Htake); [lia | lia | lia |].
    rewrite sz_small by zlia.
    unfold bind at 2. rewrite Hcp. cbn [lift ret].
    unfold bind, ret. cbn.
    eexists _, h. split; [reflexivity|].
    split_and!; try done.
    + intros Hlong. lia.
    + intros _. split_and!; try done.
      unfold set_p, set_len, set_sso. cbn [sso]. by rewrite Htake, Htk.
  - assert (Ha : next h <> NULL) by lia.
    assert (Hn : blocks h !! next h = None) by (apply Hfresh; lia).
    rewrite (sz_small (sizeof_hdr + zlen cs + 1)) by zlia.
    rewrite (sz_small (zlen cs + 1)) by zlia.
    set (old := replicate (Z.to_nat (sizeof_hdr + zlen cs + 1 - sizeof_hdr)) x00).
    assert (Hold : zlen old = zlen cs + 1).
    { unfold old, zlen. rewrite length_replicate. unfold zlen. lia. }
    destruct (copy_buf old (cs ++ [x00]) (zlen cs))
      as (b & Hcp & Hb & Htake); [lia | lia | lia |].
    cbn [m rs_default_alloc]. unfold bind at 1. unfold bind at 1.
    unfold rs__sys_malloc. rewrite Hg.
    cbv beta iota zeta. fold old.
    mstep. mstep. mstep. unfold bind at 1. rewrite Hcp. cbn [lift ret].
    mstep. unfold ret. cbn [by_value p set_len set_cap set_p].
    eexists _, _. split; [reflexivity|].
    split.
    { split; hsimpl; [lia|]. intros a Hlt.
      rewrite lookup_insert_ne by lia. apply Hfresh. lia. }
    split; [done|]. split; [done|]. split; [|intros; lia].
    intros _. split.
    { unfold rs_string_init. hsimpl.
      eapply wf_heap with (blk := Hdr (zlen cs) 1 b);
        [done | hlook | done | cbn; lia | cbn; lia | lia | lia
        | unfold zlen in *; by rewrite length_insert]. }
    split.
    { unfold unique, rs_string_init. hsimpl. eexists. split; [hlook|done]. }
    split; [|done].
    unfold rs_string_init. hsimpl.
    erewrite content_heap by first [done | hlook]. cbn [hbuf].
    by rewrite Htake, Htk.
Qed.

Lemma from_val_builds_witness :
  exists s h',
    rs_string_from_val rs_string_junk (Some (bs "abc")) heap0 = Ok (s, h') /\
    heap_ok h' /\ len s = zlen (bs "abc") /\ rs_string_is_heap s = true /\
    (RS_SSO_CAP < zlen (bs "abc") ->
     wf h' s /\ unique h' s /\ content s h' = Some (bs "abc") /\
     rs_string_cap s = zlen (bs "abc")) /\
    (zlen (bs "abc") <= RS_SSO_CAP ->
     h' = heap0 /\ p s = PStale /\
     take (Z.to_nat (zlen (bs "abc"))) (sso s) = bs "abc" /\
     rs_string_cstr s h' = Fault /\ content s h' = None).
Proof.
  apply (from_val_builds heap0 rs_string_junk (bs "abc")).
  - exact heap0_ok.
  - reflexivity.
  - reflexivity.
  - decided.
Defined.

Lemma free_runs (h : heap) (s : rs_string) :
  wf h s -> exists h', rs_string_free s h = Ok (rs_string_init s, h').
Proof.
  intros [l o c b Hl Hb | l o a c b blk Ha Hblk Hc Hrc Hbuf Hl Hcap Hb].
  - by exists h.
  - unfold rs_string_free, rs__free_heap. cbn [rs_string_is_heap p heap_addr].
    unfold bind at 1. unfold bind at 1.
    erewrite rs__rc_dec_run by eassumption.
    destruct (sz (hrc blk - 1) =? 0); [|by eexists].
    cbn [f rs_default_alloc]. unfold rs__sys_free.
    rewrite (proj2 (Z.eqb_neq a 0)) by done. hsimpl.
    rewrite lookup_insert_eq. by eexists.
Qed.

(** X17.  [rs_string_share (dst, src)] with an inline [src], [dst] being another
    object: [dst] is released, then becomes an inline copy of [src] with the
    same length and content; [src] is as it was, and no reference count
    other than that of the block [dst] gave up is changed. *)
Theorem share_inline_copies (h : heap) (src dst : rs_string) :
  wf h src -> wf h dst -> rs_string_is_heap src = false ->
  exists d h',
    rs_string_share 1 0 [src; dst] h = Ok ([src; d], h') /\
    rs_string_is_heap d = false /\ wf h' d /\
    len d = len src /\ content d h' = content src h /\
    rs_string_free dst h = Ok (rs_string_init dst, h').
Proof.
  intros Hsrc Hdst Hin.
  destruct (free_runs h dst Hdst) as (h' & Hfree).
  destruct Hsrc as [l o c b Hl Hb | ]; [|done].
  unfold rs_string_share.
  rewrite bool_decide_eq_false_2 by done.
  cbn [lookup list_lookup lift]. unfold bind at 1. cbn [ret].
  unfold bind at 1. rewrite Hfree.
  cbn [list_insert insert lookup list_lookup lift rs_string_is_heap p].
  unfold bind at 1. cbn [ret]. cbv beta iota.
  cbn [rs_string_is_heap p].
  unfold bind at 2. cbn [ret]. cbv beta iota.
  unfold set_len, set_off, set_cap, set_sso, set_p. cbn [len off p cap sso].
  assert (Hold : zlen (sso (rs_string_init dst)) = RS_SSO_CAP + 1).
  { unfold rs_string_init. cbn [sso]. unfold zlen. rewrite length_insert.
    by destruct Hdst. }
  destruct (copy_buf (sso (rs_string_init dst)) b l)
    as (b' & Hcp & Hb' & Htake); [lia | lia | lia |].
  rewrite sz_small by zlia. rewrite Hcp.
  unfold bind at 2. cbn [lift ret]. cbv beta iota.
  unfold bind at 1. cbn [ret list_insert insert lookup list_lookup lift].
  unfold bind at 1. cbn [ret]. cbn [rs_string_is_heap p].
  unfold bind at 1. cbn [ret].
  eexists _, h'. split; [reflexivity|].
  split; [done|]. split; [constructor; [lia|congruence]|].
  split; [done|]. split; [|done].
  by rewrite !content_sso, Htake.
Qed.

Lemma share_inline_copies_witness :
  exists d h',
    rs_string_share 1 0 [abc_string; long_string] long_heap =
      Ok ([abc_string; d], h') /\
    rs_string_is_heap d = false /\ wf h' d /\
    len d = len abc_string /\ content d h' = content abc_string long_heap /\
    rs_string_free long_string long_heap = Ok (rs_string_init long_string, h').
Proof.
  apply (share_inline_copies long_heap abc_string long_string).
  - exact (abc_wf long_heap).
  - exact long_wf.
  - reflexivity.
Defined.

(** ** Splitting and joining *)

Lemma pieces_not_nil sep k cur c : pieces sep k cur c <> [].
Proof.
  revert k cur. induction c as [|b c IH]; intros k cur; [done|].
  cbn [pieces]. destruct k; [|apply IH].
  case_bool_decide; [done | apply IH].
Qed.

Lemma join_cons sep t ts : ts <> [] -> join sep (t :: ts) = t ++ sep ++ join sep ts.
Proof. by destruct ts. Qed.

Lemma join_pieces sep c :
  sep <> [] -> forall k cur, join sep (pieces sep k cur c) = cur ++ drop k c.
Proof.
  intros Hsep. induction c as [|b c IH]; intros k cur.
  { cbn. by rewrite drop_nil, app_nil_r. }
  cbn [pieces]. destruct k as [|k]; [|by rewrite IH].
  case_bool_decide as Hm.
  - rewrite join_cons by apply pieces_not_nil. rewrite IH. cbn [app drop].
    f_equal. rewrite <- (take_drop (length sep) (b :: c)) at 1.
    rewrite Hm. f_equal.
    destruct sep as [|b' sep']; [done|]. cbn [length drop].
    f_equal. lia.
  - rewrite IH. cbn [drop]. by rewrite <- app_assoc.
Qed.

Lemma pieces_count sep c :
  forall k cur,
    Z.of_nat (length (pieces sep k cur c)) = 1 + replacements sep k c.
Proof.
  induction c as [|b c IH]; intros k cur; [done|].
  cbn [pieces replacements]. destruct k as [|k]; [|apply IH].
  case_bool_decide.
  - cbn [length]. rewrite Nat2Z.inj_succ, IH. lia.
  - apply IH.
Qed.

Lemma visit_count_over toks : visit cb_count toks None = None.
Proof. unfold visit. by induction toks as [|t toks IH]. Qed.

Lemma visit_count toks n :
  toks <> [] ->
  visit cb_count toks (Some n) =
    if n + Z.of_nat (length toks) <=? INT_MAX
    then Some (n + Z.of_nat (length toks)) else None.
Proof.
  revert n. induction toks as [|t toks IH]; intros n Hne; [done|].
  change (visit cb_count (t :: toks) (Some n))
    with (visit cb_count toks (cb_count t (Some n))).
  unfold cb_count at 2. cbn [length]. rewrite Nat2Z.inj_succ.
  destruct (Z.ltb_spec n INT_MAX) as [Hlt|Hge].
  - destruct toks as [|t' toks'].
    + cbn [visit fold_left length].
      rewrite (proj2 (Z.leb_le _ _)) by lia. f_equal; lia.
    + rewrite IH by done.
      destruct (Z.leb_spec (n + 1 + Z.of_nat (length (t' :: toks'))) INT_MAX);
        [rewrite (proj2 (Z.leb_le _ _)) by lia
        |rewrite (proj2 (Z.leb_gt _ _)) by lia]; [f_equal; lia|done].
  - rewrite visit_count_over. by rewrite (proj2 (Z.leb_gt _ _)) by lia.
Qed.

(** X18.  With [keep_empty] set and a non-empty separator, what [rs_sv_split]
    visits is enough to rebuild the input: the tokens, joined around the
    separator, are the input again. *)
Theorem split_join (fuel : nat) (s sep : list byte) :
  0 < zlen sep -> zlen s + zlen sep <= SIZE_MAX -> (length s < fuel)%nat ->
  exists toks,
    rs_sv_split fuel s sep true (Some cb_collect) [] = Some toks /\
    join sep toks = s.
Proof.
  intros Hsep Hfit Hfuel.
  exists (tokens sep true s). split.
  - pose proof (split_spec fuel s sep true cb_collect [] Hfit Hfuel) as E.
    rewrite visit_collect in E. exact E.
  - destruct sep as [|b sep']; [by vm_compute in Hsep|].
    cbn [tokens]. rewrite join_pieces by done. done.
Qed.

Lemma split_join_witness :
  exists toks,
    rs_sv_split 9 (bs "a,,b,") (bs ",") true (Some cb_collect) [] = Some toks /\
    join (bs ",") toks = bs "a,,b,".
Proof. apply (split_join 9 (bs "a,,b,") (bs ",")); decided. Defined.

(** X19.  With [keep_empty] set and a non-empty separator, [rs_sv_split]
    makes one visit more than [rs_string_replace_all] (when no allocation
    is refused) makes replacements of the separator in a string of the same
    bytes: where the one returns [k], the counting visitor [cb_count] takes
    its counter from [n] to [n + k + 1], or over the end of [int] when
    that is above [INT_MAX]. *)
Theorem split_counts (h : heap) (s : rs_string) (c sep to : list byte)
    (n : Z) (fuel : nat) :
  heap_ok h -> wf h s -> alloc_ok h -> content s h = Some c ->
  rs_string_cap s <= CAP_LIMIT -> len s < INT_MAX ->
  0 < zlen sep -> zlen sep <= LIMIT -> zlen to <= LIMIT ->
  zlen (replaced sep to 0 c) <= LIMIT -> (length c < fuel)%nat ->
  exists k s' h',
    rs_string_replace_all fuel s sep to h = Ok (Some (k, s'), h') /\
    rs_sv_split fuel c sep true (Some cb_count) (Some n) =
      Some (if n + k <? INT_MAX then Some (n + k + 1) else None).
Proof.
  intros Hh W A Hc Hcap Hlen Hsep Hsepl Hto Hout Hfuel.
  pose proof (content_length h s c W Hc) as Hl.
  destruct (replace_all_loop_spec sep to Hsep Hsepl Hto fuel h s 0 0 [] c)
    as (s' & h' & E & _); try done; try lia.
  exists (replacements sep 0 c), s', h'. split.
  { unfold rs_string_replace_all, sv_len.
    by rewrite (proj2 (Z.eqb_neq (zlen sep) 0)) by lia. }
  assert (Hfit : zlen c + zlen sep <= SIZE_MAX) by zlim.
  pose proof (split_spec fuel c sep true cb_count (Some n) Hfit Hfuel) as E'.
  etrans; [exact E'|]. f_equal.
  destruct sep as [|b sep']; [by vm_compute in Hsep|].
  cbn [tokens]. rewrite visit_count by apply pieces_not_nil.
  rewrite pieces_count.
  destruct (Z.ltb_spec (n + replacements (b :: sep') 0 c) INT_MAX);
    [rewrite (proj2 (Z.leb_le _ _)) by lia
    |rewrite (proj2 (Z.leb_gt _ _)) by lia]; [f_equal; lia|done].
Qed.

Lemma split_counts_witness :
  exists k s' h',
    rs_string_replace_all 4 abc_string (bs "b") (bs "--") heap0 =
      Ok (Some (k, s'), h') /\
    rs_sv_split 4 (bs "abc") (bs "b") true (Some cb_count) (Some 5) =
      Some (if 5 + k <? INT_MAX then Some (5 + k + 1) else None).
Proof.
  apply (split_counts heap0 abc_string (bs "abc") (bs "b") (bs "--") 5 4).
  - exact heap0_ok.
  - exact (abc_wf heap0).
  - exact heap0_alloc_ok.
  - exact (abc_content heap0).
  - decided.
  - decided.
  - decided.
  - decided.
  - decided.
  - decided.
  - decided.
Defined.

Lemma first_or_absent (sep c : list byte) :
  0 < zlen sep ->
  forall (n : nat) (i : Z),
    0 <= i -> (length c - Z.to_nat i <= n)%nat ->
    absent_from sep c i \/ exists r, first_at sep c i r.
Proof.
  intros Hsep. induction n as [|n IH]; intros i Hi Hn.
  - left. intros j Hj Hocc. apply occurs_bound in Hocc. unfold zlen in *. lia.
  - destruct (decide (take (length sep) (drop (Z.to_nat i) c) = sep)) as [E|E].
    + right. exists i. split; [lia|]. split; [by apply occurs_take|]. lia.
    + destruct (IH (i + 1)) as [Ha|[r Hr]]; [lia | lia | |].
      * left. intros j Hj Hocc.
        destruct (decide (j = i)) as [->|Hne].
        -- apply E. by apply occurs_take.
        -- apply (Ha j); [lia|done].
      * right. exists r. destruct Hr as (Hle & Hocc & Hmin).
        split; [lia|]. split; [done|]. intros j Hj Hoj.
        destruct (decide (j = i)) as [->|Hne].
        -- apply E. by apply occurs_take.
        -- apply (Hmin j); [lia|done].
Qed.

Lemma pieces_clean (sep : list byte) :
  0 < zlen sep ->
  forall (n : nat) (c : list byte),
    (length c <= n)%nat ->
    Forall (fun t => forall j, ~ occurs sep t j) (pieces sep 0 [] c).
Proof.
  intros Hsep. induction n as [|n IH]; intros c Hn.
  - destruct c; [|cbn in Hn; lia]. cbn. constructor; [|done].
    intros j Hocc. pose proof (occurs_bound _ _ _ Hocc) as Hb.
    destruct Hocc as [Hj _]. change (zlen []) with 0 in Hb. lia.
  - destruct (first_or_absent sep c Hsep (length c) 0) as [Ha|[r Hr]];
      [lia | lia | |].
    + rewrite pieces_absent by done. constructor; [|done].
      intros j Hocc. destruct (Z.le_gt_cases 0 j); [by apply (Ha j)|].
      destruct Hocc. lia.
    + rewrite (pieces_first sep c r) by done.
      pose proof Hr as (_ & Hocc & Hmin).
      pose proof (occurs_bound _ _ _ Hocc) as Hb. destruct Hocc as (Hr0 & _ & _).
      constructor.
      * intros j (Hj0 & Hj1 & Hj2).
        assert (Hl : zlen (take (Z.to_nat r) c) = r).
        { unfold zlen in *. rewrite length_take. lia. }
        apply (Hmin j); [lia|]. split; [done|]. split; [lia|].
        rewrite <- Hj2 at 2. symmetry. apply bytes_at_take; lia.
      * apply IH. rewrite length_drop. unfold zlen in *. lia.
Qed.

(** X20.  For a non-empty separator, no token [rs_sv_split] visits contains the
    separator, whether empty tokens are kept or not. *)
Theorem tokens_hold_no_separator (fuel : nat) (s sep : list byte) (keep_empty : bool) :
  0 < zlen sep -> zlen s + zlen sep <= SIZE_MAX -> (length s < fuel)%nat ->
  exists toks,
    rs_sv_split fuel s sep keep_empty (Some cb_collect) [] = Some toks /\
    Forall (fun t => forall j, ~ occurs sep t j) toks.
Proof.
  intros Hsep Hfit Hfuel.
  exists (tokens sep keep_empty s). split.
  - pose proof (split_spec fuel s sep keep_empty cb_collect [] Hfit Hfuel) as E.
    rewrite visit_collect in E. exact E.
  - pose proof (pieces_clean sep Hsep (length s) s (Nat.le_refl _)) as Hall.
    destruct sep as [|b sep']; [by vm_compute in Hsep|].
    cbn [tokens]. destruct keep_empty; [done|].
    rewrite Forall_forall in Hall. apply Forall_forall. intros t Ht.
    apply Hall. apply list_elem_of_filter in Ht. tauto.
Qed.

Lemma tokens_hold_no_separator_witness :
  exists toks,
    rs_sv_split 9 (bs "a,,b,") (bs ",") false (Some cb_collect) [] = Some toks /\
    Forall (fun t => forall j, ~ occurs (bs ",") t j) toks.
Proof. apply (tokens_hold_no_separator 9 (bs "a,,b,") (bs ",") false); decided. Defined.

(** ** ASCII and UTF-16 *)

Lemma poke_app (pre rest : list byte) (x b : byte) :
  poke (pre ++ x :: rest) (zlen pre) b = Some (pre ++ b :: rest).
Proof.
  unfold poke. rewrite in_range_true.
  - f_equal. unfold zlen. rewrite Nat2Z.id.
    rewrite insert_app_r_alt by lia. by rewrite Nat.sub_diag.
  - unfold zlen. lia.
  - lia.
  - unfold zlen. rewrite length_app. cbn [length]. lia.
Qed.

Lemma zlen_app (l k : list byte) : zlen (l ++ k) = zlen l + zlen k.
Proof. unfold zlen. rewrite length_app. lia. Qed.

Lemma zlen_units le a : zlen (flat_map (utf16_unit le) a) = 2 * zlen a.
Proof.
  induction a as [|ch a IH]; [done|].
  cbn [flat_map]. rewrite zlen_app, IH. unfold zlen. destruct le; cbn; lia.
Qed.

Lemma zlen_utf16_bytes le bom a :
  zlen (utf16_bytes le bom a) = (if bom then 2 else 0) + 2 * (zlen a + 1).
Proof.
  unfold utf16_bytes. rewrite !zlen_app, zlen_units.
  destruct bom, le; unfold zlen; cbn [length]; lia.
Qed.

Lemma put_units_spec (le : bool) (ascii : list byte) :
  forall (pre : list byte) (n : nat),
    (2 * length ascii <= n)%nat ->
    zlen pre + 2 * zlen ascii + 1 <= SIZE_MAX ->
    utf16_put_units le ascii (pre ++ replicate n x00) (zlen pre) =
      Some (pre ++ flat_map (utf16_unit le) ascii
                ++ replicate (n - 2 * length ascii) x00,
            zlen pre + 2 * zlen ascii).
Proof.
  induction ascii as [|ch ascii IH]; intros pre n Hn Hfit.
  { cbn. rewrite Nat.sub_0_r. change (zlen []) with 0. do 2 f_equal. lia. }
  destruct n as [|[|n]]; [cbn in Hn; lia | cbn in Hn; lia |].
  assert (Hz : zlen (ch :: ascii) = zlen ascii + 1)
    by (unfold zlen; cbn [length]; lia).
  rewrite Hz in *.
  assert (Hp : 0 <= zlen pre) by (unfold zlen; lia).
  assert (Ha : 0 <= zlen ascii) by (unfold zlen; lia).
  cbn [utf16_put_units replicate]. rewrite poke_app.
  rewrite (sz_small (zlen pre + 1)), (sz_small (zlen pre + 2)) by lia.
  set (u0 := if le then ch else x00). set (u1 := if le then x00 else ch).
  replace (pre ++ u0 :: x00 :: replicate n x00)
    with ((pre ++ [u0]) ++ x00 :: replicate n x00) by by rewrite <- app_assoc.
  replace (zlen pre + 1) with (zlen (pre ++ [u0]))
    by (rewrite zlen_app; reflexivity).
  rewrite poke_app.
  replace ((pre ++ [u0]) ++ u1 :: replicate n x00)
    with ((pre ++ [u0; u1]) ++ replicate n x00) by by rewrite <- !app_assoc.
  replace (zlen pre + 2) with (zlen (pre ++ [u0; u1]))
    by (rewrite zlen_app; reflexivity).
  rewrite IH.
  - f_equal. f_equal.
    + rewrite <- !app_assoc. f_equal. cbn [flat_map].
      replace (utf16_unit le ch) with [u0; u1] by by destruct le.
      cbn [app]. do 3 f_equal. f_equal. cbn [length]. lia.
    + rewrite zlen_app. change (zlen [u0; u1]) with 2. lia.
  - cbn [length] in Hn. lia.
  - rewrite zlen_app. change (zlen [u0; u1]) with 2. lia.
Qed.

Lemma utf16_from_ascii_run (h : heap) (ascii : list byte) (le bom : bool) :
  2 * zlen ascii + 4 <= SIZE_MAX -> grants h (tick h) = true ->
  rs_utf16_from_ascii_bytes ascii le bom h =
    Ok ((0, Some (utf16_bytes le bom ascii, zlen (utf16_bytes le bom ascii))),
        asked h).
Proof.
  intros Hfit Hg.
  assert (Ha : 0 <= zlen ascii) by (unfold zlen; lia).
  unfold rs_utf16_from_ascii_bytes, sv_len.
  rewrite (sz_small (zlen ascii + 1)) by lia.
  rewrite (sz_small ((zlen ascii + 1) * 2)) by lia.
  rewrite (sz_small (_ + (zlen ascii + 1) * 2)) by (destruct bom; lia).
  unfold bind at 1, malloc_bytes. rewrite Hg.
  set (pre := if bom then (if le then [xff; xfe] else [xfe; xff]) else []).
  set (n := (2 * length ascii + 2)%nat).
  assert (Ebom : utf16_put_bom le bom
                   (replicate
                      (Z.to_nat ((if bom then 2 else 0) + (zlen ascii + 1) * 2))
                      x00) =
                 Some (pre ++ replicate n x00, zlen pre)).
  { unfold utf16_put_bom, pre. destruct bom.
    - replace (Z.to_nat (2 + (zlen ascii + 1) * 2)) with (S (S n))
        by (unfold n, zlen; lia).
      cbn [replicate].
      assert (P0 : forall x rest b, poke (x :: rest) 0 b = Some (b :: rest))
        by (intros; apply (poke_app [])).
      assert (P1 : forall y x rest b,
                 poke (y :: x :: rest) 1 b = Some (y :: b :: rest))
        by (intros y x rest b; apply (poke_app [y])).
      rewrite P0, P1. by destruct le.
    - replace (Z.to_nat (0 + (zlen ascii + 1) * 2)) with n
        by (unfold n, zlen; lia).
      done. }
  rewrite Ebom. unfold bind at 1. cbn [lift ret]. cbv beta iota.
  assert (Hpre : zlen pre = if bom then 2 else 0)
    by (unfold pre; by destruct bom, le).
  rewrite put_units_spec by (unfold n; destruct bom; lia).
  unfold bind at 1. cbn [lift ret]. cbv beta iota.
  replace (n - 2 * length ascii)%nat with 2%nat by (unfold n; lia).
  cbn [replicate].
  rewrite (sz_small (zlen pre + 2 * zlen ascii + 1)) by (destruct bom; lia).
  replace (pre ++ flat_map (utf16_unit le) ascii ++ [x00; x00])
    with ((pre ++ flat_map (utf16_unit le) ascii) ++ [x00; x00])
    by by rewrite <- app_assoc.
  replace (zlen pre + 2 * zlen ascii)
    with (zlen (pre ++ flat_map (utf16_unit le) ascii))
    by (by rewrite zlen_app, zlen_units).
  rewrite poke_app. unfold bind at 1. cbn [lift ret].
  replace ((pre ++ flat_map (utf16_unit le) ascii) ++ [x00; x00])
    with (((pre ++ flat_map (utf16_unit le) ascii) ++ [x00]) ++ [x00])
    by by rewrite <- !app_assoc.
  replace (zlen (pre ++ flat_map (utf16_unit le) ascii) + 1)
    with (zlen ((pre ++ flat_map (utf16_unit le) ascii) ++ [x00]))
    by (by rewrite (zlen_app _ [x00])).
  rewrite poke_app. unfold bind at 1. cbn [lift ret].
  assert (Eb : ((pre ++ flat_map (utf16_unit le) ascii) ++ [x00]) ++ [x00] =
               utf16_bytes le bom ascii).
  { unfold utf16_bytes. fold pre. by rewrite <- !app_assoc. }
  rewrite Eb, zlen_utf16_bytes.
  by replace ((zlen ascii + 1) * 2) with (2 * (zlen ascii + 1)) by lia.
Qed.

(** X21.  [rs_utf16_from_ascii_bytes]: when its [malloc] is granted it returns
    [0] and a buffer that holds the byte order mark if one was asked for,
    then for each byte of the input one code unit in the byte order asked
    for, then a terminating unit of two zero bytes; the length it reports
    is that of the buffer, twice the number of bytes and two more for the
    terminator and for the mark each.  When the [malloc] is refused it
    returns [-1] and no buffer. *)
Theorem utf16_from_ascii_layout (h : heap) (ascii : list byte)
    (little_endian write_bom : bool) :
  2 * zlen ascii + 4 <= SIZE_MAX ->
  rs_utf16_from_ascii_bytes ascii little_endian write_bom h =
    (if grants h (tick h)
     then Ok ((0, Some (utf16_bytes little_endian write_bom ascii,
                        (if write_bom then 2 else 0) + 2 * (zlen ascii + 1))),
              asked h)
     else Ok ((-1, None), asked h)) /\
  zlen (utf16_bytes little_endian write_bom ascii) =
    (if write_bom then 2 else 0) + 2 * (zlen ascii + 1).
Proof.
  intros Hfit. split; [|apply zlen_utf16_bytes].
  destruct (grants h (tick h)) eqn:Hg.
  - rewrite utf16_from_ascii_run by done. by rewrite zlen_utf16_bytes.
  - unfold rs_utf16_from_ascii_bytes, bind, malloc_bytes. by rewrite Hg.
Qed.

Lemma utf16_from_ascii_layout_witness :
  rs_utf16_from_ascii_bytes (bs "Hi") true true heap0 =
    (if grants heap0 (tick heap0)
     then Ok ((0, Some (utf16_bytes true true (bs "Hi"),
                        (if true then 2 else 0) + 2 * (zlen (bs "Hi") + 1))),
              asked heap0)
     else Ok ((-1, None), asked heap0)) /\
  zlen (utf16_bytes true true (bs "Hi")) =
    (if true then 2 else 0) + 2 * (zlen (bs "Hi") + 1).
Proof. apply (utf16_from_ascii_layout heap0 (bs "Hi") true true). decided. Defined.

Lemma byte_value_range (b : byte) : 0 <= Z.of_N (Byte.to_N b) <= 255.
Proof. pose proof (Byte.to_N_bounded b). lia. Qed.

Lemma byte_of_code_value (b : byte) : byte_of_code (Z.of_N (Byte.to_N b)) = b.
Proof. unfold byte_of_code. by rewrite N2Z.id, Byte.of_to_N. Qed.

(** What the loop makes of the two bytes of one code unit of an ASCII
    byte: the byte itself when it reads them in the order they were
    written in, [replace] otherwise. *)
Lemma decode_unit (le little : bool) (ch replace : byte) :
  is_ascii ch = true ->
  let v := Z.of_N (Byte.to_N ch) in
  let b0 := if le then v else 0 in
  let b1 := if le then 0 else v in
  let code := if little then Z.lor b0 (Z.shiftl b1 8)
              else Z.lor (Z.shiftl b0 8) b1 in
  code <> 0 /\
  (if code <=? 127 then byte_of_code code else replace) =
    (if bool_decide (little = le) then ch else replace).
Proof.
  unfold is_ascii. intros Hch. apply andb_prop in Hch as [H0 H1].
  apply Z.ltb_lt in H0. apply Z.leb_le in H1. cbv zeta.
  set (v := Z.of_N (Byte.to_N ch)) in *.
  assert (Es : Z.shiftl v 8 = v * 256) by (rewrite Z.shiftl_mul_pow2; lia).
  change (Z.shiftl 0 8) with 0.
  destruct le, little; rewrite ?Es, ?Z.lor_0_r, ?Z.lor_0_l.
  - split; [lia|]. rewrite (proj2 (Z.leb_le v 127)) by lia.
    rewrite bool_decide_eq_true_2 by done. apply byte_of_code_value.
  - split; [lia|]. rewrite (proj2 (Z.leb_gt (v * 256) 127)) by lia.
    by rewrite bool_decide_eq_false_2 by done.
  - split; [lia|]. rewrite (proj2 (Z.leb_gt (v * 256) 127)) by lia.
    by rewrite bool_decide_eq_false_2 by done.
  - split; [lia|]. rewrite (proj2 (Z.leb_le v 127)) by lia.
    rewrite bool_decide_eq_true_2 by done. apply byte_of_code_value.
Qed.

Lemma peek_app (pre rest : list byte) (b : byte) :
  peek (pre ++ b :: rest) (zlen pre) = Some (Z.of_N (Byte.to_N b)).
Proof.
  apply peek_lookup; [unfold zlen; lia|].
  unfold zlen. rewrite Nat2Z.id. by apply list_lookup_middle.
Qed.

Lemma decode_loop_spec (le little : bool) (replace : byte) (a : list byte) :
  Forall (fun b => is_ascii b = true) a ->
  forall (fuel : nat) (pre : list byte) (out : rs_string) (h : heap)
         (c : list byte),
    heap_ok h -> wf h out -> alloc_ok h -> content out h = Some c ->
    rs_string_cap out <= CAP_LIMIT -> zlen c + zlen a <= LIMIT ->
    zlen pre + 2 * zlen a + 2 <= SIZE_MAX ->
    (length a < fuel)%nat ->
    exists out' h',
      ascii_from_utf16_loop fuel out
        (pre ++ flat_map (utf16_unit le) a ++ [x00; x00]) little replace
        (zlen pre) h = Ok (Some out', h') /\
      heap_ok h' /\ wf h' out' /\
      content out' h' =
        Some (c ++ map (fun ch => if bool_decide (little = le)
                                  then ch else replace) a).
Proof.
  induction 1 as [|ch a Hch Hall IH];
    intros fuel pre out h c Hh Hwf Ha Hc Hcap Hlim Hfit Hfuel.
  - destruct fuel as [|k]; [cbn in Hfuel; lia|].
    assert (Hp : 0 <= zlen pre) by (unfold zlen; lia).
    change (zlen []) with 0 in *.
    cbn [ascii_from_utf16_loop flat_map app map]. unfold sv_len.
    rewrite zlen_app. change (zlen [x00; x00]) with 2.
    rewrite sz_small by lia.
    rewrite (proj2 (Z.ltb_lt (zlen pre + 1) (zlen pre + 2))) by lia.
    rewrite peek_app. unfold bind at 1. cbn [lift ret].
    replace (pre ++ [x00; x00]) with ((pre ++ [x00]) ++ [x00])
      by by rewrite <- app_assoc.
    replace (zlen pre + 1) with (zlen (pre ++ [x00]))
      by (by rewrite zlen_app).
    rewrite peek_app. unfold bind at 1. cbn [lift ret].
    change (Z.of_N (Byte.to_N x00)) with 0.
    replace (if little then Z.lor 0 (Z.shiftl 0 8) else Z.lor (Z.shiftl 0 8) 0)
      with 0 by by destruct little.
    cbn [Z.eqb]. exists out, h. split; [done|].
    split; [done|]. split; [done|]. by rewrite app_nil_r.
  - destruct fuel as [|k]; [cbn in Hfuel; lia|].
    assert (Hp : 0 <= zlen pre) by (unfold zlen; lia).
    assert (Hz : zlen (ch :: a) = zlen a + 1)
      by (unfold zlen; cbn [length]; lia).
    assert (Hza : 0 <= zlen a) by (unfold zlen; lia).
    assert (Hzc : 0 <= zlen c) by (unfold zlen; lia).
    rewrite Hz in *.
    pose proof (content_length h out c Hwf Hc) as Hlen.
    destruct (wf_cstr h out Hwf) as (buf0 & _ & _ & Hl0 & _).
    set (u0 := if le then ch else x00). set (u1 := if le then x00 else ch).
    set (e := if bool_decide (little = le) then ch else replace).
    assert (Eu : pre ++ flat_map (utf16_unit le) (ch :: a) ++ [x00; x00] =
                 (pre ++ [u0; u1]) ++ flat_map (utf16_unit le) a ++ [x00; x00]).
    { cbn [flat_map]. replace (utf16_unit le ch) with [u0; u1]
        by by destruct le.
      by rewrite <- !app_assoc. }
    destruct (outcome_ok _ _ _ _ Ha
                (append_spec h out [e] c Hh Hwf (roomy_limit out Hcap)
                   ltac:(change (zlen [e]) with 1; zlim) Hc))
      as (out1 & h1 & Hrun1 & Hh1 & Hwf1 & Ha1 & _ & Hc1 & Hl1 & Hcap1).
    destruct (IH k (pre ++ [u0; u1]) out1 h1 (c ++ [e]))
      as (out' & h' & Hrun' & Hh' & Hwf' & Hc'); try done.
    { rewrite Hcap1. apply cap_after_limit; [lia|].
      change (zlen [e]) with 1. zlim. }
    { rewrite zlen_app. change (zlen [e]) with 1. lia. }
    { rewrite zlen_app. change (zlen [u0; u1]) with 2. lia. }
    { cbn [length] in Hfuel. lia. }
    exists out', h'. split.
    + cbn [ascii_from_utf16_loop]. rewrite Eu. unfold sv_len.
      rewrite !zlen_app, zlen_units.
      change (zlen [u0; u1]) with 2. change (zlen [x00; x00]) with 2.
      rewrite (sz_small (zlen pre + 1)), (sz_small (zlen pre + 2)) by lia.
      rewrite (proj2 (Z.ltb_lt (zlen pre + 1) _)) by lia.
      replace ((pre ++ [u0; u1]) ++ flat_map (utf16_unit le) a ++ [x00; x00])
        with (pre ++ u0 :: (u1 :: flat_map (utf16_unit le) a ++ [x00; x00]))
        by by rewrite <- !app_assoc.
      rewrite peek_app. unfold bind at 1. cbn [lift ret].
      replace (pre ++ u0 :: (u1 :: flat_map (utf16_unit le) a ++ [x00; x00]))
        with ((pre ++ [u0]) ++ u1 :: (flat_map (utf16_unit le) a ++ [x00; x00]))
        by by rewrite <- !app_assoc.
      replace (zlen pre + 1) with (zlen (pre ++ [u0]))
        by (by rewrite zlen_app).
      rewrite peek_app. unfold bind at 1. cbn [lift ret].
      pose proof (decode_unit le little ch replace Hch) as [Hne Hout].
      cbv zeta in Hne, Hout.
      replace (Z.of_N (Byte.to_N u0))
        with (if le then Z.of_N (Byte.to_N ch) else 0) by by destruct le.
      replace (Z.of_N (Byte.to_N u1))
        with (if le then 0 else Z.of_N (Byte.to_N ch)) by by destruct le.
      rewrite (proj2 (Z.eqb_neq _ 0) Hne), Hout. fold e.
      unfold rs_string_push_char. unfold bind at 1. rewrite Hrun1.
      cbv beta iota.
      replace ((pre ++ [u0]) ++ u1 :: flat_map (utf16_unit le) a ++ [x00; x00])
        with ((pre ++ [u0; u1]) ++ flat_map (utf16_unit le) a ++ [x00; x00])
        by by rewrite <- !app_assoc.
      replace (zlen pre + 2) with (zlen (pre ++ [u0; u1]))
        by (by rewrite zlen_app).
      exact Hrun'.
    + split; [done|]. split; [done|]. rewrite Hc'. f_equal.
      cbn [map]. fold e. by rewrite <- app_assoc.
Qed.

Lemma peek_first (b : byte) (rest : list byte) :
  peek (b :: rest) 0 = Some (Z.of_N (Byte.to_N b)).
Proof. apply (peek_app []). Qed.

Lemma peek_second (a b : byte) (rest : list byte) :
  peek (a :: b :: rest) 1 = Some (Z.of_N (Byte.to_N b)).
Proof. apply (peek_app [a]). Qed.

(** The byte order [utf16_order] finds in what
    [rs_utf16_from_ascii_bytes] wrote for ASCII bytes. *)
Lemma utf16_order_bytes (le bom dflt : bool) (a : list byte) :
  Forall (fun b => is_ascii b = true) a ->
  utf16_order (utf16_bytes le bom a) dflt =
    Some (if bom then (le, 2) else (dflt, 0)).
Proof.
  intros Hall. unfold utf16_order, sv_len. rewrite zlen_utf16_bytes.
  assert (Ha : 0 <= zlen a) by (unfold zlen; lia).
  rewrite (proj2 (Z.leb_le 2 _)) by (destruct bom; lia).
  unfold utf16_bytes. destruct bom.
  - destruct le; cbn [app]; by rewrite peek_first, peek_second.
  - cbn [app]. destruct Hall as [|ch a Hch Hall].
    + cbn [flat_map app]. by rewrite peek_first, peek_second.
    + cbn [flat_map]. unfold is_ascii in Hch.
      apply andb_prop in Hch as [H0 H1].
      apply Z.ltb_lt in H0. apply Z.leb_le in H1.
      destruct le; cbn [utf16_unit app].
      * rewrite peek_first, peek_second.
        rewrite (proj2 (Z.eqb_neq (Z.of_N (Byte.to_N ch)) 255)) by lia.
        by rewrite (proj2 (Z.eqb_neq (Z.of_N (Byte.to_N ch)) 254)) by lia.
      * by rewrite peek_first, peek_second.
Qed.

Lemma asked_ok h : heap_ok h -> heap_ok (asked h).
Proof. by intros [H0 H1]. Qed.

Lemma asked_alloc_ok h : alloc_ok h -> alloc_ok (asked h).
Proof. intros Ha n. apply Ha. Qed.

Lemma decode_encoded (h : heap) (out : rs_string) (a : list byte)
    (le bom dflt : bool) (replace : byte) (fuel : nat) :
  heap_ok h -> wf h out -> alloc_ok h -> rs_string_cap out <= CAP_LIMIT ->
  Forall (fun b => is_ascii b = true) a -> zlen a <= LIMIT ->
  (length a < fuel)%nat ->
  exists out' h',
    rs_ascii_from_utf16_bytes fuel out (utf16_bytes le bom a) dflt replace h =
      Ok (Some (0, out'), h') /\
    wf h' out' /\
    content out' h' =
      Some (map (fun ch => if bool_decide ((if bom then le else dflt) = le)
                           then ch else replace) a).
Proof.
  intros Hh Hwf Ha Hcap Hall Hlim Hfuel.
  assert (Hza : 0 <= zlen a) by (unfold zlen; lia).
  destruct (wf_cstr h out Hwf) as (buf0 & _ & _ & Hl0 & _).
  unfold rs_ascii_from_utf16_bytes.
  rewrite utf16_order_bytes by done. unfold bind at 1. cbn [lift ret].
  assert (Hnil : zlen (@nil byte) <= CAP_MAX) by (vm_compute; discriminate).
  destruct (outcome_ok _ _ _ _ Ha
              (assign_spec h out [] Hh Hwf (roomy_limit out Hcap) Hnil))
    as (out0 & h0 & Hrun0 & Hh0 & Hwf0 & Ha0 & _ & Hc0 & Hl0' & Hcap0).
  assert (Hcap0' : rs_string_cap out0 <= CAP_LIMIT).
  { rewrite Hcap0. apply cap_after_limit; [lia|].
    change (zlen []) with 0. zlim. }
  set (pre := if bom then (if le then [xff; xfe] else [xfe; xff]) else []).
  assert (Hpre : zlen pre = if bom then 2 else 0)
    by (unfold pre; by destruct bom, le).
  destruct (decode_loop_spec le (if bom then le else dflt) replace a Hall
              fuel pre out0 h0 [] Hh0 Hwf0 Ha0 Hc0 Hcap0')
    as (out' & h' & Hrun' & Hh' & Hwf' & Hc'); [ | | done | ].
  { change (zlen []) with 0. lia. }
  { rewrite Hpre. destruct bom; zlim. }
  exists out', h'. split; [|by split].
  assert (Ei : (if bom then (le, 2) else (dflt, 0)) =
               (if bom then le else dflt, zlen pre))
    by (rewrite Hpre; by destruct bom).
  rewrite Ei. cbv beta iota.
  unfold rs_string_clear. unfold bind at 1. rewrite Hrun0. cbv beta iota.
  unfold bind at 1. unfold utf16_bytes. fold pre. by rewrite Hrun'.
Qed.

(** X22.  ASCII bytes other than the terminator come back from UTF-16:
    [rs_ascii_from_utf16_bytes] applied to the buffer
    [rs_utf16_from_ascii_bytes] wrote for them leaves exactly these bytes in
    [out], whatever [out] held, when a byte order mark was written or the
    default byte order given is the one used for writing, and no allocation
    is refused. *)
Theorem ascii_utf16_round_trip (h : heap) (out : rs_string) (ascii : list byte)
    (little_endian write_bom default_little_endian : bool) (replace : byte)
    (fuel : nat) :
  heap_ok h -> wf h out -> alloc_ok h -> rs_string_cap out <= CAP_LIMIT ->
  Forall (fun b => is_ascii b = true) ascii -> zlen ascii <= LIMIT ->
  (write_bom = false -> default_little_endian = little_endian) ->
  (length ascii < fuel)%nat ->
  exists u16 n h1 out' h',
    rs_utf16_from_ascii_bytes ascii little_endian write_bom h =
      Ok ((0, Some (u16, n)), h1) /\
    n = zlen u16 /\
    rs_ascii_from_utf16_bytes fuel out u16 default_little_endian replace h1 =
      Ok (Some (0, out'), h') /\
    wf h' out' /\ content out' h' = Some ascii.
Proof.
  intros Hh Hwf Ha Hcap Hall Hlim Hord Hfuel.
  assert (Hza : 0 <= zlen ascii) by (unfold zlen; lia).
  destruct (decode_encoded (asked h) out ascii little_endian write_bom
              default_little_endian replace fuel
              (asked_ok h Hh) (wf_blocks h (asked h) out eq_refl Hwf)
              (asked_alloc_ok h Ha) Hcap Hall Hlim Hfuel)
    as (out' & h' & Hrun & Hwf' & Hc').
  exists (utf16_bytes little_endian write_bom ascii),
    (zlen (utf16_bytes little_endian write_bom ascii)), (asked h), out', h'.
  split; [apply utf16_from_ascii_run; [zlim | apply Ha]|].
  split; [done|]. split; [done|]. split; [done|].
  rewrite Hc'. f_equal.
  rewrite bool_decide_eq_true_2 by (destruct write_bom; [done|by apply Hord]).
  apply map_id.
Qed.

Lemma ascii_utf16_round_trip_witness :
  exists u16 n h1 out' h',
    rs_utf16_from_ascii_bytes (bs "Hi") false true heap0 =
      Ok ((0, Some (u16, n)), h1) /\
    n = zlen u16 /\
    rs_ascii_from_utf16_bytes 3 abc_string u16 true x3f h1 =
      Ok (Some (0, out'), h') /\
    wf h' out' /\ content out' h' = Some (bs "Hi").
Proof.
  apply (ascii_utf16_round_trip heap0 abc_string (bs "Hi") false true true x3f 3).
  - exact heap0_ok.
  - exact (abc_wf heap0).
  - exact heap0_alloc_ok.
  - decided.
  - repeat constructor.
  - decided.
  - discriminate.
  - decided.
Defined.

(** X23.  Without a byte order mark the byte order is not checked: when
    [rs_ascii_from_utf16_bytes] is given the other default byte order than
    the one [rs_utf16_from_ascii_bytes] wrote in, it still returns [0], and
    every byte of the text comes out as [replace]. *)
Theorem ascii_utf16_wrong_order (h : heap) (out : rs_string) (ascii : list byte)
    (little_endian : bool) (replace : byte) (fuel : nat) :
  heap_ok h -> wf h out -> alloc_ok h -> rs_string_cap out <= CAP_LIMIT ->
  Forall (fun b => is_ascii b = true) ascii -> zlen ascii <= LIMIT ->
  (length ascii < fuel)%nat ->
  exists u16 n h1 out' h',
    rs_utf16_from_ascii_bytes ascii little_endian false h =
      Ok ((0, Some (u16, n)), h1) /\
    rs_ascii_from_utf16_bytes fuel out u16 (negb little_endian) replace h1 =
      Ok (Some (0, out'), h') /\
    wf h' out' /\ content out' h' = Some (replicate (length ascii) replace).
Proof.
  intros Hh Hwf Ha Hcap Hall Hlim Hfuel.
  assert (Hza : 0 <= zlen ascii) by (unfold zlen; lia).
  destruct (decode_encoded (asked h) out ascii little_endian false
              (negb little_endian) replace fuel
              (asked_ok h Hh) (wf_blocks h (asked h) out eq_refl Hwf)
              (asked_alloc_ok h Ha) Hcap Hall Hlim Hfuel)
    as (out' & h' & Hrun & Hwf' & Hc').
  exists (utf16_bytes little_endian false ascii),
    (zlen (utf16_bytes little_endian false ascii)), (asked h), out', h'.
  split; [apply utf16_from_ascii_run; [zlim | apply Ha]|].
  split; [done|]. split; [done|].
  rewrite Hc'. f_equal.
  rewrite bool_decide_eq_false_2 by by destruct little_endian.
  clear. induction ascii as [|ch a IH]; [done|].
  cbn [map length replicate]. by rewrite IH.
Qed.

Lemma ascii_utf16_wrong_order_witness :
  exists u16 n h1 out' h',
    rs_utf16_from_ascii_bytes (bs "Hi") true false heap0 =
      Ok ((0, Some (u16, n)), h1) /\
    rs_ascii_from_utf16_bytes 3 abc_string u16 (negb true) x3f h1 =
      Ok (Some (0, out'), h') /\
    wf h' out' /\
    content out' h' = Some (replicate (length (bs "Hi")) x3f).
Proof.
  apply (ascii_utf16_wrong_order heap0 abc_string (bs "Hi") true x3f 3).
  - exact heap0_ok.
  - exact (abc_wf heap0).
  - exact heap0_alloc_ok.
  - decided.
  - repeat constructor.
  - decided.
  - decided.
Defined.

(** ** The conversions that copy *)

Lemma copy_zeros (utf8 : list byte) (pad : nat) :
  memcpy (replicate (Z.to_nat (zlen utf8 + Z.of_nat pad)) x00) 0 utf8 0
    (zlen utf8) = Some (utf8 ++ replicate pad x00).
Proof.
  assert (Hz : 0 <= zlen utf8) by (unfold zlen; lia).
  unfold memcpy.
  rewrite !in_range_true;
    try (unfold zlen; rewrite ?length_replicate; lia).
  cbn [andb]. f_equal. change (Z.to_nat 0) with 0%nat.
  rewrite take_0, bytes_at_all. cbn [app]. f_equal.
  replace (Z.to_nat (0 + zlen utf8)) with (length utf8) by (unfold zlen; lia).
  replace (Z.to_nat (zlen utf8 + Z.of_nat pad)) with (length utf8 + pad)%nat
    by (unfold zlen; lia).
  rewrite drop_replicate. f_equal. lia.
Qed.

(** Writing a zero where there is one. *)
Lemma poke_zero (pre rest : list byte) (i : Z) :
  i = zlen pre ->
  poke (pre ++ x00 :: rest) i x00 = Some (pre ++ x00 :: rest).
Proof. intros ->. apply poke_app. Qed.

Lemma utf16_from_utf8_run (h : heap) (utf8 : list byte) (le bom : bool) :
  zlen utf8 + 2 <= SIZE_MAX -> grants h (tick h) = true ->
  rs_utf16_from_utf8_bytes utf8 le bom h =
    Ok ((0, Some (utf8 ++ [x00; x00], zlen utf8 + 2)), asked h).
Proof.
  intros Hfit Hg. assert (Hz : 0 <= zlen utf8) by (unfold zlen; lia).
  unfold rs_utf16_from_utf8_bytes, sv_len.
  rewrite (sz_small (zlen utf8 + 2)), (sz_small (zlen utf8 + 1)) by lia.
  unfold bind at 1, malloc_bytes. rewrite Hg.
  pose proof (copy_zeros utf8 2) as Ecopy.
  change (Z.of_nat 2) with 2 in Ecopy. rewrite Ecopy. unfold bind at 1. cbn [lift ret replicate].
  rewrite (poke_zero utf8 [x00]) by done.
  unfold bind at 1. cbn [lift ret].
  replace (utf8 ++ [x00; x00]) with ((utf8 ++ [x00]) ++ [x00])
    by by rewrite <- app_assoc.
  rewrite (poke_zero (utf8 ++ [x00]) []) by by rewrite zlen_app.
  unfold bind at 1. cbn [lift ret]. done.
Qed.

Lemma utf32_from_utf8_run (h : heap) (utf8 : list byte) (le bom : bool) :
  zlen utf8 + 4 <= SIZE_MAX -> grants h (tick h) = true ->
  rs_utf32_from_utf8_bytes utf8 le bom h =
    Ok ((0, Some (utf8 ++ [x00; x00; x00; x00], zlen utf8 + 4)), asked h).
Proof.
  intros Hfit Hg. assert (Hz : 0 <= zlen utf8) by (unfold zlen; lia).
  unfold rs_utf32_from_utf8_bytes, sv_len.
  rewrite (sz_small (zlen utf8 + 4)), (sz_small (zlen utf8 + 1)),
    (sz_small (zlen utf8 + 2)), (sz_small (zlen utf8 + 3)) by lia.
  unfold bind at 1, malloc_bytes. rewrite Hg.
  pose proof (copy_zeros utf8 4) as Ecopy.
  change (Z.of_nat 4) with 4 in Ecopy. rewrite Ecopy. unfold bind at 1. cbn [lift ret replicate].
  rewrite (poke_zero utf8 [x00; x00; x00]) by done.
  unfold bind at 1. cbn [lift ret].
  replace (utf8 ++ [x00; x00; x00; x00])
    with ((utf8 ++ [x00]) ++ [x00; x00; x00]) by by rewrite <- app_assoc.
  rewrite (poke_zero (utf8 ++ [x00]) [x00; x00]) by by rewrite zlen_app.
  unfold bind at 1. cbn [lift ret].
  replace ((utf8 ++ [x00]) ++ [x00; x00; x00])
    with ((utf8 ++ [x00; x00]) ++ [x00; x00]) by by rewrite <- !app_assoc.
  rewrite (poke_zero (utf8 ++ [x00; x00]) [x00]) by by rewrite zlen_app.
  unfold bind at 1. cbn [lift ret].
  replace ((utf8 ++ [x00; x00]) ++ [x00; x00])
    with ((utf8 ++ [x00; x00; x00]) ++ [x00]) by by rewrite <- !app_assoc.
  rewrite (poke_zero (utf8 ++ [x00; x00; x00]) []) by by rewrite zlen_app.
  unfold bind at 1. cbn [lift ret].
  by rewrite <- app_assoc.
Qed.

(** X24.  The conversions between UTF-8 and UTF-16 or UTF-32 do not convert:
    [rs_utf16_from_utf8_bytes] and [rs_utf32_from_utf8_bytes] return a copy
    of the input followed by two, or four, zero bytes, whatever the byte
    order and the byte order mark asked for, and
    [rs_utf8_from_utf16_bytes] and [rs_utf8_from_utf32_bytes] assign their
    input as it is; so the way there and back gives the input with the
    terminating bytes added, not the input. *)
Theorem utf8_conversions_copy (h : heap) (out : rs_string) (utf8 : list byte)
    (little_endian write_bom default_little_endian : bool) :
  heap_ok h -> wf h out -> alloc_ok h -> rs_string_cap out <= CAP_LIMIT ->
  zlen utf8 + 4 <= CAP_MAX ->
  (exists out' h',
      rs_utf16_from_utf8_bytes utf8 little_endian write_bom h =
        Ok ((0, Some (utf8 ++ [x00; x00], zlen utf8 + 2)), asked h) /\
      rs_utf8_from_utf16_bytes out (utf8 ++ [x00; x00])
        default_little_endian (asked h) = Ok ((0, out'), h') /\
      content out' h' = Some (utf8 ++ [x00; x00])) /\
  (exists out' h',
      rs_utf32_from_utf8_bytes utf8 little_endian write_bom h =
        Ok ((0, Some (utf8 ++ [x00; x00; x00; x00], zlen utf8 + 4)), asked h) /\
      rs_utf8_from_utf32_bytes out (utf8 ++ [x00; x00; x00; x00])
        default_little_endian (asked h) = Ok ((0, out'), h') /\
      content out' h' = Some (utf8 ++ [x00; x00; x00; x00])).
Proof.
  intros Hh Hwf Ha Hcap Hfit.
  assert (Hz : 0 <= zlen utf8) by (unfold zlen; lia).
  assert (Hback : forall v : list byte,
             zlen v <= CAP_MAX ->
             exists out' h',
               rs_string_assign out v (asked h) = Ok ((0, out'), h') /\
               content out' h' = Some v).
  { intros v Hv.
    destruct (outcome_ok _ _ _ _ (asked_alloc_ok h Ha)
                (assign_spec (asked h) out v (asked_ok h Hh)
                   (wf_blocks h (asked h) out eq_refl Hwf)
                   (roomy_limit out Hcap) Hv))
      as (out' & h' & Hrun & _ & _ & _ & _ & Hc & _).
    by exists out', h'. }
  split.
  - destruct (Hback (utf8 ++ [x00; x00])) as (out' & h' & Hrun & Hc).
    { rewrite zlen_app. change (zlen [x00; x00]) with 2. lia. }
    exists out', h'. split; [|by split].
    apply utf16_from_utf8_run; [zlia | apply Ha].
  - destruct (Hback (utf8 ++ [x00; x00; x00; x00])) as (out' & h' & Hrun & Hc).
    { rewrite zlen_app. change (zlen [x00; x00; x00; x00]) with 4. lia. }
    exists out', h'. split; [|by split].
    apply utf32_from_utf8_run; [zlia | apply Ha].
Qed.

Lemma utf8_conversions_copy_witness :
  (exists out' h',
      rs_utf16_from_utf8_bytes (bs "Hi") true true heap0 =
        Ok ((0, Some (bs "Hi" ++ [x00; x00], zlen (bs "Hi") + 2)), asked heap0) /\
      rs_utf8_from_utf16_bytes abc_string (bs "Hi" ++ [x00; x00])
        true (asked heap0) = Ok ((0, out'), h') /\
      content out' h' = Some (bs "Hi" ++ [x00; x00])) /\
  (exists out' h',
      rs_utf32_from_utf8_bytes (bs "Hi") true true heap0 =
        Ok ((0, Some (bs "Hi" ++ [x00; x00; x00; x00], zlen (bs "Hi") + 4)),
            asked heap0) /\
      rs_utf8_from_utf32_bytes abc_string (bs "Hi" ++ [x00; x00; x00; x00])
        true (asked heap0) = Ok ((0, out'), h') /\
      content out' h' = Some (bs "Hi" ++ [x00; x00; x00; x00])).
Proof.
  apply (utf8_conversions_copy heap0 abc_string (bs "Hi") true true true).
  - exact heap0_ok.
  - exact (abc_wf heap0).
  - exact heap0_alloc_ok.
  - decided.
  - decided.
Defined.

(** ** Copy on write: the other owners of a block *)

Lemma holds_ret {A} (a : A) (h : heap) (Q : A -> heap -> Prop) :
  Q a h -> holds (ret a) h Q.
Proof. intros Hq a' h' [= <- <-]. done. Qed.

Lemma holds_fault {A} (h : heap) (Q : A -> heap -> Prop) : holds fault h Q.
Proof. intros a h' E. done. Qed.

Lemma holds_bind {A B} (c : M A) (k : A -> M B) (h : heap)
    (P : A -> heap -> Prop) (Q : B -> heap -> Prop) :
  holds c h P -> (forall a h1, P a h1 -> holds (k a) h1 Q) ->
  holds (c' <- c ;; k c') h Q.
Proof.
  intros Hc Hk b h' E. unfold bind in E.
  destruct (c h) as [[a h1]|] eqn:Ec; [|done].
  exact (Hk a h1 (Hc a h1 Ec) b h' E).
Qed.

Lemma holds_lift {A} (o : option A) (h : heap) (Q : A -> heap -> Prop) :
  (forall a, Q a h) -> holds (lift o) h Q.
Proof. intros Hq. destruct o; [by apply holds_ret | apply holds_fault]. Qed.

Lemma holds_reads {A B} (c : M A) (k : A -> M B) (h : heap)
    (Q : B -> heap -> Prop) :
  reads c -> (forall a, holds (k a) h Q) -> holds (c' <- c ;; k c') h Q.
Proof.
  intros Hc Hk. eapply holds_bind; [apply Hc|].
  intros a h1 ->. apply Hk.
Qed.

Lemma load_reads a : reads (load_hdr a).
Proof.
  intros h b h' E. unfold load_hdr in E.
  destruct (a =? 0); [done|].
  destruct (blocks h !! a); [|done]. by injection E as _ <-.
Qed.

Lemma reads_bind_ret {A B} (c : M A) (g : A -> B) :
  reads c -> reads (x <- c ;; ret (g x)).
Proof.
  intros Hc h. eapply holds_bind; [apply Hc|].
  intros a h1 ->. by apply holds_ret.
Qed.

Lemma rc_get_reads a : reads (rs__rc_get a).
Proof. apply (reads_bind_ret _ hrc), load_reads. Qed.

Lemma get_cap_reads a : reads (hdr_get_cap a).
Proof. apply (reads_bind_ret _ hcap), load_reads. Qed.

Lemma buf_load_reads a : reads (buf_load a).
Proof. apply (reads_bind_ret _ hbuf), load_reads. Qed.

Lemma cstr_reads s : reads (rs_string_cstr s).
Proof.
  unfold rs_string_cstr. destruct (p s).
  - intros h. by apply holds_ret.
  - apply buf_load_reads.
  - intros h. apply holds_fault.
Qed.

Lemma lift_reads {A} (o : option A) : reads (lift o).
Proof. intros h. by apply holds_lift. Qed.

Lemma find_reads s what from : reads (rs_string_find s what from).
Proof.
  intros h. unfold rs_string_find.
  apply holds_reads; [apply cstr_reads|]. intros buf.
  destruct (sv_len what =? 0); [by apply holds_ret | by apply holds_lift].
Qed.

Lemma starts_with_reads s pfx : reads (rs_string_starts_with s pfx).
Proof.
  intros h. unfold rs_string_starts_with.
  apply holds_reads; [apply cstr_reads|]. intros buf.
  destruct (sv_len pfx <=? len s); [|by apply holds_ret].
  apply holds_reads; [apply lift_reads|]. intros c. by apply holds_ret.
Qed.

Lemma ends_with_reads s sfx : reads (rs_string_ends_with s sfx).
Proof.
  intros h. unfold rs_string_ends_with.
  apply holds_reads; [apply cstr_reads|]. intros buf.
  destruct (sv_len sfx <=? len s); [|by apply holds_ret].
  apply holds_reads; [apply lift_reads|]. intros c. by apply holds_ret.
Qed.

Section Apart.
Variables (x : Z) (buf : list byte).

Local Abbreviation held := (block_kept x buf).
Local Abbreviation same := (same_block x buf).
Local Abbreviation safe := (safe x buf).
Local Abbreviation iter_safe := (iter_safe x buf).
Local Abbreviation result_safe := (result_safe x buf).

Lemma kept_same h : held h -> same h h.
Proof. by split. Qed.

Lemma same_kept h0 h : same h0 h -> held h.
Proof. by intros [H _]. Qed.

Lemma same_trans h0 h1 h2 : same h0 h1 -> same h1 h2 -> same h0 h2.
Proof. intros [_ E1] [K2 E2]. split; [done | congruence]. Qed.

(** A block other than the one at [x] is rewritten. *)
Lemma update_away (g : rs__hdr -> rs__hdr) (a : Z) (h : heap) :
  held h -> a <> x ->
  holds (b <- load_hdr a ;; store_hdr a (g b)) h (fun _ h' => same h h').
Proof.
  intros (Hx0 & Hxn & blk & Hblk & Hbuf) Hne u h' E.
  unfold bind, load_hdr, store_hdr in E.
  destruct (a =? 0); [done|].
  destruct (blocks h !! a) as [b|] eqn:Hb; [|done].
  cbv beta iota in E. rewrite Hb in E.
  injection E as _ <-. split.
  - split; [done|]. split; [done|]. exists blk. split; [|done].
    cbn. by rewrite lookup_insert_ne.
  - cbn. by rewrite lookup_insert_ne.
Qed.

(** The reference count of a block goes down; its bytes stay. *)
Lemma rc_dec_kept (a : Z) (h : heap) :
  held h -> holds (rs__rc_dec a) h (fun _ h' => held h').
Proof.
  intros (Hx0 & Hxn & blk & Hblk & Hbuf) v h' E.
  unfold rs__rc_dec, bind, load_hdr, store_hdr, ret in E.
  destruct (a =? 0); [done|].
  destruct (blocks h !! a) as [b|] eqn:Hb; [|done].
  cbv beta iota in E. rewrite Hb in E.
  injection E as _ <-. split; [done|]. split; [done|].
  destruct (decide (a = x)) as [->|Hne].
  - eexists. cbn. rewrite lookup_insert_eq. split; [done|].
    cbn. rewrite Hblk in Hb. by injection Hb as <-.
  - exists blk. cbn. by rewrite lookup_insert_ne.
Qed.

Lemma malloc_away (n : Z) (h : heap) :
  held h ->
  holds (rs__sys_malloc n) h (fun a h' => same h h' /\ a <> x).
Proof.
  intros (Hx0 & Hxn & blk & Hblk & Hbuf) a h' E.
  unfold rs__sys_malloc in E. destruct (grants h (tick h)).
  - injection E as <- <-. split; [|lia]. split.
    + split; [done|]. split; [cbn; lia|]. exists blk.
      cbn. by rewrite lookup_insert_ne by lia.
    + cbn. by rewrite lookup_insert_ne by lia.
  - injection E as <- <-. split; [|done]. split; [|done].
    split; [done|]. split; [done|]. by exists blk.
Qed.

Lemma realloc_away (q n : Z) (h : heap) :
  held h -> q <> x ->
  holds (rs__sys_realloc q n) h (fun a h' => same h h' /\ a <> x).
Proof.
  intros (Hx0 & Hxn & blk & Hblk & Hbuf) Hq a h' E.
  unfold rs__sys_realloc in E.
  destruct (blocks h !! q) as [b|]; [|done].
  destruct (grants h (tick h)).
  - destruct (moves h (tick h)); injection E as <- <-.
    + split; [|lia]. split.
      * split; [done|]. split; [cbn; lia|]. exists blk. cbn.
        by rewrite lookup_insert_ne, lookup_delete_ne by lia.
      * cbn. by rewrite lookup_insert_ne, lookup_delete_ne by lia.
    + split; [|done]. split.
      * split; [done|]. split; [done|]. exists blk. cbn.
        by rewrite lookup_insert_ne.
      * cbn. by rewrite lookup_insert_ne.
  - injection E as <- <-. split; [|done]. split; [|done].
    split; [done|]. split; [done|]. by exists blk.
Qed.

Lemma apart_away s h : p s <> PHeap x -> apart x s h.
Proof. intros Hne Hp. done. Qed.

Lemma apart_same s h0 h : apart x s h0 -> same h0 h -> apart x s h.
Proof. intros Ha [_ E] Hp. rewrite E. by apply Ha. Qed.

Lemma buf_put_away s b h :
  held h -> p s <> PHeap x ->
  holds (buf_put s b) h (fun s' h' => held h' /\ p s' <> PHeap x).
Proof.
  intros Hk Hp. unfold buf_put. destruct (p s) as [|a|] eqn:Ep.
  - apply holds_ret. split; [done|]. cbn. by rewrite Ep.
  - eapply holds_bind.
    { apply (update_away (fun blk => Hdr (hcap blk) (hrc blk) b) a); [done|].
      congruence. }
    intros ? h1 H1. apply holds_ret. split; [by apply (same_kept h)|].
    by rewrite Ep.
  - apply holds_fault.
Qed.

Lemma ensure_unique_apart s h :
  held h -> apart x s h ->
  holds (rs__ensure_unique s rs_default_alloc) h
    (fun r h' => safe r h' /\ (fst r = 0 -> p (snd r) <> PHeap x)).
Proof.
  intros Hk Ha. unfold rs__ensure_unique.
  destruct (p s) as [|a|] eqn:Ep; unfold rs_string_is_heap; rewrite Ep;
    cbn [negb].
  { apply holds_ret. cbn [fst snd].
    split; [split; [done|apply apart_away; cbn [snd]; by rewrite Ep]|].
    by rewrite Ep. }
  2:{ unfold heap_addr. rewrite Ep. intros r h' E.
      by unfold bind, rs__rc_get, bind, load_hdr in E. }
  unfold heap_addr. rewrite Ep.
  intros r h' E. unfold bind at 1 in E.
  destruct (rs__rc_get a h) as [[c h0]|] eqn:Erc; [|done].
  pose proof (rc_get_reads a h c h0 Erc) as ->.
  assert (Hc : forall blk, blocks h !! a = Some blk -> c = hrc blk).
  { intros blk Hblk. unfold rs__rc_get, bind, load_hdr, ret in Erc.
    destruct (a =? 0); [done|]. rewrite Hblk in Erc. by injection Erc as <-. }
  destruct (Z.eqb_spec c 1) as [Hc1|Hc1].
  { injection E as <- <-. cbn [fst snd]. split; [by split|].
    intros _ Hp. rewrite Ep in Hp. injection Hp as Hax. subst a.
    destruct (Ha Ep) as (blk & Hblk & Hrc).
    rewrite (Hc blk Hblk) in Hc1. done. }
  revert r h' E.
  apply holds_reads; [apply get_cap_reads|]. intros cp.
  eapply holds_bind; [by apply malloc_away|].
  intros nh h1 [Hs1 Hnh].
  destruct (nh =? 0).
  { apply holds_ret. cbn [fst snd].
    split; [|done]. split; [by apply (same_kept h)|by apply (apart_same s h)]. }
  eapply holds_bind.
  { apply (update_away (fun blk => Hdr cp (hrc blk) (hbuf blk)) nh);
      [by apply (same_kept h) | done]. }
  intros ? h2 Hs2.
  eapply holds_bind.
  { apply (update_away (fun blk => Hdr (hcap blk) 1 (hbuf blk)) nh);
      [by apply (same_kept h1) | done]. }
  intros ? h3 Hs3.
  apply holds_reads; [apply buf_load_reads|]. intros src.
  apply holds_reads; [apply buf_load_reads|]. intros old.
  apply holds_reads; [apply lift_reads|]. intros b.
  eapply holds_bind.
  { apply (update_away (fun blk => Hdr (hcap blk) (hrc blk) b) nh);
      [by apply (same_kept h2) | done]. }
  intros ? h4 Hs4.
  eapply holds_bind; [apply rc_dec_kept; by apply (same_kept h3)|].
  intros ? h5 Hk5. apply holds_ret. cbn [fst snd p set_cap set_p].
  assert (Hp : PHeap nh <> PHeap x) by congruence.
  split; [split; [done|by apply apart_away]|done].
Qed.

Lemma reserve_ex_apart s need h :
  held h -> apart x s h ->
  holds (rs_string_reserve_ex s need rs_default_alloc) h safe.
Proof.
  intros Hk Ha. unfold rs_string_reserve_ex.
  destruct (need <=? rs_string_cap s); [by apply holds_ret|].
  eapply holds_bind; [by apply ensure_unique_apart|].
  intros [e s1] h1 [[Hk1 Ha1] Hp1]. cbn [fst snd] in *.
  destruct (Z.eqb_spec e 0) as [->|Hne]; cbn [negb];
    [|by apply holds_ret].
  specialize (Hp1 eq_refl). cbn [r m rs_default_alloc].
  destruct (p s1) as [|a1|] eqn:Ep1; unfold rs_string_is_heap; rewrite Ep1.
  - eapply holds_bind; [by apply malloc_away|].
    intros nh h2 [Hs2 Hnh].
    destruct (nh =? 0).
    { apply holds_ret. split; [by apply (same_kept h1)|].
      apply apart_away. cbn. by rewrite Ep1. }
    eapply holds_bind.
    { apply (update_away (fun blk => Hdr _ (hrc blk) (hbuf blk)) nh);
        [by apply (same_kept h1) | done]. }
    intros ? h3 Hs3.
    eapply holds_bind.
    { apply (update_away (fun blk => Hdr (hcap blk) 1 (hbuf blk)) nh);
        [by apply (same_kept h2) | done]. }
    intros ? h4 Hs4.
    apply holds_reads; [apply buf_load_reads|]. intros old.
    apply holds_reads; [apply lift_reads|]. intros b.
    eapply holds_bind.
    { apply (update_away (fun blk => Hdr (hcap blk) (hrc blk) b) nh);
        [by apply (same_kept h3) | done]. }
    intros ? h5 Hs5. apply holds_ret.
    split; [by apply (same_kept h4)|]. apply apart_away. cbn. congruence.
  - unfold heap_addr. rewrite Ep1.
    eapply holds_bind; [apply realloc_away; [done|congruence]|].
    intros nh h2 [Hs2 Hnh].
    destruct (nh =? 0).
    { apply holds_ret. split; [by apply (same_kept h1)|].
      apply apart_away. cbn. by rewrite Ep1. }
    eapply holds_bind.
    { apply (update_away (fun blk => Hdr _ (hrc blk) (hbuf blk)) nh);
        [by apply (same_kept h1) | done]. }
    intros ? h3 Hs3. apply holds_ret.
    split; [by apply (same_kept h2)|]. apply apart_away. cbn. congruence.
  - unfold heap_addr. rewrite Ep1.
    eapply holds_bind.
    { apply realloc_away; [done|]. destruct Hk1 as [Hx0 _]. congruence. }
    intros nh h2 [Hs2 Hnh].
    destruct (nh =? 0).
    { apply holds_ret. split; [by apply (same_kept h1)|].
      apply apart_away. cbn. by rewrite Ep1. }
    eapply holds_bind.
    { apply (update_away (fun blk => Hdr _ (hrc blk) (hbuf blk)) nh);
        [by apply (same_kept h1) | done]. }
    intros ? h3 Hs3. apply holds_ret.
    split; [by apply (same_kept h2)|]. apply apart_away. cbn. congruence.
Qed.

(** The prefix of the mutating operations. *)
Lemma ensure_ready_apart s need (k : rs_string -> M (Z * rs_string)) h :
  held h -> apart x s h ->
  (forall s2 h2, held h2 -> p s2 <> PHeap x -> holds (k s2) h2 safe) ->
  holds (x <- rs_string_reserve_ex s need rs_default_alloc ;;
         let '(e, s) := x in
         if negb (e =? 0) then ret (-1, s) else
         x <- rs__ensure_unique s rs_default_alloc ;;
         let '(e, s) := x in
         if negb (e =? 0) then ret (-1, s) else
         k s) h safe.
Proof.
  intros Hk Ha Hcont.
  eapply holds_bind; [by apply reserve_ex_apart|].
  intros [e s1] h1 [Hk1 Ha1]. cbn [snd] in Ha1.
  destruct (negb (e =? 0)); [by apply holds_ret|].
  eapply holds_bind; [by apply ensure_unique_apart|].
  intros [e' s2] h2 [[Hk2 Ha2] Hp2]. cbn [fst snd] in *.
  destruct (Z.eqb_spec e' 0) as [->|Hne]; cbn [negb];
    [|by apply holds_ret].
  by apply Hcont, Hp2.
Qed.

Lemma put_then_ret s b h (g : rs_string -> Z * rs_string) :
  held h -> p s <> PHeap x -> (forall s', p (snd (g s')) = p s') ->
  holds (s' <- buf_put s b ;; ret (g s')) h safe.
Proof.
  intros Hk Hp Hg. eapply holds_bind; [by apply buf_put_away|].
  intros s' h' [Hk' Hp']. apply holds_ret. split; [done|].
  apply apart_away. by rewrite Hg.
Qed.

Lemma assign_apart s v h :
  held h -> apart x s h -> holds (rs_string_assign s v) h safe.
Proof.
  intros Hk Ha. unfold rs_string_assign. apply ensure_ready_apart; try done.
  intros s2 h2 Hk2 Hp2.
  apply holds_reads; [apply cstr_reads|]. intros b0.
  apply holds_reads; [apply lift_reads|]. intros b1.
  apply holds_reads; [apply lift_reads|]. intros b2.
  by apply (put_then_ret s2 b2 h2 (fun s' => (0, set_len (sv_len v) s'))).
Qed.

Lemma append_apart s v h :
  held h -> apart x s h -> holds (rs_string_append s v) h safe.
Proof.
  intros Hk Ha. unfold rs_string_append. apply ensure_ready_apart; try done.
  intros s2 h2 Hk2 Hp2.
  apply holds_reads; [apply cstr_reads|]. intros b0.
  apply holds_reads; [apply lift_reads|]. intros b1. cbv zeta.
  apply holds_reads; [apply lift_reads|]. intros b2.
  eapply holds_bind; [by apply buf_put_away|].
  intros s' h' [Hk' Hp']. apply holds_ret. split; [done|].
  by apply apart_away.
Qed.

Lemma insert_apart s pos v h :
  held h -> apart x s h -> holds (rs_string_insert s pos v) h safe.
Proof.
  intros Hk Ha. unfold rs_string_insert. cbv zeta.
  apply ensure_ready_apart; try done.
  intros s2 h2 Hk2 Hp2.
  apply holds_reads; [apply cstr_reads|]. intros b0.
  apply holds_reads; [apply lift_reads|]. intros b1.
  apply holds_reads; [apply lift_reads|]. intros b2.
  apply holds_reads; [apply lift_reads|]. intros b3.
  eapply holds_bind; [by apply buf_put_away|].
  intros s' h' [Hk' Hp']. apply holds_ret. split; [done|].
  by apply apart_away.
Qed.

Lemma erase_apart s pos n h :
  held h -> apart x s h -> holds (rs_string_erase s pos n) h safe.
Proof.
  intros Hk Ha. unfold rs_string_erase.
  destruct (len s <? pos); [by apply holds_ret|]. cbv zeta.
  eapply holds_bind; [by apply ensure_unique_apart|].
  intros [e s1] h1 [[Hk1 Ha1] Hp1]. cbn [fst snd] in *.
  destruct (Z.eqb_spec e 0) as [->|Hne]; cbn [negb];
    [|by apply holds_ret].
  apply holds_reads; [apply cstr_reads|]. intros b0.
  apply holds_reads; [apply lift_reads|]. intros b1.
  eapply holds_bind; [apply buf_put_away; [done|by apply Hp1]|].
  intros s' h' [Hk' Hp']. apply holds_ret. split; [done|].
  by apply apart_away.
Qed.

Lemma trim_left_apart s h :
  held h -> apart x s h -> holds (rs_string_trim_left s) h safe.
Proof.
  intros Hk Ha. unfold rs_string_trim_left.
  apply holds_reads; [apply cstr_reads|]. intros b0.
  apply holds_reads; [apply lift_reads|]. intros i.
  destruct (i =? 0); [by apply holds_ret | by apply erase_apart].
Qed.

Lemma trim_right_apart s h :
  held h -> apart x s h -> holds (rs_string_trim_right s) h safe.
Proof.
  intros Hk Ha. unfold rs_string_trim_right.
  destruct (len s =? 0); [by apply holds_ret|].
  apply holds_reads; [apply cstr_reads|]. intros b0.
  apply holds_reads; [apply lift_reads|]. intros e. cbv zeta.
  destruct (e =? len s); [by apply holds_ret | by apply erase_apart].
Qed.

Lemma trim_apart s h :
  held h -> apart x s h -> holds (rs_string_trim s) h safe.
Proof.
  intros Hk Ha. unfold rs_string_trim.
  eapply holds_bind; [by apply trim_right_apart|].
  intros [e s1] h1 [Hk1 Ha1]. by apply trim_left_apart.
Qed.

Lemma replace_first_apart s from to h :
  held h -> apart x s h -> holds (rs_string_replace_first s from to) h safe.
Proof.
  intros Hk Ha. unfold rs_string_replace_first.
  apply holds_reads; [apply find_reads|]. intros pos.
  destruct (pos =? npos); [by apply holds_ret|].
  destruct (sv_len to <=? sv_len from).
  - eapply holds_bind; [by apply erase_apart|].
    intros [e s1] h1 [Hk1 Ha1]. by apply insert_apart.
  - cbv zeta. eapply holds_bind; [by apply reserve_ex_apart|].
    intros [e s1] h1 [Hk1 Ha1]. cbn [snd] in Ha1.
    destruct (negb (e =? 0)); [by apply holds_ret|].
    eapply holds_bind; [by apply erase_apart|].
    intros [e2 s2] h2 [Hk2 Ha2]. by apply insert_apart.
Qed.

Lemma replace_all_iter_apart s from to i count h :
  held h -> apart x s h ->
  holds (replace_all_iter s from to i count) h iter_safe.
Proof.
  intros Hk Ha. unfold replace_all_iter.
  apply holds_reads; [apply find_reads|]. intros pos.
  destruct (pos =? npos); [by apply holds_ret|].
  eapply holds_bind; [by apply erase_apart|].
  intros [e s1] h1 [Hk1 Ha1].
  eapply holds_bind; [by apply insert_apart|].
  intros [e2 s2] h2 [Hk2 Ha2]. cbv zeta.
  apply holds_reads.
  { intros h0. unfold int_incr. destruct (count <? INT_MAX);
      [by apply holds_ret | apply holds_fault]. }
  intros c. by apply holds_ret.
Qed.

Lemma replace_all_loop_apart fuel :
  forall s from to i count h,
    held h -> apart x s h ->
    holds (replace_all_loop fuel s from to i count) h result_safe.
Proof.
  induction fuel as [|fuel IH]; intros s from to i count h Hk Ha; simpl.
  - by apply holds_ret.
  - eapply holds_bind; [by apply replace_all_iter_apart|].
    intros [[c s1] | [[s1 i1] c1]] h1 [Hk1 Ha1].
    + by apply holds_ret.
    + by apply IH.
Qed.

Lemma replace_all_apart fuel s from to h :
  held h -> apart x s h ->
  holds (rs_string_replace_all fuel s from to) h result_safe.
Proof.
  intros Hk Ha. unfold rs_string_replace_all.
  destruct (sv_len from =? 0); [by apply holds_ret|].
  by apply replace_all_loop_apart.
Qed.

Lemma vprintf_apart s out h :
  held h -> apart x s h -> holds (rs_string_vprintf s out) h safe.
Proof.
  intros Hk Ha. unfold rs_string_vprintf. cbv zeta.
  destruct (vsnprintf_ret out <? 0); [by apply holds_ret|].
  apply ensure_ready_apart; try done.
  intros s2 h2 Hk2 Hp2.
  apply holds_reads; [apply cstr_reads|]. intros b0.
  apply holds_reads; [apply lift_reads|]. intros b1.
  eapply holds_bind; [by apply buf_put_away|].
  intros s' h' [Hk' Hp']. apply holds_ret. split; [done|].
  apply apart_away. cbn [snd]. by destruct (0 <=? vsnprintf_ret out).
Qed.

Lemma exec_apart o s h :
  held h -> apart x s h ->
  holds (exec o s) h (fun s' h' => held h' /\ apart x s' h').
Proof.
  intros Hk Ha.
  assert (forall c : M (Z * rs_string),
             holds c h safe ->
             holds (r <- c ;; ret (snd r)) h
                   (fun s' h' => held h' /\ apart x s' h')) as Hsnd.
  { intros c Hc. eapply holds_bind; [exact Hc|].
    intros r h1 Hr. by apply holds_ret. }
  destruct o; simpl.
  - by apply Hsnd, reserve_ex_apart.
  - apply Hsnd. intros r h' E.
    by destruct (ensure_unique_apart s h Hk Ha r h' E).
  - by apply Hsnd, assign_apart.
  - by apply Hsnd, assign_apart.
  - by apply Hsnd, append_apart.
  - by apply Hsnd, append_apart.
  - by apply Hsnd, append_apart.
  - by apply Hsnd, insert_apart.
  - by apply Hsnd, erase_apart.
  - apply holds_reads; [apply find_reads|]. intros r. by apply holds_ret.
  - apply holds_reads; [apply starts_with_reads|]. intros r. by apply holds_ret.
  - apply holds_reads; [apply ends_with_reads|]. intros r. by apply holds_ret.
  - by apply Hsnd, trim_left_apart.
  - by apply Hsnd, trim_right_apart.
  - by apply Hsnd, trim_apart.
  - by apply Hsnd, replace_first_apart.
  - eapply holds_bind; [by apply replace_all_apart|].
    intros [[c s1]|] h1 [Hk1 Ha1]; [by apply holds_ret | apply holds_fault].
  - by apply Hsnd, vprintf_apart.
Qed.

Lemma exec_all_apart os :
  forall s h,
    held h -> apart x s h ->
    holds (exec_all os s) h (fun s' h' => held h' /\ apart x s' h').
Proof.
  induction os as [|o os IH]; intros s h Hk Ha; simpl.
  - by apply holds_ret.
  - eapply holds_bind; [by apply exec_apart|].
    intros s1 h1 [Hk1 Ha1]. by apply IH.
Qed.

End Apart.

(** X25.  Writing through one owner never shows through another: when [t]
    designates a block and [s] is another object, which either designates
    another buffer or shares the block with [t] (the reference count then
    being at least two), then after any sequence of operations on [s] (all
    but its release) the block of [t] is live and holds the bytes it held,
    so that [t] shows the content it showed. *)
Theorem cow_isolation (os : list op) (s t : rs_string) (h : heap)
    (x : Z) (blk : rs__hdr) (s' : rs_string) (h' : heap) :
  heap_ok h -> wf h t -> p t = PHeap x -> blocks h !! x = Some blk ->
  (p s = PHeap x -> 2 <= hrc blk) ->
  exec_all os s h = Ok (s', h') ->
  content t h' = content t h /\
  exists blk', blocks h' !! x = Some blk' /\ hbuf blk' = hbuf blk.
Proof.
  intros Hh Hwf Hp Hblk Hrc E.
  destruct (wf_below h t x Hh Hwf Hp) as [Hx0 Hxn].
  assert (Hk : block_kept x (hbuf blk) h).
  { split; [done|]. split; [done|]. by exists blk. }
  assert (Ha : apart x s h).
  { intros Hps. exists blk. split; [done|]. specialize (Hrc Hps). lia. }
  destruct (exec_all_apart x (hbuf blk) os s h Hk Ha s' h' E)
    as [(_ & _ & blk' & Hblk' & Hbuf') _].
  split; [|by exists blk'].
  destruct t as [l o pt c b]. cbn [p] in Hp. subst pt.
  rewrite (content_heap h' l o x c b blk') by done.
  rewrite (content_heap h l o x c b blk) by done.
  by rewrite Hbuf'.
Qed.

Lemma cow_isolation_witness :
  exists s' h',
    exec_all [Append (bs "!"); Erase 0 4; Assign (bs "other")]
      long_string shared_heap = Ok (s', h') /\
    content long_string h' = content long_string shared_heap /\
    exists blk',
      blocks h' !! 1 = Some blk' /\
      hbuf blk' = hbuf (Hdr 30 3 (bs "data is longer than twenty-two" ++ [x00])).
Proof.
  eexists _, _. split; [vm_compute; reflexivity|].
  eapply (cow_isolation [Append (bs "!"); Erase 0 4; Assign (bs "other")]
            long_string long_string shared_heap 1
            (Hdr 30 3 (bs "data is longer than twenty-two" ++ [x00]))).
  - split; [done|]. intros a Ha. apply lookup_singleton_ne.
    cbn [next shared_heap] in Ha. lia.
  - eapply wf_heap with (blk := Hdr 30 3 _);
      [done | apply lookup_singleton_eq | reflexivity | cbn; lia
      | reflexivity | lia | vm_compute; discriminate | reflexivity].
  - reflexivity.
  - apply lookup_singleton_eq.
  - intros _. cbn. lia.
  - vm_compute. reflexivity.
Defined.

(** X26.  Appending to a string that shares its block: when no allocation is
    refused, [rs_string_append] returns [0], the string appended to shows
    its content with the bytes added, and the other owner [t] of the block
    shows what it showed before. *)
Theorem cow_append (h : heap) (s t : rs_string) (x : Z) (blk : rs__hdr)
    (v c : list byte) :
  heap_ok h -> wf h s -> wf h t -> alloc_ok h ->
  p s = PHeap x -> p t = PHeap x -> blocks h !! x = Some blk ->
  2 <= hrc blk -> content s h = Some c ->
  rs_string_cap s <= CAP_LIMIT -> len s + zlen v <= CAP_MAX ->
  exists s' h',
    rs_string_append s v h = Ok ((0, s'), h') /\
    wf h' s' /\ content s' h' = Some (c ++ v) /\
    content t h' = content t h.
Proof.
  intros Hh Hwf Hwt Ha Hps Hpt Hblk Hrc Hc Hcap Hfit.
  destruct (outcome_ok _ _ _ _ Ha
              (append_spec h s v c Hh Hwf (roomy_limit s Hcap) Hfit Hc))
    as (s' & h' & Hrun & Hh' & Hwf' & _ & _ & Hc' & _).
  exists s', h'. split; [done|]. split; [done|]. split; [done|].
  destruct (wf_below h t x Hh Hwt Hpt) as [Hx0 Hxn].
  assert (Hk : block_kept x (hbuf blk) h).
  { split; [done|]. split; [done|]. by exists blk. }
  assert (Hap : apart x s h).
  { intros _. exists blk. split; [done|]. lia. }
  destruct (append_apart x (hbuf blk) s v h Hk Hap (0, s') h' Hrun)
    as [(_ & _ & blk' & Hblk' & Hbuf') _].
  destruct t as [l o pt ct b]. cbn [p] in Hpt. subst pt.
  rewrite (content_heap h' l o x ct b blk') by done.
  rewrite (content_heap h l o x ct b blk) by done.
  by rewrite Hbuf'.
Qed.

Lemma shared_heap_ok : heap_ok shared_heap.
Proof.
  split; [done|]. intros a Ha. apply lookup_singleton_ne.
  cbn [next shared_heap] in Ha. lia.
Qed.

Lemma shared_wf : wf shared_heap long_string.
Proof.
  eapply wf_heap with (blk := Hdr 30 3 _);
    [done | apply lookup_singleton_eq | reflexivity | cbn; lia
    | reflexivity | lia | vm_compute; discriminate | reflexivity].
Qed.

Lemma cow_append_witness :
  exists s' h',
    rs_string_append long_string (bs "!") shared_heap = Ok ((0, s'), h') /\
    wf h' s' /\
    content s' h' = Some (bs "data is longer than twenty-two" ++ bs "!") /\
    content long_string h' = content long_string shared_heap.
Proof.
  apply (cow_append shared_heap long_string long_string 1
           (Hdr 30 3 (bs "data is longer than twenty-two" ++ [x00]))
           (bs "!") (bs "data is longer than twenty-two")).
  - exact shared_heap_ok.
  - exact shared_wf.
  - exact shared_wf.
  - by intros n.
  - reflexivity.
  - reflexivity.
  - apply lookup_singleton_eq.
  - cbn. lia.
  - reflexivity.
  - decided.
  - decided.
Defined.

(** ** The terminator *)

Lemma poke_lookup (buf : list byte) (i : Z) (b : byte) (buf' : list byte) :
  poke buf i b = Some buf' -> buf' !! Z.to_nat i = Some b.
Proof.
  unfold poke. destruct (in_range i 1 buf) eqn:Hr; [|done].
  intros [= <-]. unfold in_range in Hr.
  apply andb_prop in Hr as [Hr H2]. apply andb_prop in Hr as [H0 _].
  apply Z.leb_le in H0, H2.
  apply list_lookup_insert_eq. unfold zlen in *. lia.
Qed.

Lemma buf_store_inv (a : Z) (buf : list byte) (h h' : heap) (u : unit) :
  buf_store a buf h = Ok (u, h') ->
  buf_load a h' = Ok (buf, h').
Proof.
  unfold buf_store, buf_load, bind, load_hdr.
  destruct (Z.eqb_spec a 0) as [E0|E0]; [done|].
  destruct (blocks h !! a) as [b|] eqn:Hb; [|done].
  unfold store_hdr. rewrite (proj2 (Z.eqb_neq a 0) E0), Hb.
  intros [= E]. subst h'. cbn [blocks set_blocks]. by rewrite lookup_insert_eq.
Qed.

Lemma put_terminated (s : rs_string) (buf : list byte) (h : heap)
    (s' : rs_string) (h' : heap) (L : Z) :
  buf_put s buf h = Ok (s', h') -> buf !! Z.to_nat L = Some x00 ->
  terminated (set_len L s') h'.
Proof.
  intros E Hz. unfold buf_put in E. destruct (p s) as [|a|] eqn:Ep; [| |done].
  - injection E as <- <-. exists buf. split; [|exact Hz].
    unfold rs_string_cstr. cbn. by rewrite Ep.
  - unfold bind in E.
    destruct (buf_store a buf h) as [[u h1]|] eqn:Est; [|done].
    injection E as <- <-. exists buf. split; [|exact Hz].
    unfold rs_string_cstr. cbn [p set_len]. rewrite Ep.
    by apply (buf_store_inv a buf h h1 u).
Qed.

Lemma set_len_self (s : rs_string) : set_len (len s) s = s.
Proof. by destruct s. Qed.

(** The prefix of the mutating operations, for what holds of a status
    [-1] in any case. *)
Lemma ensure_ready_holds s need (k : rs_string -> M (Z * rs_string)) h
    (Q : Z * rs_string -> heap -> Prop) :
  (forall s0 h0, Q (-1, s0) h0) ->
  (forall s2 h2, holds (k s2) h2 Q) ->
  holds (x <- rs_string_reserve_ex s need rs_default_alloc ;;
         let '(e, s) := x in
         if negb (e =? 0) then ret (-1, s) else
         x <- rs__ensure_unique s rs_default_alloc ;;
         let '(e, s) := x in
         if negb (e =? 0) then ret (-1, s) else
         k s) h Q.
Proof.
  intros Hfail Hk.
  eapply (holds_bind _ _ _ (fun _ _ => True)); [done|].
  intros [e s1] h1 _. destruct (negb (e =? 0)); [by apply holds_ret|].
  eapply (holds_bind _ _ _ (fun _ _ => True)); [done|].
  intros [e' s2] h2 _. destruct (negb (e' =? 0)); [by apply holds_ret|].
  apply Hk.
Qed.

Lemma holds_lift_bind {A B} (o : option A) (k : A -> M B) (h : heap)
    (Q : B -> heap -> Prop) :
  (forall a, o = Some a -> holds (k a) h Q) ->
  holds (x <- lift o ;; k x) h Q.
Proof.
  intros Hk. destruct o as [a|].
  - intros b h' E. by apply (Hk a eq_refl b h').
  - intros b h' E. done.
Qed.

Lemma assign_terminated s v h : holds (rs_string_assign s v) h done_terminated.
Proof.
  unfold rs_string_assign. apply ensure_ready_holds; [done|].
  intros s2 h2.
  apply holds_reads; [apply cstr_reads|]. intros b0.
  apply holds_reads; [apply lift_reads|]. intros b1.
  apply holds_lift_bind. intros b2 Hpoke.
  intros r h' E. unfold bind in E.
  destruct (buf_put s2 b2 h2) as [[s3 h4]|] eqn:Eput; [|done].
  injection E as <- <-. intros _. cbn [snd].
  apply (put_terminated s2 b2 h2); [done|]. by apply (poke_lookup b1).
Qed.

Lemma append_terminated s v h : holds (rs_string_append s v) h done_terminated.
Proof.
  unfold rs_string_append. cbv zeta. apply ensure_ready_holds; [done|].
  intros s2 h2.
  apply holds_reads; [apply cstr_reads|]. intros b0.
  apply holds_reads; [apply lift_reads|]. intros b1.
  apply holds_lift_bind. intros b2 Hpoke.
  intros r h' E. unfold bind in E.
  destruct (buf_put _ b2 h2) as [[s3 h4]|] eqn:Eput; [|done].
  injection E as <- <-. intros _. cbn [snd].
  pose proof (put_terminated _ b2 h2 s3 h4 _ Eput (poke_lookup _ _ _ _ Hpoke))
    as Ht.
  assert (El : len s3 = sz (len s2 + sv_len v)).
  { unfold buf_put in Eput. cbn [p set_len] in Eput.
    destruct (p s2); [by injection Eput as <- _| |done].
    unfold bind in Eput. destruct (buf_store a b2 h2) as [[u h5]|]; [|done].
    by injection Eput as <- _. }
  cbn [len set_len] in Ht. rewrite <- El in Ht. by rewrite set_len_self in Ht.
Qed.

Lemma insert_terminated s pos v h :
  holds (rs_string_insert s pos v) h done_terminated.
Proof.
  unfold rs_string_insert. cbv zeta. apply ensure_ready_holds; [done|].
  intros s2 h2.
  apply holds_reads; [apply cstr_reads|]. intros b0.
  apply holds_reads; [apply lift_reads|]. intros b1.
  apply holds_reads; [apply lift_reads|]. intros b2.
  apply holds_lift_bind. intros b3 Hpoke.
  intros r h' E. unfold bind in E.
  destruct (buf_put _ b3 h2) as [[s3 h4]|] eqn:Eput; [|done].
  injection E as <- <-. intros _. cbn [snd].
  pose proof (put_terminated _ b3 h2 s3 h4 _ Eput (poke_lookup _ _ _ _ Hpoke))
    as Ht.
  assert (El : len s3 = sz (len s2 + sv_len v)).
  { unfold buf_put in Eput. cbn [p set_len] in Eput.
    destruct (p s2); [by injection Eput as <- _| |done].
    unfold bind in Eput. destruct (buf_store a b3 h2) as [[u h5]|]; [|done].
    by injection Eput as <- _. }
  cbn [len set_len] in Ht. rewrite <- El in Ht. by rewrite set_len_self in Ht.
Qed.

Lemma vprintf_terminated s out h :
  holds (rs_string_vprintf s out) h
    (fun r h' => 0 <= fst r -> terminated (snd r) h').
Proof.
  unfold rs_string_vprintf. cbv zeta.
  destruct (Z.ltb_spec (vsnprintf_ret out) 0) as [Hneg|Hpos].
  { apply holds_ret. cbn [fst]. lia. }
  assert (Hout : exists o, out = Some o /\ vsnprintf_ret out = zlen o).
  { unfold vsnprintf_ret in *. destruct out as [o|]; [|lia].
    exists o. split; [done|]. destruct (zlen o <=? INT_MAX); [done|lia]. }
  destruct Hout as (o & -> & Hret). rewrite Hret in *.
  change (default [] (Some o)) with o.
  apply ensure_ready_holds; [cbn [fst]; lia|].
  intros s2 h2.
  apply holds_reads; [apply cstr_reads|]. intros b0.
  apply holds_lift_bind. intros b2 Hto.
  intros r h' E. unfold bind in E.
  destruct (buf_put s2 b2 h2) as [[s3 h4]|] eqn:Eput; [|done].
  injection E as <- <-. intros _. cbn [snd].
  rewrite (proj2 (Z.leb_le 0 (zlen o))) by lia.
  apply (put_terminated s2 b2 h2); [done|].
  unfold vsnprintf_to in Hto.
  replace (Z.min (zlen o) (zlen o + 1 - 1)) with (zlen o) in Hto by lia.
  destruct (memcpy b0 0 o 0 (zlen o)) as [b1|]; [|done].
  by apply (poke_lookup b1).
Qed.

(** X27.  After [rs_string_assign], [rs_string_append], [rs_string_insert] and
    [rs_string_vprintf] (when no allocation is refused) the buffer is
    terminated: the byte at index [len] of what [rs_string_cstr] returns is
    zero, whatever the buffer held before. *)
Theorem writes_terminate (h : heap) (s : rs_string) (pos : Z)
    (v c : list byte) :
  heap_ok h -> wf h s -> alloc_ok h -> content s h = Some c ->
  rs_string_cap s <= CAP_LIMIT -> 0 <= pos ->
  len s + zlen v <= CAP_MAX -> zlen v <= INT_MAX ->
  (exists s' h',
      rs_string_assign s v h = Ok ((0, s'), h') /\ terminated s' h') /\
  (exists s' h',
      rs_string_append s v h = Ok ((0, s'), h') /\ terminated s' h') /\
  (exists s' h',
      rs_string_insert s pos v h = Ok ((0, s'), h') /\ terminated s' h') /\
  (exists s' h',
      rs_string_vprintf s (Some v) h = Ok ((zlen v, s'), h') /\
      terminated s' h').
Proof.
  intros Hh Hwf Ha Hc Hcap Hpos Hfit Hint.
  destruct (wf_cstr h s Hwf) as (buf0 & _ & _ & Hl0 & _).
  assert (Hv : 0 <= zlen v) by (unfold zlen; lia).
  split_and!.
  - destruct (outcome_ok _ _ _ _ Ha
                (assign_spec h s v Hh Hwf (roomy_limit s Hcap) ltac:(lia)))
      as (s' & h' & Hrun & _).
    exists s', h'. split; [done|].
    by apply (assign_terminated s v h (0, s') h' Hrun).
  - destruct (outcome_ok _ _ _ _ Ha
                (append_spec h s v c Hh Hwf (roomy_limit s Hcap) Hfit Hc))
      as (s' & h' & Hrun & _).
    exists s', h'. split; [done|].
    by apply (append_terminated s v h (0, s') h' Hrun).
  - destruct (outcome_ok _ _ _ _ Ha
                (insert_spec h s pos v c Hh Hwf (roomy_limit s Hcap) Hpos
                   Hfit Hc))
      as (s' & h' & Hrun & _).
    exists s', h'. split; [done|].
    by apply (insert_terminated s pos v h (0, s') h' Hrun).
  - destruct (vprintf_ok h s v Hh Hwf Ha Hcap Hint) as (s' & h' & Hrun & _).
    exists s', h'. split; [done|].
    by apply (vprintf_terminated s (Some v) h (zlen v, s') h' Hrun).
Qed.

Lemma writes_terminate_witness :
  (exists s' h',
      rs_string_assign abc_string (bs "xy") heap0 = Ok ((0, s'), h') /\
      terminated s' h') /\
  (exists s' h',
      rs_string_append abc_string (bs "xy") heap0 = Ok ((0, s'), h') /\
      terminated s' h') /\
  (exists s' h',
      rs_string_insert abc_string 1 (bs "xy") heap0 = Ok ((0, s'), h') /\
      terminated s' h') /\
  (exists s' h',
      rs_string_vprintf abc_string (Some (bs "xy")) heap0 =
        Ok ((zlen (bs "xy"), s'), h') /\
      terminated s' h').
Proof.
  apply (writes_terminate heap0 abc_string 1 (bs "xy") (bs "abc")).
  - exact heap0_ok.
  - exact (abc_wf heap0).
  - exact heap0_alloc_ok.
  - exact (abc_content heap0).
  - decided.
  - decided.
  - decided.
  - decided.
Defined.

(** ** Sharing a block, and writing in place *)

(** X28.  [rs_string_share (dst, src)] with [src] on the heap and [dst] inline:
    [dst] becomes a copy of the fields of [src], so both designate the one
    block and show the content [src] showed; [src] stays well formed, and
    no other block of the heap is touched. *)
Theorem share_heap_shows (h : heap) (a : Z) (blk : rs__hdr)
    (src dst : rs_string) :
  wf h src -> p src = PHeap a -> blocks h !! a = Some blk ->
  hrc blk + 2 <= SIZE_MAX -> rs_string_is_heap dst = false ->
  exists h',
    rs_string_share 1 0 [src; dst] h = Ok ([src; src], h') /\
    wf h' src /\ content src h' = content src h /\
    forall a', a' <> a -> blocks h' !! a' = blocks h !! a'.
Proof.
  intros W Hp Hblk Hrc Hdst.
  destruct W as [| l o a' c b blk' Ha Hblk' Hc Hrc' Hbuf Hl Hcm Hb]; [done|].
  simpl in Hp. injection Hp as ->. rewrite Hblk in Hblk'. injection Hblk' as <-.
  eexists. split.
  - unfold rs_string_share. rewrite bool_decide_eq_false_2 by done.
    unfold bind at 1. simpl. unfold ret at 1.
    unfold bind at 1. unfold rs_string_free. rewrite Hdst.
    unfold bind at 1. unfold ret at 1 2.
    unfold bind at 1. simpl. unfold ret at 1.
    unfold bind at 1. unfold bind at 1. simpl. unfold ret at 1.
    unfold bind at 1. unfold rs__retain. simpl.
    unfold bind at 1. erewrite rs__rc_inc_run by (done || eassumption).
    unfold ret at 1 2.
    unfold bind at 1. simpl. unfold ret at 1.
    unfold bind at 1. unfold bind at 1.
    erewrite rs__rc_inc_run by first [done | hlook].
    hsimpl. reflexivity.
  - split_and!.
    + eapply wf_heap; hsimpl; try hlook; try done.
      cbn [hrc]. rewrite (sz_small (hrc blk + 1)) by zlia.
      rewrite sz_small by zlia. lia.
    + erewrite !content_heap by first [done | hlook]. done.
    + intros a' Hne. hsimpl. by rewrite lookup_insert_ne.
Qed.

Lemma share_heap_shows_witness :
  exists h',
    rs_string_share 1 0 [long_string; abc_string] long_heap =
      Ok ([long_string; long_string], h') /\
    wf h' long_string /\
    content long_string h' = content long_string long_heap /\
    forall a', a' <> 1 -> blocks h' !! a' = blocks long_heap !! a'.
Proof.
  apply (share_heap_shows long_heap 1
           (Hdr 30 1 (bs "data is longer than twenty-two" ++ [x00]))
           long_string abc_string).
  - exact long_wf.
  - reflexivity.
  - apply lookup_singleton_eq.
  - decided.
  - reflexivity.
Defined.

Lemma buf_put_stays (s : rs_string) (b : list byte) (h : heap)
    (s' : rs_string) (h' : heap) :
  buf_put s b h = Ok (s', h') ->
  p s' = p s /\ tick h' = tick h /\ next h' = next h.
Proof.
  unfold buf_put. destruct (p s) as [|a|] eqn:Ep; [| |done].
  - intros [= <- <-]. cbn. by rewrite Ep.
  - unfold buf_store. unfold bind, load_hdr.
    destruct (Z.eqb_spec a 0) as [E0|E0]; [intros; done|].
    destruct (blocks h !! a) as [blk|] eqn:Hb; [|intros; done].
    unfold store_hdr. rewrite (proj2 (Z.eqb_neq a 0) E0), Hb.
    intros [= <- <-]. by rewrite Ep.
Qed.

(** X29.  Appending within the capacity to a string that owns its buffer alone
    cannot fail and does not move the buffer: whatever the allocator would
    answer, [rs_string_append] returns [0] without asking it, the object
    designates the buffer it designated, and the content is the old one
    with the bytes added. *)
Theorem append_in_place (h : heap) (s : rs_string) (v c : list byte) :
  heap_ok h -> wf h s -> unique h s -> content s h = Some c ->
  len s + zlen v <= rs_string_cap s ->
  exists s' h',
    rs_string_append s v h = Ok ((0, s'), h') /\
    p s' = p s /\ tick h' = tick h /\ next h' = next h /\
    wf h' s' /\ content s' h' = Some (c ++ v) /\
    rs_string_cap s' = rs_string_cap s.
Proof.
  intros Hh W Hu Hc Hfit.
  destruct (wf_content h s W) as (buf & Ecstr & Ect & Hbuf & Hl & Hcm).
  assert (Hv : 0 <= zlen v) by (unfold zlen; lia).
  destruct (append_buf buf v (len s)) as (b1 & b2 & M1 & M2 & L2 & K2);
    [lia..|].
  assert (W2 : wf h (set_len (len s + zlen v) s))
    by (apply wf_set_len; [done|lia]).
  destruct (buf_put_spec h (set_len (len s + zlen v) s) b2 Hh W2)
    as (s' & h' & Eput & Hh' & W' & G' & L' & C' & I' & Ecstr');
    [rewrite cap_set_len; lia|].
  destruct (buf_put_stays _ _ _ _ _ Eput) as (Hp' & Ht' & Hn').
  assert (Eu : rs__ensure_unique s rs_default_alloc h = Ok ((0, s), h)).
  { unfold rs__ensure_unique. unfold unique in Hu.
    destruct (p s) as [|a|] eqn:Ep; unfold rs_string_is_heap; rewrite Ep;
      [done| |done]. cbn [negb]. unfold heap_addr. rewrite Ep.
    destruct Hu as (blk & Hblk & Hrc).
    destruct (wf_below h s a Hh W Ep) as [Ha0 _].
    unfold bind at 1. erewrite rs__rc_get_run by (done || eassumption).
    by rewrite Hrc. }
  exists s', h'. split.
  { unfold rs_string_append, sv_len. cbv zeta.
    rewrite (sz_small (len s + zlen v)) by zlia.
    unfold rs_string_reserve_ex.
    rewrite (proj2 (Z.leb_le _ _) Hfit).
    unfold bind at 1. cbn [ret negb Z.eqb]. cbv beta iota.
    unfold bind at 1. rewrite Eu. cbn [negb Z.eqb]. cbv beta iota.
    unfold bind at 1. rewrite Ecstr. cbv beta iota.
    unfold bind at 1. rewrite M1. unfold lift, ret at 1.
    rewrite ?(sz_small (len s + zlen v)) by zlia.
    unfold bind at 1. rewrite len_set_len, M2. unfold lift, ret at 1.
    unfold bind at 1. rewrite Eput. done. }
  split_and!; try done.
  rewrite (content_cstr_self _ _ _ Ecstr'), L', len_set_len.
  rewrite K2. f_equal. rewrite Hc in Ect. by injection Ect as ->.
Qed.

Lemma append_in_place_witness :
  exists s' h',
    rs_string_append abc_string (bs "xy") heap_oom = Ok ((0, s'), h') /\
    p s' = p abc_string /\ tick h' = tick heap_oom /\
    next h' = next heap_oom /\
    wf h' s' /\ content s' h' = Some (bs "abc" ++ bs "xy") /\
    rs_string_cap s' = rs_string_cap abc_string.
Proof.
  apply (append_in_place heap_oom abc_string (bs "xy") (bs "abc")).
  - split; [done|]. intros a _. apply lookup_empty.
  - exact (abc_wf heap_oom).
  - exact I.
  - exact (abc_content heap_oom).
  - decided.
Defined.

(** [rs__ensure_unique] copies [len + 1] bytes: the byte behind the content
    goes along. *)
Lemma ensure_unique_byte (h : heap) (s : rs_string) (buf : list byte)
    (e : Z) (s' : rs_string) (h' : heap) :
  heap_ok h -> wf h s -> rs_string_cstr s h = Ok (buf, h) ->
  rs__ensure_unique s rs_default_alloc h = Ok ((e, s'), h') ->
  len s' = len s /\
  exists buf', rs_string_cstr s' h' = Ok (buf', h') /\
               buf' !! Z.to_nat (len s) = buf !! Z.to_nat (len s).
Proof.
  intros Hh W Ecstr. pose proof Hh as [Hn Hfresh].
  destruct W as [l o c b Hl Hb | l o a c b blk Ha Hblk Hc Hrc Hbuf Hl Hcm Hb].
  - unfold rs__ensure_unique. simpl. intros [= <- <- <-].
    split; [done|]. by exists buf.
  - assert (Eb : buf = hbuf blk).
    { unfold rs_string_cstr in Ecstr. cbn [p] in Ecstr.
      erewrite buf_load_run in Ecstr by (done || eassumption).
      by injection Ecstr as <-. }
    subst buf.
    destruct (Z.eqb_spec (hrc blk) 1) as [E1|E1].
    { assert (Er : rs__ensure_unique (Str l o (PHeap a) c b) rs_default_alloc h
                   = Ok ((0, Str l o (PHeap a) c b), h)).
      { unfold rs__ensure_unique. mstep. by zb. }
      rewrite Er. intros [= <- <- <-]. split; [done|]. by exists (hbuf blk). }
    assert (a < next h).
    { destruct (Z.lt_ge_cases a (next h)); [done|].
      rewrite Hfresh in Hblk; [done|lia]. }
    subst c.
    assert (Z.to_nat (sz (sizeof_hdr + hcap blk + 1) - sizeof_hdr)
            = Z.to_nat (hcap blk + 1)) as Esz.
    { sz_simpl. zlia. }
    destruct (memcpy_some (replicate (Z.to_nat (hcap blk + 1)) x00) 0
                (hbuf blk) 0 (l + 1))
      as (nb & E & Lnb & Knb); [rng..|].
    destruct (grants h (tick h)) eqn:G.
    + assert (Er : exists hn,
                 rs__ensure_unique (Str l o (PHeap a) (hcap blk) b)
                   rs_default_alloc h
                 = Ok ((0, Str l o (PHeap (next h)) (hcap blk) b), hn) /\
                 blocks hn !! next h = Some (Hdr (hcap blk) 1 nb)).
      { eexists. split.
        { unfold rs__ensure_unique. mstep. zb.
          mstep. unfold bind at 1. hsimpl. unfold rs__sys_malloc.
          rewrite G, Esz.
          zb. mstep. mstep. mstep. mstep. sz_simpl.
          unfold bind at 1. rewrite E. unfold lift, ret at 1.
          mstep. mstep. reflexivity. }
        hlook. }
      destruct Er as (hn & Er & Hnb). rewrite Er. intros [= <- <- <-].
      split; [done|]. exists nb. split.
      * unfold rs_string_cstr. cbn [p].
        erewrite buf_load_run by first [lia | eassumption]. done.
      * cbn [len]. rewrite Knb. rewrite decide_True by lia.
        f_equal. lia.
    + assert (Er : rs__ensure_unique (Str l o (PHeap a) (hcap blk) b)
                     rs_default_alloc h
                   = Ok ((-1, Str l o (PHeap a) (hcap blk) b), asked h)).
      { unfold rs__ensure_unique. mstep. zb.
        mstep. unfold bind at 1. hsimpl. unfold rs__sys_malloc. rewrite G.
        by zb. }
      rewrite Er. intros [= <- <- <-]. split; [done|].
      exists (hbuf blk). split; [|done].
      unfold rs_string_cstr. cbn [p].
      erewrite buf_load_run by first [done | hlook]. done.
Qed.

(** X30.  [rs_string_erase] keeps the terminator: on a terminated string, for
    [pos] inside the string and [pos + n] representable, when no allocation
    is refused, it returns [0] and the string it leaves is terminated at
    its new length. *)
Theorem erase_keeps_terminator (h : heap) (s : rs_string) (pos n : Z) :
  heap_ok h -> wf h s -> alloc_ok h -> terminated s h ->
  0 <= pos <= len s -> 0 <= n -> pos + n <= SIZE_MAX ->
  exists s' h',
    rs_string_erase s pos n h = Ok ((0, s'), h') /\
    wf h' s' /\ len s' = len s - Z.min n (len s - pos) /\
    terminated s' h'.
Proof.
  intros Hh W Ha (buf0 & Ecstr0 & Hz0) Hpos Hn Hfit.
  destruct (wf_content h s W) as (buf0' & _ & _ & _ & Hl0 & Hcm0).
  set (k := if len s <? pos + n then len s - pos else n).
  assert (k = Z.min n (len s - pos)) as Ek.
  { unfold k. destruct (Z.ltb_spec (len s) (pos + n)); lia. }
  destruct (outcome_ok _ _ _ _ Ha (ensure_unique_spec h s Hh W))
    as (s2 & h2 & E2 & Hh2 & W2 & Ha2 & _ & L2 & C2 & _).
  destruct (ensure_unique_byte h s buf0 0 s2 h2 Hh W Ecstr0 E2)
    as (_ & buf & Ecstr & Hz).
  rewrite Hz0 in Hz.
  destruct (wf_content h2 s2 W2) as (buf' & Ecstr' & _ & Hbuf & Hl & Hcm).
  rewrite Ecstr in Ecstr'. injection Ecstr' as <-.
  destruct (memcpy_some buf pos buf (pos + k) (len s2 - (pos + k) + 1))
    as (b1 & M1 & L1 & K1); [lia..|].
  destruct (buf_put_spec h2 s2 b1 Hh2 W2)
    as (s' & h' & Eput & Hh' & W' & G' & L' & C' & I' & Ecstr''); [lia|].
  exists (set_len (len s - k) s'), h'. split.
  { unfold rs_string_erase.
    rewrite (proj2 (Z.ltb_ge (len s) pos)) by lia.
    rewrite (sz_small (pos + n)), (sz_small (len s - pos)) by zlia.
    fold k.
    unfold bind at 1. rewrite E2. cbv beta iota. zb. cbn [negb]. cbv iota.
    unfold bind at 1. rewrite Ecstr. cbv beta iota.
    rewrite (sz_small (pos + k)) by zlia.
    rewrite (sz_small (len s2 - (pos + k))) by zlia.
    rewrite (sz_small (len s2 - (pos + k) + 1)) by zlia.
    unfold memmove. unfold bind at 1. rewrite M1. unfold lift, ret at 1.
    unfold bind at 1. rewrite Eput. cbv beta iota.
    rewrite L', L2. rewrite (sz_small (len s - k)) by zlia. done. }
  split_and!.
  - apply wf_set_len; [done|lia].
  - rewrite len_set_len. lia.
  - apply (put_terminated s2 b1 h2 s' h' (len s - k) Eput).
    rewrite K1. rewrite decide_True by lia.
    rewrite <- Hz. f_equal. lia.
Qed.

Lemma long_terminated : terminated long_string long_heap.
Proof. exists (bs "data is longer than twenty-two" ++ [x00]). by split. Qed.

Lemma erase_keeps_terminator_witness :
  exists s' h',
    rs_string_erase long_string 4 3 long_heap = Ok ((0, s'), h') /\
    wf h' s' /\ len s' = len long_string - Z.min 3 (len long_string - 4) /\
    terminated s' h'.
Proof.
  apply (erase_keeps_terminator long_heap long_string 4 3).
  - exact long_heap_ok.
  - exact long_wf.
  - exact long_alloc_ok.
  - exact long_terminated.
  - decided.
  - decided.
  - decided.
Defined.
